(** * TailwindPlus downloader and diff tool: a shallow embedding

    The development follows the two programs of the repository:

    - [tailwindplus-download.js], the scraper: the in-page helpers
      [findUrlBasePath], [productSectionToNamesAndPageUrls] and
      [componentSectionToNameAndData], the page extractors built on them, the
      orchestrator [scrapeTailwindPlus] and the entry point [main];
    - [tailwindplus-diff.sh], the diff tool: the four nested [jq] loops, the
      comparison of one component and the [safe_name] pipeline.

    JavaScript strings are modelled as [string] (the URLs read from [a.href]
    are serialised, hence ASCII), JavaScript arrays as lists held in a store
    of array objects, JavaScript objects as association lists in insertion
    order, promises and exceptions as an outcome type. *)

From Stdlib Require Import Ascii String.
From stdpp Require Import gmap strings list sorting.


(** ** JavaScript strings *)

Module JsString.

(** [s[i]]: the character at index [i], [undefined] (here [None]) out of
    range. *)
Definition at_index (s : string) (i : nat) : option ascii := String.get i s.

(** [s.substring(0, n)]. *)
Definition substring0 (s : string) (n : nat) : string := String.substring 0 n s.

(** [a === b] on two results of indexing. *)
Definition strict_eq (a b : option ascii) : bool := bool_decide (a = b).

(** [p] is a prefix of [s]. *)
Definition is_prefix (p s : string) : Prop := ∃ t, s = p +:+ t.

(** [s] starts with the character [c]. *)
Definition starts_with (c : ascii) (s : string) : Prop := ∃ t, s = String c t.

End JsString.

(** ** UrlPrefixResolver: [findUrlBasePath] *)

(** [Array.prototype.sort()] without a comparator orders strings by their
    code units; the order is total and antisymmetric, so the sorted array is
    determined by the elements, whatever algorithm the engine runs. *)
Definition array_sort (a : list string) : list string := merge_sort String.le a.

(** The loop
    [let i = 0; while (i < first.length && i < last.length && first[i] === last[i]) i++]
    started at index [i]. Each iteration increases [i], which stays below
    [first.length]: [fuel] bounds the number of iterations. *)
Fixpoint common_prefix_loop (fuel : nat) (first last : string) (i : nat) : nat :=
  match fuel with
  | 0 => i
  | S fuel' =>
      if (i <? String.length first)%nat && (i <? String.length last)%nat
         && JsString.strict_eq (JsString.at_index first i) (JsString.at_index last i)
      then common_prefix_loop fuel' first last (S i)
      else i
  end.

(** [findUrlBasePath(urls)], on the elements of the array. *)
Definition findUrlBasePath (urls : list string) : string :=
  match urls with
  | [] => ""
  | [u] => u
  | _ =>
      let urls := array_sort urls in
      let first := default "" (head urls) in
      let last := default "" (last urls) in
      let i := common_prefix_loop (S (String.length first)) first last 0 in
      JsString.substring0 first i
  end.

(** *** The same function on the store of array objects

    A JavaScript array is an object: the caller and the callee share it.
    [Array.prototype.sort] sorts the receiver in place and returns it;
    the spread [[...a]] allocates a new array. *)
Module Store.

Abbreviation ref := nat (only parsing).

Abbreviation store := (gmap nat (list string)) (only parsing).

(** [[...a]]: a new array object with the elements of [a]. *)
Definition spread (a : ref) (h : store) : option (ref * store) :=
  elems ← h !! a;
  let r := fresh (dom h) in
  Some (r, <[r := elems]> h).

(** [a.sort()]: sorts [a] in place, returns [a]. *)
Definition sort (a : ref) (h : store) : option (ref * store) :=
  elems ← h !! a;
  Some (a, <[a := array_sort elems]> h).

(** [a[i]]. *)
Definition get (a : ref) (i : nat) (h : store) : option string :=
  elems ← h !! a; elems !! i.

(** [a.length]. *)
Definition len (a : ref) (h : store) : option nat :=
  elems ← h !! a; Some (length elems).

(** [findUrlBasePath(urls)] with [urls] a reference; the result and the
    store after the call. The assignment [urls = [...urls].sort()] rebinds
    the parameter, a local variable, to the sorted copy. *)
Definition findUrlBasePath (urls : ref) (h : store) : option (string * store) :=
  n ← len urls h;
  if (n =? 0)%nat then Some ("", h)
  else if (n =? 1)%nat then u ← get urls 0 h; Some (u, h)
  else
    '(copy, h) ← spread urls h;
    '(urls, h) ← sort copy h;
    first ← get urls 0 h;
    n ← len urls h;
    last ← get urls (n - 1) h;
    let i := common_prefix_loop (S (String.length first)) first last 0 in
    Some (JsString.substring0 first i, h).

End Store.

(** ** JavaScript values, objects and completions *)

(** The values the scraper stores in its tree: strings (a URL placeholder or
    the markup of a component) and objects. An object is the list of its own
    properties in insertion order, with unique keys. *)
#[warnings="-register-all"]
Inductive value : Type :=
| VStr (s : string)
| VObj (o : list (string * value)).

Abbreviation obj := (list (string * value)) (only parsing).

(** [o[k]], [None] standing for [undefined]. *)
Fixpoint obj_get (k : string) (o : obj) : option value :=
  match o with
  | [] => None
  | (k', v) :: o' => if decide (k' = k) then Some v else obj_get k o'
  end.

(** [o[k] = v]: an existing property keeps its place, a new one is added
    last. *)
Fixpoint obj_set (k : string) (v : value) (o : obj) : obj :=
  match o with
  | [] => [(k, v)]
  | (k', v') :: o' =>
      if decide (k' = k) then (k, v) :: o' else (k', v') :: obj_set k v o'
  end.

(** [Object.keys(o)] and [Object.entries(o)]. Keys that are array indices
    are enumerated first by the engine; no property below depends on the
    order of enumeration. *)
Definition obj_keys (o : obj) : list string := o.*1.
Definition obj_entries (o : obj) : list (string * value) := o.

(** [{...a, ...b}]. *)
Definition obj_spread (a b : obj) : obj :=
  foldl (λ acc kv, obj_set kv.1 kv.2 acc) a b.

(** [{ error: message }]. *)
Definition error_marker (message : string) : value := VObj [("error", VStr message)].

(** How an evaluation ends: with a value, with a thrown error (a rejected
    promise) of the given [message], or with [process.exit(code)]. *)
Inductive outcome (A : Type) : Type :=
| Ok (a : A)
| Throw (message : string)
| Exit (code : Z).
Arguments Ok {A} a.
Arguments Throw {A} message.
Arguments Exit {A} code.

(** ** HierarchyExtractor: the functions evaluated in the page

    The rendered document is given by the nodes the selectors match. A
    function that throws in the page throws the error of the engine, whose
    message is given here as Chromium words it; what the caller of
    [page.evaluate] receives is built by the automation library, see
    [evaluate] below. *)

(** A [section[id^="product-"]] of the root page: the text of its [h2], if
    it has one, and the [href] of every [li a] below it. *)
Record root_section := RootSection {
  rs_h2 : option string;
  rs_links : list string }.

(** An element matched by [li :is(p:first-child, a)]: [nodeName] is ["A"]
    or ["P"]. *)
Inductive element : Type :=
| ElemA (href : string)
| ElemP (textContent : string).

(** A [section[id^="product-"]] of a product page. *)
Record product_section := ProductSection {
  ps_h3 : option string;
  ps_items : list element }.

(** A [section[id^="component-"]] of a components page: whether the code
    button is found, the text of the [h2], and the text of [pre code] once
    the button has been clicked and the delay has passed. *)
Record component_section := ComponentSection {
  cs_codeButton : bool;
  cs_h2 : option string;
  cs_code : option string }.

(** The message of the [TypeError] raised by a property access on [null]. *)
Definition null_access (property : string) : string :=
  "Cannot read properties of null (reading '" +:+ property +:+ "')".

(** [getProductNamesAndPageUrls]: the reduction over the product sections
    of the root page. *)
Definition getProductNamesAndPageUrls (sections : list root_section) : outcome obj :=
  foldl (λ acc section,
           match acc with
           | Ok namesAndUrls =>
               match rs_h2 section with
               | Some name =>
                   Ok (obj_set name (VStr (findUrlBasePath (rs_links section)))
                               namesAndUrls)
               | None => Throw (null_access "textContent")
               end
           | failed => failed
           end)
        (Ok []) sections.

(** The callback of [reduce] in [productSectionToNamesAndPageUrls], applied
    from [index] on to the remaining items of [array]. The accumulator is
    created by [{}], and [obj[item] = previous] is an assignment: for the
    key [__proto__] it reaches the setter inherited from [Object.prototype],
    which ignores a string, and no property is created. *)
Fixpoint reduce_names_and_urls (array : list string) (index : nat)
    (rest : list string) (o : obj) : obj :=
  match rest with
  | [] => o
  | item :: rest' =>
      let o' :=
        if Nat.odd index then
          match array !! (index - 1)%nat with
          | Some previous =>
              if decide (item = "__proto__") then o
              else obj_set item (VStr previous) o
          | None => o
          end
        else o in
      reduce_names_and_urls array (S index) rest' o'
  end.

(** [productSectionToNamesAndPageUrls(pageSection)]. *)
Definition productSectionToNamesAndPageUrls (items : list element) : obj :=
  let array :=
    map (λ e, match e with ElemA href => href | ElemP textContent => textContent end)
        items in
  reduce_names_and_urls array 0 array [].

(** [getProductSectionsAndPageUrls]. *)
Definition getProductSectionsAndPageUrls (sections : list product_section) : outcome obj :=
  foldl (λ acc section,
           match acc with
           | Ok namesAndUrls =>
               match ps_h3 section with
               | Some name =>
                   Ok (obj_set name
                         (VObj (productSectionToNamesAndPageUrls (ps_items section)))
                         namesAndUrls)
               | None => Throw (null_access "textContent")
               end
           | failed => failed
           end)
        (Ok []) sections.

(** [componentSectionToNameAndData(componentSection)]: click the code
    button, wait, read the heading and the code. *)
Definition componentSectionToNameAndData (section : component_section) : outcome obj :=
  if cs_codeButton section then
    match cs_h2 section with
    | Some name =>
        match cs_code section with
        | Some code => Ok [(name, VStr code)]
        | None => Throw (null_access "textContent")
        end
    | None => Throw (null_access "textContent")
    end
  else Throw (null_access "click").

(** The asynchronous reduction evaluated in the page by
    [getComponentsAndData]: each callback awaits the accumulator first, so a
    rejection is passed on and no later section is processed. *)
Definition evaluate_components (sections : list component_section) : outcome obj :=
  foldl (λ acc section,
           match acc with
           | Ok o =>
               match componentSectionToNameAndData section with
               | Ok entry => Ok (obj_spread o entry)
               | Throw message => Throw message
               | Exit code => Exit code
               end
           | failed => failed
           end)
        (Ok []) sections.

(** [getComponentsAndData(componentPage)]: the [catch] returns [{}]. *)
Definition getComponentsAndData (sections : list component_section) : obj :=
  match evaluate_components sections with
  | Ok o => o
  | _ => []
  end.

(** ** The browser seen from the scraper

    What the automation library answers at each step of a run. A step that
    is rejected carries the message of its error. The answers are indexed by
    the node being visited: the page of a product by the name of the product,
    the page of a Group by the names of the product, the Section and the
    Group; [goto] is told the URL it is given. *)

(** The visit of one Group: [goto] on the page of the product, the
    component sections found there, then [goBack]. *)
Record group_visit := GroupVisit {
  gv_goto : string → option string;
  gv_sections : list component_section;
  gv_goBack : option string }.

(** The tab opened for one product: [context.newPage()], [goto], the product
    sections of the page, [close]. *)
Record product_visit := ProductVisit {
  pv_newPage : option string;
  pv_goto : string → option string;
  pv_sections : list product_section;
  pv_rejection : string → string;
      (* the message of the error [page.evaluate] rejects with, from the
         message of the error thrown in the page *)
  pv_close : option string }.

Record browser := Browser {
  br_launch : option string;       (* launch, newContext, newPage *)
  br_addCookies : option string;
  br_root_goto : string → option string;
  br_root_sections : list root_section;
  br_root_rejection : string → string;   (* as [pv_rejection], on the root page *)
  br_root_close : option string;
  br_product : string → product_visit;
  br_group : string → string → string → group_visit;
  br_close : option string }.

(** [await page.evaluate(f)]: what [f] returns in the page, or a rejection
    whose message the automation library builds from the error thrown in the
    page. *)
Definition evaluate {A} (rejection : string → string) (inPage : outcome A) : outcome A :=
  match inPage with
  | Throw message => Throw (rejection message)
  | completed => completed
  end.

(** ** TraversalOrchestrator: [scrapeTailwindPlus] *)

(** The object [productHierarchy], mutated in place during the walk, and the
    assignments made into it, in order: the path assigned and the value. *)
Record state := State {
  productHierarchy : obj;
  writes : list (list string * value) }.

(** Computations over the state that may throw. *)
Definition M (A : Type) : Type := state → outcome A * state.

Definition ret {A} (a : A) : M A := λ st, (Ok a, st).

Definition bind {A B} (m : M A) (k : A → M B) : M B :=
  λ st, match m st with
        | (Ok a, st') => k a st'
        | (Throw message, st') => (Throw message, st')
        | (Exit code, st') => (Exit code, st')
        end.

Definition lift {A} (o : outcome A) : M A := λ st, (o, st).

Definition throw {A} (message : string) : M A := lift (Throw message).

(** [await] of a browser step. *)
Definition await (step : option string) : M unit :=
  match step with
  | None => ret tt
  | Some message => throw message
  end.

(** [try { body } catch (error) { handler(error.message) }]. *)
Definition try_catch {A} (body : M A) (handler : string → M A) : M A :=
  λ st, match body st with
        | (Throw message, st') => handler message st'
        | done => done
        end.

(** [try { body } finally { final }]. *)
Definition try_finally {A} (body : M A) (final : M unit) : M A :=
  λ st, match body st with
        | (Exit code, st') => (Exit code, st')
        | (result, st') =>
            match final st' with
            | (Ok _, st'') => (result, st'')
            | (Throw message, st'') => (Throw message, st'')
            | (Exit code, st'') => (Exit code, st'')
            end
        end.

#[global] Instance M_ret : MRet M := @ret.
#[global] Instance M_bind : MBind M := λ A B k m, bind m k.

(** [for (const x of xs) body(x)], [xs] being evaluated once. *)
Fixpoint for_each {B} (xs : list B) (body : B → M unit) : M unit :=
  match xs with
  | [] => ret tt
  | x :: xs' => bind (body x) (λ _, for_each xs' body)
  end.

(** The message of the [TypeError] raised when a property of [undefined] is
    read or set. The walk never reaches it. *)
Definition undefined_access : string := "Cannot read properties of undefined".

(** The URL argument of [goto]: a value that is not a string is rejected.
    The walk passes strings only. *)
Definition goto_type_error : string := "url: expected string, got object".

Definition goto_url (v : value) : outcome string :=
  match v with
  | VStr url => Ok url
  | VObj _ => Throw goto_type_error
  end.

(** [productHierarchy[product] = v]. *)
Definition assign1 (product : string) (v : value) : M unit :=
  λ st, (Ok tt,
         {| productHierarchy := obj_set product v (productHierarchy st);
            writes := writes st ++ [([product], v)] |}).

(** [productHierarchy[product][productSection][subSection] = v]. *)
Definition assign3 (product productSection subSection : string) (v : value) : M unit :=
  λ st, match obj_get product (productHierarchy st) with
        | Some (VObj sections) =>
            match obj_get productSection sections with
            | Some (VObj groups) =>
                (Ok tt,
                 {| productHierarchy :=
                      obj_set product
                        (VObj (obj_set productSection
                                 (VObj (obj_set subSection v groups)) sections))
                        (productHierarchy st);
                    writes := writes st ++ [([product; productSection; subSection], v)] |})
            | _ => (Throw undefined_access, st)
            end
        | _ => (Throw undefined_access, st)
        end.

(** [Object.keys(productHierarchy[product])]. *)
Definition keys_of_product (product : string) : M (list string) :=
  λ st, match obj_get product (productHierarchy st) with
        | Some (VObj sections) => (Ok (obj_keys sections), st)
        | _ => (Throw undefined_access, st)
        end.

(** [Object.entries(productHierarchy[product][productSection])]. *)
Definition entries_of_section (product productSection : string) : M (list (string * value)) :=
  λ st, match obj_get product (productHierarchy st) with
        | Some (VObj sections) =>
            match obj_get productSection sections with
            | Some (VObj groups) => (Ok (obj_entries groups), st)
            | _ => (Throw undefined_access, st)
            end
        | _ => (Throw undefined_access, st)
        end.

(** [productHierarchy = names], and the reads of [productHierarchy]. *)
Definition set_hierarchy (names : obj) : M unit :=
  λ st, (Ok tt, {| productHierarchy := names; writes := writes st |}).

Definition get_hierarchy : M obj := λ st, (Ok (productHierarchy st), st).

Definition entries_of_hierarchy : M (list (string * value)) :=
  λ st, (Ok (obj_entries (productHierarchy st)), st).

(** The body of the innermost loop: one Group. *)
Definition group_step (b : browser) (product productSection : string)
    (entry : string * value) : M unit :=
  let '(subSection, componentsUrl) := entry in
  let visit := br_group b product productSection subSection in
  try_catch
    (url ← lift (goto_url componentsUrl);
     await (gv_goto visit url);;
     let components := getComponentsAndData (gv_sections visit) in
     assign3 product productSection subSection (VObj components);;
     await (gv_goBack visit))
    (λ message,
       assign3 product productSection subSection (error_marker message)).

(** The body of the outer loop: one product, in a tab of its own. *)
Definition product_step (b : browser) (entry : string * value) : M unit :=
  let '(product, productPageUrl) := entry in
  let visit := br_product b product in
  await (pv_newPage visit);;
  try_finally
    (try_catch
       (url ← lift (goto_url productPageUrl);
        await (pv_goto visit url);;
        sections ← lift (evaluate (pv_rejection visit)
                           (getProductSectionsAndPageUrls (pv_sections visit)));
        assign1 product (VObj sections);;
        productSections ← keys_of_product product;
        for_each productSections (λ productSection,
          entries ← entries_of_section product productSection;
          for_each entries (group_step b product productSection)))
       (λ message, assign1 product (error_marker message)))
    (await (pv_close visit)).

(** [scrapeTailwindPlus(rootUrl, cookies, outputPath, DEBUG)]: [cookies] tells
    whether the argument is truthy. *)
Definition scrapeTailwindPlus (b : browser) (rootUrl : string) (cookies : bool) : M obj :=
  await (br_launch b);;
  try_finally
    (try_catch
       ((if cookies then await (br_addCookies b) else ret tt);;
        await (br_root_goto b rootUrl);;
        names ← lift (evaluate (br_root_rejection b)
                        (getProductNamesAndPageUrls (br_root_sections b)));
        set_hierarchy names;;
        await (br_root_close b);;
        entries ← entries_of_hierarchy;
        for_each entries (product_step b);;
        get_hierarchy)
       (λ message, throw message))
    (await (br_close b)).

(** A run from the start: the completion and the assignments made. *)
Definition run_scrape (b : browser) (rootUrl : string) (cookies : bool)
  : outcome obj * list (list string * value) :=
  let '(result, st) := scrapeTailwindPlus b rootUrl cookies (State [] []) in
  (result, writes st).

(** ** The entry point: [main] *)

Record options := Options {
  outputPath : string;
  cookiesPath : string;
  auth : bool;
  debug : bool;
  help : bool }.

(** What [main] finds outside the program. *)
Record environment := Environment {
  env_argv : list string;                        (* process.argv.slice(2) *)
  env_timestamp : string;                        (* of [new Date()], formatted *)
  env_dir_ok : string → bool;                    (* the directory of a path exists or can be made *)
  env_cookie_file : string → option (outcome bool);
      (* [None]: no such file; otherwise the reading and parsing of the file,
         and whether the value parsed is truthy *)
  env_login : string → outcome unit;             (* saveCookies(loginUrl, cookiePath) *)
  env_browser : browser;
  env_write : string → option string }.          (* writeFileSync, statSync *)

(** [arg.includes('=')]. *)
Fixpoint includes_eq (s : string) : bool :=
  match s with
  | EmptyString => false
  | String c s' => if decide (c = "="%char) then true else includes_eq s'
  end.

(** The text of [s] before the first ['='], and the rest after it. *)
Fixpoint cut_eq (s : string) : string * option string :=
  match s with
  | EmptyString => (EmptyString, None)
  | String c s' =>
      if decide (c = "="%char) then (EmptyString, Some s')
      else let '(before, after) := cut_eq s' in (String c before, after)
  end.

(** [arg.split('=', 2)] for an [arg] that has an ['=']: the limit keeps the
    first two pieces only. *)
Definition split_eq_2 (arg : string) : string * string :=
  let '(key, after) := cut_eq arg in
  (key, (cut_eq (default EmptyString after)).1).

(** [parseArgs(args)]. *)
Definition parseArgs (timestamp : string) (args : list string) : outcome options :=
  foldl (λ acc arg,
           match acc with
           | Ok opts =>
               if decide (arg = "--help") then
                 Ok (Options (outputPath opts) (cookiesPath opts) (auth opts) (debug opts) true)
               else if decide (arg = "--auth") then
                 Ok (Options (outputPath opts) (cookiesPath opts) true (debug opts) (help opts))
               else if decide (arg = "--debug") then
                 Ok (Options (outputPath opts) (cookiesPath opts) (auth opts) true (help opts))
               else if String.prefix "--" arg && includes_eq arg then
                 let '(key, value) := split_eq_2 arg in
                 if decide (key = "--output-path") then
                   Ok (Options value (cookiesPath opts) (auth opts) (debug opts) (help opts))
                 else if decide (key = "--cookies-path") then
                   Ok (Options (outputPath opts) value (auth opts) (debug opts) (help opts))
                 else Exit 1
               else Exit 1
           | stopped => stopped
           end)
        (Ok (Options ("./tailwindplus-components-" +:+ timestamp +:+ ".json")
                     "./cookies.json" false false false))
        args.

(** The test of [dangerousPatterns]: one of the characters [<], [>], [:],
    the double quote, [|], [?], [*], or a control character below 0x20. *)
Fixpoint dangerousPatterns (s : string) : bool :=
  match s with
  | EmptyString => false
  | String c s' =>
      (bool_decide (c ∈ ["<"; ">"; ":"; "034"; "|"; "?"; "*"]%char)
       || (nat_of_ascii c <? 32)%nat)
      || dangerousPatterns s'
  end.

(** [isValidFilePath(filePath)]; [env_dir_ok] stands for the [try] block on
    the directory of the path. *)
Definition isValidFilePath (env : environment) (filePath : string) : bool :=
  if decide (filePath = EmptyString) then false
  else if dangerousPatterns filePath then false
  else env_dir_ok env filePath.

Definition rootUrl : string := "https://tailwindcss.com/plus/ui-blocks".
Definition loginUrl : string := "https://tailwindcss.com/plus/login".

(** [validateInputs(options)]; the two constant URLs are valid. *)
Definition validateInputs (env : environment) (opts : options) : outcome unit :=
  if negb (isValidFilePath env (outputPath opts)) then Exit 1
  else if negb (isValidFilePath env (cookiesPath opts)) then Exit 1
  else Ok tt.

(** [handleAuthentication(options)]: whether the cookies returned are
    truthy. With [--auth] the directory of the cookie file is made and
    [saveCookies] is awaited, both inside [env_login]; otherwise
    [loadCookiesFromFile] reads the file. *)
Definition handleAuthentication (env : environment) (opts : options) : outcome bool :=
  if auth opts then
    match env_login env (cookiesPath opts) with
    | Ok _ => Ok true
    | Throw message => Throw message
    | Exit code => Exit code
    end
  else
    match env_cookie_file env (cookiesPath opts) with
    | None => Exit 1
    | Some (Ok false) => Exit 1
    | Some loaded => loaded
    end.

(** [processAndSaveResults(componentData, options)]. *)
Definition processAndSaveResults (env : environment) (componentData : obj)
    (opts : options) : outcome unit :=
  if bool_decide (length (obj_keys componentData) = 0%nat) then Exit 1
  else match env_write env (outputPath opts) with
       | None => Ok tt
       | Some message => Throw message
       end.

(** [main()]. *)
Definition main (env : environment) : outcome unit :=
  match parseArgs (env_timestamp env) (env_argv env) with
  | Ok opts =>
      if help opts then Ok tt
      else
        match validateInputs env opts with
        | Ok _ =>
            match handleAuthentication env opts with
            | Ok cookies =>
                match (run_scrape (env_browser env) rootUrl cookies).1 with
                | Ok componentData => processAndSaveResults env componentData opts
                | Throw message => Throw message
                | Exit code => Exit code
                end
            | Throw message => Throw message
            | Exit code => Exit code
            end
        | Throw message => Throw message
        | Exit code => Exit code
        end
  | Throw message => Throw message
  | Exit code => Exit code
  end.

(** The exit code of the process after [main().catch(console.error)]: the
    rejection is handled by logging it, and nothing sets an exit code. *)
Definition exit_code (env : environment) : Z :=
  match main env with
  | Ok _ => 0
  | Throw _ => 0
  | Exit code => code
  end.

(** * The diff tool: [tailwindplus-diff.sh]

    The two files hold the JSON text of two trees of the scraper: objects
    and strings. [jq] adds [null], the value of a member that is missing,
    written [None] below. *)

(** What the script takes from its surroundings: how [jq] prints an object
    (pretty-printed JSON text), the seconds [date +%s] prints while the
    component at a path is being compared, and the process identifier [$$]. *)
Record shell := Shell {
  jq_print_object : list (string * value) → string;
  date_seconds : list string → string;
  pid : string }.

Definition LF : ascii := "010"%char.
Definition TAB : ascii := "009"%char.
Definition NUL : ascii := "000"%char.

(** [jq]'s [.[$k]] on the result [v] of the filter so far: an error ([None])
    on a string, [null] on [null] and for a missing member. *)
Definition jq_index (v : option value) (k : string) : option (option value) :=
  match v with
  | None => Some None
  | Some (VObj members) => Some (obj_get k members)
  | Some (VStr _) => None
  end.

(** [jq '.[$a][$b]...' file] for the keys of [path]. *)
Definition jq_path (file : value) (path : list string) : option (option value) :=
  foldl (λ acc k, match acc with
                  | Some v => jq_index v k
                  | None => None
                  end)
        (Some (Some file)) path.

(** [jq]'s [keys]: the keys of an object, sorted, each once; an error on
    anything else. *)
Definition jq_keys (v : option value) : option (list string) :=
  match v with
  | Some (VObj members) => Some (array_sort (remove_dups (obj_keys members)))
  | _ => None
  end.

(** The text [jq -r] prints for a value: a string as it is, then a newline. *)
Definition jq_raw (sh : shell) (v : option value) : string :=
  match v with
  | None => "null"
  | Some (VStr s) => s
  | Some (VObj members) => jq_print_object sh members
  end +:+ String LF "".

(** Leading blanks removed, and blanks at both ends: what [read] does to a
    line with the default [IFS]. *)
Fixpoint trim_leading (s : string) : string :=
  match s with
  | String c s' => if bool_decide (c = " "%char ∨ c = TAB) then trim_leading s' else s
  | EmptyString => s
  end.

Definition trim_ifs (s : string) : string :=
  String.rev (trim_leading (String.rev (trim_leading s))).

(** The values [while read -r x] gives to [x] on the text [s], [cur] being
    the part of the current line already read: one per complete line. A
    variable of the shell holds no NUL byte: [read] drops those it meets. *)
Fixpoint read_lines (cur s : string) : list string :=
  match s with
  | EmptyString => []
  | String c s' =>
      if decide (c = LF) then trim_ifs cur :: read_lines EmptyString s'
      else if decide (c = NUL) then read_lines cur s'
      else read_lines (cur +:+ String c EmptyString) s'
  end.

(** What the script reports. *)
Inductive event : Type :=
| DiffWritten (path : list string) (safe_name : string)
    (* "DIFFERENCES FOUND!", and diffs/<safe_name>.diff is written *)
| OnlyInNew (path : list string)      (* "Component exists only in the NEW file." *)
| OnlyInOld (path : list string)      (* "Component exists only in the OLD file." *)
| FailedBoth (path : list string)     (* "Component extraction failed for both files." *)
| WarnOld (path : list string)        (* "Warning: Failed to extract component from old file" *)
| WarnNew (path : list string).       (* "Warning: Failed to extract component from new file" *)

(** *** The [safe_name] pipeline *)

(** The first set of the [tr] that maps to the underscore: space, slash,
    colon, star, question mark, double quote, angle brackets, bar, square
    brackets, dollar, backquote, backslash, newline, tab and hash. *)
Definition unsafe_char (c : ascii) : bool :=
  bool_decide (c ∈ [" "; "/"; ":"; "*"; "?"; "034"; "<"; ">"; "|"; "["; "]"; "$";
                    "`"; "\"; LF; TAB; "#"]%char).

(** [tr SET '_']. *)
Fixpoint tr_unsafe (s : string) : string :=
  match s with
  | EmptyString => EmptyString
  | String c s' => String (if unsafe_char c then "_"%char else c) (tr_unsafe s')
  end.

(** [tr -s '_']: a run of underscores becomes one. *)
Fixpoint squeeze (s : string) : string :=
  match s with
  | String c s' =>
      match s' with
      | String c' _ =>
          if bool_decide (c = "_"%char ∧ c' = "_"%char) then squeeze s'
          else String c (squeeze s')
      | EmptyString => s
      end
  | EmptyString => s
  end.

(** [sed 's/^[._]*//']. *)
Fixpoint strip_leading (s : string) : string :=
  match s with
  | String c s' => if bool_decide (c = "."%char ∨ c = "_"%char) then strip_leading s' else s
  | EmptyString => s
  end.

(** [cut -c1-200]. *)
Definition cut_200 (s : string) : string := String.substring 0 200 s.

(** ["${category}_${subcategory}_${group}_${component}"]. *)
Definition joined (category subcategory group component : string) : string :=
  category +:+ "_" +:+ subcategory +:+ "_" +:+ group +:+ "_" +:+ component.

Definition sanitize (s : string) : string :=
  cut_200 (strip_leading (squeeze (tr_unsafe s))).

(** The test [[ "$safe_name" =~ ^[._-]+$ ]]. *)
Fixpoint only_dots_and_dashes (s : string) : bool :=
  match s with
  | EmptyString => true
  | String c s' =>
      bool_decide (c = "."%char ∨ c = "_"%char ∨ c = "-"%char) && only_dots_and_dashes s'
  end.

Definition needs_fallback (name : string) : bool :=
  bool_decide (name = EmptyString) || only_dots_and_dashes name.

(** The value of [safe_name] after the validation. *)
Definition safe_name (sh : shell) (category subcategory group component : string) : string :=
  let name := sanitize (joined category subcategory group component) in
  if needs_fallback name then
    "component_" +:+ date_seconds sh [category; subcategory; group; component]
      +:+ "_" +:+ pid sh
  else name.

(** *** The comparison of one component *)

(** [[ -s file ]] on a file holding [text]. *)
Definition has_content (text : string) : bool := negb (bool_decide (text = EmptyString)).

(** The body of the innermost loop. The text of a temporary file is that of
    the last [jq] redirected to it; a failing [jq] skips the component. *)
Definition compare_component (sh : shell) (old new : value)
    (category subcategory group component : string) : list event :=
  let path := [category; subcategory; group; component] in
  match jq_path old path with
  | None => [WarnOld path]
  | Some v1 =>
      let temp1 := jq_raw sh v1 in
      match jq_path new path with
      | None => [WarnNew path]
      | Some v2 =>
          let temp2 := jq_raw sh v2 in
          if has_content temp1 && has_content temp2 then
            if bool_decide (temp1 = temp2) then []
            else [DiffWritten path (safe_name sh category subcategory group component)]
          else if negb (has_content temp1) && has_content temp2 then [OnlyInNew path]
          else if has_content temp1 && negb (has_content temp2) then [OnlyInOld path]
          else [FailedBoth path]
      end
  end.

(** *** The loops

    A run of the script: what it has reported, and whether it reached its
    end. With [errexit] and [pipefail] a [jq] that fails at the head of a
    pipeline ends the script. *)
Definition run := (list event * bool)%type.

(** [while read -r x; do body; done] on the lines read. *)
Fixpoint while_read (items : list string) (body : string → run) : run :=
  match items with
  | [] => ([], true)
  | x :: items' =>
      let '(events, completed) := body x in
      if completed then
        let '(events', completed') := while_read items' body in
        (events ++ events', completed')
      else (events, false)
  end.

(** [jq -r '<path> | keys[]' "$NEW_FILE" | while read -r x; do body; done]. *)
Definition jq_keys_loop (new : value) (path : list string) (body : string → run) : run :=
  match jq_path new path with
  | Some v =>
      match jq_keys v with
      | Some keys =>
          while_read
            (read_lines EmptyString
               (foldr (λ k text, k +:+ String LF text) EmptyString keys))
            body
      | None => ([], false)
      end
  | None => ([], false)
  end.

(** The four nested loops of the script. *)
Definition tailwindplus_diff (sh : shell) (old new : value) : run :=
  jq_keys_loop new [] (λ category,
    jq_keys_loop new [category] (λ subcategory,
      jq_keys_loop new [category; subcategory] (λ group,
        jq_keys_loop new [category; subcategory; group] (λ component,
          (compare_component sh old new category subcategory group component, true))))).


(** ** The default output path of [parseArgs]

    [now.toISOString()] is taken as it is given: the text of the date and
    the time in the format of ECMAScript. *)

(** [s.replace(/:/g, '')]. *)
Fixpoint remove_colons (s : string) : string :=
  match s with
  | EmptyString => EmptyString
  | String c s' =>
      if decide (c = ":"%char) then remove_colons s' else String c (remove_colons s')
  end.

(** [s.replace('T', '-')]: the first occurrence alone is replaced. *)
Fixpoint replace_first_T (s : string) : string :=
  match s with
  | EmptyString => EmptyString
  | String c s' =>
      if decide (c = "T"%char) then String "-"%char s' else String c (replace_first_T s')
  end.

(** [now.toISOString().slice(0, 19).replace(/:/g, '').replace('T', '-')],
    [iso] being [now.toISOString()]. *)
Definition timestamp (iso : string) : string :=
  replace_first_T (remove_colons (String.substring 0 19 iso)).

Definition defaultOutputPath (iso : string) : string :=
  "./tailwindplus-components-" +:+ timestamp iso +:+ ".json".

(** ** Reference definitions used by the statements

    The longest common prefix of two strings, by structural recursion: the
    reference against which the index loop of [findUrlBasePath] is checked. *)
Fixpoint lcp (a b : string) : string :=
  match a, b with
  | String x a', String y b' =>
      if decide (x = y) then String x (lcp a' b') else ""
  | _, _ => ""
  end.

(** A run of link/label pairs in document order, the link first, and the
    same pairs with the label first. *)
Definition link_then_label (pairs : list (string * string)) : list element :=
  flat_map (λ '(name, url), [ElemA url; ElemP name]) pairs.

Definition label_then_link (pairs : list (string * string)) : list element :=
  flat_map (λ '(name, url), [ElemP name; ElemA url]) pairs.

(** The object with one property per pair, set in order. *)
Definition obj_of_pairs (pairs : list (string * string)) : obj :=
  foldl (λ o '(name, text), obj_set name (VStr text) o) [] pairs.

(** The zip of a label-first run: every label is a key whose value is the
    link that follows it. *)
Definition zips_label_first (pairs : list (string * string)) : Prop :=
  ∀ name url, (name, url) ∈ pairs →
    obj_get name (productSectionToNamesAndPageUrls (label_then_link pairs))
    = Some (VStr url).

(** A component section on which the reveal and the reads succeed. *)
Definition good_section (name code : string) : component_section :=
  ComponentSection true (Some name) (Some code).


(** The extraction of a section fails. *)
Definition section_fails (section : component_section) : Prop :=
  ∃ message, componentSectionToNameAndData section = Throw message.

(** The object whose properties are those of [o], in the same order, each
    value [v] under key [k] replaced by [f k v]. *)
Definition obj_map (f : string → value → value) (o : obj) : obj :=
  map (λ '(k, v), (k, f k v)) o.

(** The nodes of a tree two and three levels below the root. *)
Definition get2 (tree : obj) (product productSection : string) : option value :=
  match obj_get product tree with
  | Some (VObj sections) => obj_get productSection sections
  | _ => None
  end.

Definition get3 (tree : obj) (product productSection subSection : string) : option value :=
  match get2 tree product productSection with
  | Some (VObj groups) => obj_get subSection groups
  | _ => None
  end.

(** What the walk leaves at a Group node whose placeholder is
    [componentsUrl], as a function of the visit of that Group alone. *)
Definition group_node (visit : group_visit) (componentsUrl : value) : value :=
  match componentsUrl with
  | VStr url =>
      match gv_goto visit url with
      | Some message => error_marker message
      | None =>
          match gv_goBack visit with
          | Some message => error_marker message
          | None => VObj (getComponentsAndData (gv_sections visit))
          end
      end
  | VObj _ => error_marker goto_type_error
  end.

Definition expand_groups (b : browser) (product productSection : string) (groups : obj) : obj :=
  obj_map (λ subSection componentsUrl,
             group_node (br_group b product productSection subSection) componentsUrl)
          groups.

Definition expand_sections (b : browser) (product : string) (sections : obj) : obj :=
  obj_map (λ productSection v,
             match v with
             | VObj groups => VObj (expand_groups b product productSection groups)
             | VStr _ => v
             end)
          sections.

(** What the walk leaves at the node of a product. The extractor does not
    exit the process: the last branch is not reached. *)
Definition product_node (b : browser) (product : string) (productPageUrl : value) : value :=
  match productPageUrl with
  | VStr url =>
      match pv_goto (br_product b product) url with
      | Some message => error_marker message
      | None =>
          match getProductSectionsAndPageUrls (pv_sections (br_product b product)) with
          | Ok sections => VObj (expand_sections b product sections)
          | Throw message =>
              error_marker (pv_rejection (br_product b product) message)
          | Exit _ => productPageUrl
          end
      end
  | VObj _ => error_marker goto_type_error
  end.

(** The URL placeholder the page of a product gives for one of its Groups,
    before the Group is visited. *)
Definition placeholder (b : browser) (product productSection subSection : string)
  : option value :=
  match getProductSectionsAndPageUrls (pv_sections (br_product b product)) with
  | Ok sections =>
      match obj_get productSection sections with
      | Some (VObj groups) => obj_get subSection groups
      | _ => None
      end
  | _ => None
  end.

(** The steps a run needs to complete, [names] being the products found on
    the root page: the visits of the Groups are not among them. *)
Definition run_conditions (b : browser) (rootUrl : string) (cookies : bool)
    (names : obj) : Prop :=
  br_launch b = None
  ∧ (if cookies then br_addCookies b else None) = None
  ∧ br_root_goto b rootUrl = None
  ∧ getProductNamesAndPageUrls (br_root_sections b) = Ok names
  ∧ br_root_close b = None
  ∧ Forall (λ kv, pv_newPage (br_product b kv.1) = None
                  ∧ pv_close (br_product b kv.1) = None) names
  ∧ br_close b = None.

(** Two browsers that answer alike at every step, the visit of one Group
    apart: the second is the first with a different outcome injected at that
    Group. *)
Definition same_except_group (b b' : browser) (product productSection subSection : string) : Prop :=
  br_launch b' = br_launch b
  ∧ br_addCookies b' = br_addCookies b
  ∧ br_root_goto b' = br_root_goto b
  ∧ br_root_sections b' = br_root_sections b
  ∧ br_root_close b' = br_root_close b
  ∧ br_product b' = br_product b
  ∧ br_close b' = br_close b
  ∧ ∀ p s g, (p, s, g) ≠ (product, productSection, subSection) →
             br_group b' p s g = br_group b p s g.

(** The Group-level claim on one run: whenever the navigation or the
    extraction of a Group fails, its node is an error marker. *)
Definition group_failure_marked (b : browser) (rootUrl : string) (cookies : bool) : Prop :=
  ∀ tree ws product productSection subSection,
    run_scrape b rootUrl cookies = (Ok tree, ws) →
    is_Some (get3 tree product productSection subSection) →
    ((∃ message, ∀ url,
        gv_goto (br_group b product productSection subSection) url = Some message)
     ∨ Exists section_fails (gv_sections (br_group b product productSection subSection))) →
    ∃ message,
      get3 tree product productSection subSection = Some (error_marker message).

(** An object of objects of strings, with unique keys at both levels: the
    shape of the Sections of a product before the Groups are visited. *)
Definition groups_wf (groups : obj) : Prop :=
  NoDup (obj_keys groups) ∧ Forall (λ kv, ∃ url, kv.2 = VStr url) groups.

Definition sections_wf (sections : obj) : Prop :=
  NoDup (obj_keys sections)
  ∧ Forall (λ kv, ∃ groups, kv.2 = VObj groups ∧ groups_wf groups) sections.

(** A small site used to run the walk: two products with one Section of two
    Groups each. The visit of the Group Marketing / Heroes / Hero B is a
    parameter. *)
Definition demo_page : list component_section :=
  [good_section "Simple" "<div>1</div>"; good_section "Split" "<div>2</div>"].

Definition demo_visit : group_visit := GroupVisit (λ _, None) demo_page None.

Definition demo_browser (hero_b : group_visit) : browser :=
  {| br_launch := None;
     br_addCookies := None;
     br_root_goto := λ _, None;
     br_root_sections :=
       [RootSection (Some "Marketing") ["https://t/marketing/a"; "https://t/marketing/b"];
        RootSection (Some "Ecommerce") ["https://t/ecommerce/a"]];
     br_root_rejection := λ message, "page.evaluate: " +:+ message;
     br_root_close := None;
     br_product := λ _,
       ProductVisit None (λ _, None)
         [ProductSection (Some "Heroes")
            [ElemA "https://t/hero-a"; ElemP "Hero A";
             ElemA "https://t/hero-b"; ElemP "Hero B"]]
         (λ message, "page.evaluate: " +:+ message)
         None;
     br_group := λ p s g,
       if decide ((p, s, g) = ("Marketing", "Heroes", "Hero B")) then hero_b
       else demo_visit;
     br_close := None |}.

(** The assignments of a run made at one path. *)
Definition writes_at (path : list string) (ws : list (list string * value))
  : list (list string * value) :=
  filter (λ w, w.1 = path) ws.

(** The single-mutation claim on one run: no Group node is assigned more
    than once. *)
Definition single_mutation (b : browser) (rootUrl : string) (cookies : bool) : Prop :=
  ∀ product productSection subSection,
    (length (writes_at [product; productSection; subSection]
               (run_scrape b rootUrl cookies).2) ≤ 1)%nat.

(** The tree of a run on the small site, empty when the run does not
    complete. *)
Definition demo_tree (hero_b : group_visit) : obj :=
  match (run_scrape (demo_browser hero_b) rootUrl true).1 with
  | Ok tree => tree
  | _ => []
  end.

(** Visits of the Group Hero B that fail: at [goto], in the extraction (the
    second block has no code button), at [goBack]. *)
Definition goto_fails : group_visit :=
  GroupVisit (λ _, Some "page.goto: Timeout 30000ms exceeded.") demo_page None.

Definition extraction_fails : group_visit :=
  GroupVisit (λ _, None)
    [good_section "Simple" "<div>1</div>";
     ComponentSection false (Some "Split") (Some "<div>2</div>")]
    None.

Definition goBack_fails : group_visit :=
  GroupVisit (λ _, None) demo_page (Some "page.goBack: Timeout 15000ms exceeded.").

(** An environment in which everything but the browser works: no argument,
    a cookie file that parses to a non-empty array. *)
Definition demo_environment (b : browser) : environment :=
  {| env_argv := [];
     env_timestamp := "2025-01-01-000000";
     env_dir_ok := λ _, true;
     env_cookie_file := λ _, Some (Ok true);
     env_login := λ _, Ok tt;
     env_browser := b;
     env_write := λ _, None |}.

(** The small site with a root page that does not load. *)
Definition root_unreachable : browser :=
  {| br_launch := None;
     br_addCookies := None;
     br_root_goto := λ _, Some "page.goto: net::ERR_NAME_NOT_RESOLVED";
     br_root_sections := br_root_sections (demo_browser demo_visit);
     br_root_rejection := br_root_rejection (demo_browser demo_visit);
     br_root_close := None;
     br_product := br_product (demo_browser demo_visit);
     br_group := br_group (demo_browser demo_visit);
     br_close := None |}.

(** The fatal-failure claim on one environment: if the run reaches the
    first navigation and it fails, the exit code is not zero. *)
Definition root_failure_fatal (env : environment) : Prop :=
  ∀ opts cookies message,
    parseArgs (env_timestamp env) (env_argv env) = Ok opts →
    help opts = false →
    validateInputs env opts = Ok tt →
    handleAuthentication env opts = Ok cookies →
    br_launch (env_browser env) = None →
    (if cookies then br_addCookies (env_browser env) else None) = None →
    br_root_goto (env_browser env) rootUrl = Some message →
    exit_code env ≠ 0%Z.

(** ** The diff tool *)

(** The records of a run: a diff written for a component stands for
    Modified, the two "exists only in" reports for Added and Removed. *)
Definition is_record (e : event) : bool :=
  match e with
  | DiffWritten _ _ | OnlyInNew _ | OnlyInOld _ => true
  | _ => false
  end.

Definition records (r : run) : list event := List.filter is_record r.1.

(** The leaf of a tree at a path of four keys. *)
Definition leaf (tree : value) (path : list string) : option string :=
  match jq_path tree path with
  | Some (Some (VStr content)) => Some content
  | _ => None
  end.

(** The part of completeness on leaves present in one tree only: a leaf of
    the old tree alone is reported as removed, a leaf of the new tree alone as
    added. *)
Definition reports_removed_and_added (sh : shell) (old new : value) : Prop :=
  ∀ category subcategory group component,
    let path := [category; subcategory; group; component] in
    (is_Some (leaf old path) → leaf new path = None →
       OnlyInOld path ∈ (tailwindplus_diff sh old new).1)
    ∧ (leaf old path = None → is_Some (leaf new path) →
       OnlyInNew path ∈ (tailwindplus_diff sh old new).1).

(** A tree with one Category, Section and Group, holding the components
    given. *)
Definition one_group (components : list (string * string)) : value :=
  VObj [("A", VObj [("S", VObj [("G", VObj (obj_of_pairs components))])])].

(** A node path: category, subcategory, group and component. *)
Definition node_path : Type := string * string * string * string.

Definition identifier (sh : shell) (p : node_path) : string :=
  let '(category, subcategory, group, component) := p in
  safe_name sh category subcategory group component.

(** The path falls into the fallback case of the validation. *)
Definition in_fallback (p : node_path) : bool :=
  let '(category, subcategory, group, component) := p in
  needs_fallback (sanitize (joined category subcategory group component)).

(** The injectivity claim: outside the fallback case, distinct paths have
    distinct identifiers. *)
Definition sanitized_injective : Prop :=
  ∀ sh p q, p ≠ q → in_fallback p = false → in_fallback q = false →
            identifier sh p ≠ identifier sh q.

(** Every character of [s] passes the test [P]. *)
Fixpoint all_chars (P : ascii → bool) (s : string) : bool :=
  match s with
  | EmptyString => true
  | String c s' => P c && all_chars P s'
  end.

(** A character the pipeline leaves alone and that is not the separator. *)
Definition plain_char (c : ascii) : bool :=
  negb (unsafe_char c) && negb (bool_decide (c = "_"%char)).

(** A component that is not empty and made of plain characters. *)
Definition plain (s : string) : Prop :=
  s ≠ EmptyString ∧ all_chars plain_char s = true.

(** A path the pipeline does not change: plain components, no dot at the
    start, at most 200 characters once joined. *)
Definition plain_path (p : node_path) : Prop :=
  let '(category, subcategory, group, component) := p in
  plain category ∧ plain subcategory ∧ plain group ∧ plain component
  ∧ String.prefix "." category = false
  ∧ (String.length (joined category subcategory group component) ≤ 200)%nat.

(** No two underscores in a row. *)
Fixpoint no_double (s : string) : bool :=
  match s with
  | String c s' =>
      match s' with
      | String c' _ => negb (bool_decide (c = "_"%char ∧ c' = "_"%char)) && no_double s'
      | EmptyString => true
      end
  | EmptyString => true
  end.

(** The text starts with a plain character. *)
Definition starts_plain (s : string) : Prop :=
  ∃ c s', s = String c s' ∧ plain_char c = true.

(** ** Further reference definitions: the diff tool *)

(** The text [jq -r '... | keys[]'] prints: one key per line. *)
Definition printed_keys (keys : list string) : string :=
  foldr (λ k text, k +:+ String LF text) EmptyString keys.

(** A character that [read] keeps inside a line: neither the newline that
    ends the line nor a NUL byte, which it drops. *)
Definition line_char (c : ascii) : bool :=
  negb (bool_decide (c = LF)) && negb (bool_decide (c = NUL)).

(** A key that [read] gives back as it is: no newline and no NUL byte in it,
    no blank at either end. *)
Definition clean_key (k : string) : Prop :=
  all_chars line_char k = true ∧ trim_ifs k = k.

(** The keys of an object as [jq] lists them. *)
Definition sorted_keys (members : obj) : list string :=
  array_sort (remove_dups (obj_keys members)).

(** An object whose keys are clean and whose values satisfy [P]. *)
Definition clean_object (P : value → Prop) (v : value) : Prop :=
  ∃ members, v = VObj members ∧ Forall (λ kv, clean_key kv.1 ∧ P kv.2) members.

(** A file with four levels of objects under clean keys: categories,
    subcategories, groups and components. *)
Definition catalog_wf (file : value) : Prop :=
  clean_object (clean_object (clean_object (clean_object (λ _, True)))) file.

(** The members of the object at a path, none when there is no object. *)
Definition members_at (file : value) (path : list string) : obj :=
  match jq_path file path with
  | Some (Some (VObj members)) => members
  | _ => []
  end.

(** The comparisons of every component of the new file, in the order of the
    sorted keys of each level. *)
Definition compare_all (sh : shell) (old new : value) : list event :=
  category ← sorted_keys (members_at new []);
  subcategory ← sorted_keys (members_at new [category]);
  group ← sorted_keys (members_at new [category; subcategory]);
  component ← sorted_keys (members_at new [category; subcategory; group]);
  compare_component sh old new category subcategory group component.

(** The path an event is about. *)
Definition event_path (e : event) : list string :=
  match e with
  | DiffWritten path _ | OnlyInNew path | OnlyInOld path
  | FailedBoth path | WarnOld path | WarnNew path => path
  end.

(** ** Further reference definitions: the extractors *)

(** The text the extractor of a product section takes from an element. *)
Definition element_text (e : element) : string :=
  match e with
  | ElemA href => href
  | ElemP textContent => textContent
  end.

(** The elements of a list taken two by two, the second of each pair first;
    an element left alone at the end is dropped. *)
Fixpoint adjacent_pairs (texts : list string) : list (string * string) :=
  match texts with
  | first :: second :: rest => (second, first) :: adjacent_pairs rest
  | _ => []
  end.

(** The text paired with the last occurrence of [name]. *)
Fixpoint lookup_last (name : string) (pairs : list (string * string)) : option string :=
  match pairs with
  | [] => None
  | (n, text) :: rest =>
      match lookup_last name rest with
      | Some later => Some later
      | None => if decide (n = name) then Some text else None
      end
  end.

(** The sections of a root page and of a product page that have the given
    headings. *)
Definition root_sections_of (entries : list (string * list string)) : list root_section :=
  map (λ '(name, links), RootSection (Some name) links) entries.

Definition product_sections_of (entries : list (string * list element)) : list product_section :=
  map (λ '(name, items), ProductSection (Some name) items) entries.


(** ** Further reference definitions: the walk *)

(** Two browsers that answer alike at every step outside the pages of one
    product: its tab and the visits of its Groups. *)
Definition same_except_product (b b' : browser) (product : string) : Prop :=
  br_launch b' = br_launch b
  ∧ br_addCookies b' = br_addCookies b
  ∧ br_root_goto b' = br_root_goto b
  ∧ br_root_sections b' = br_root_sections b
  ∧ br_root_rejection b' = br_root_rejection b
  ∧ br_root_close b' = br_root_close b
  ∧ br_close b' = br_close b
  ∧ ∀ p, p ≠ product →
         br_product b' p = br_product b p
         ∧ ∀ s g, br_group b' p s g = br_group b p s g.

(** A site whose names are clean keys: the headings of the root page, of
    the product pages and of the component blocks, and the texts of the
    items of the product pages. *)
Definition clean_site (b : browser) : Prop :=
  Forall (λ s, ∀ name, rs_h2 s = Some name → clean_key name) (br_root_sections b)
  ∧ (∀ p, Forall (λ s, (∀ name, ps_h3 s = Some name → clean_key name)
                       ∧ Forall (λ e, clean_key (element_text e)) (ps_items s))
                 (pv_sections (br_product b p)))
  ∧ (∀ p s g, Forall (λ c, ∀ name, cs_h2 c = Some name → clean_key name)
                     (gv_sections (br_group b p s g))).

(** The page of every product loads at the URL the root page gives for it,
    and every section of it has its heading. *)
Definition products_load (b : browser) : Prop :=
  ∀ names p url,
    getProductNamesAndPageUrls (br_root_sections b) = Ok names →
    obj_get p names = Some (VStr url) →
    pv_goto (br_product b p) url = None
    ∧ Forall (λ s, is_Some (ps_h3 s)) (pv_sections (br_product b p)).

(** The small site with a product page that does not load. *)
Definition marketing_unreachable : browser :=
  {| br_launch := None;
     br_addCookies := None;
     br_root_goto := λ _, None;
     br_root_sections := br_root_sections (demo_browser demo_visit);
     br_root_rejection := br_root_rejection (demo_browser demo_visit);
     br_root_close := None;
     br_product := λ p,
       if decide (p = "Marketing") then
         ProductVisit None (λ _, Some "page.goto: Timeout 30000ms exceeded.") []
                      (λ message, message) None
       else br_product (demo_browser demo_visit) p;
     br_group := br_group (demo_browser demo_visit);
     br_close := None |}.

(** ** Further reference definitions: the entry point *)

(** An argument [parseArgs] accepts: one of the three flags, or one of the
    two options with a value. *)
Definition recognised (arg : string) : bool :=
  bool_decide (arg ∈ ["--help"; "--auth"; "--debug"])
  || (String.prefix "--" arg && includes_eq arg
      && bool_decide ((split_eq_2 arg).1 ∈ ["--output-path"; "--cookies-path"])).

(** A decimal digit, and a text of [n] digits. *)
Definition is_digit (c : ascii) : bool :=
  bool_decide (c ∈ ["0"; "1"; "2"; "3"; "4"; "5"; "6"; "7"; "8"; "9"]%char).

Definition digits (n : nat) (s : string) : Prop :=
  String.length s = n ∧ all_chars is_digit s = true.

(** A character of the text of a date: a digit, a sign, or one of the
    separators of the format. *)
Definition iso_char (c : ascii) : bool :=
  is_digit c || bool_decide (c ∈ ["-"; ":"; "T"; "."; "Z"; "+"]%char).

(** The runs of [main] that end with [process.exit(1)]: an argument that is
    not recognised; or, without [--help], a path that is not valid, no
    cookies to load, or a root page without products. *)
Definition exits_with_1 (env : environment) : Prop :=
  Exists (λ a, recognised a = false) (env_argv env)
  ∨ ∃ opts,
      parseArgs (env_timestamp env) (env_argv env) = Ok opts
      ∧ help opts = false
      ∧ (isValidFilePath env (outputPath opts) = false
         ∨ isValidFilePath env (cookiesPath opts) = false
         ∨ (auth opts = false
            ∧ (env_cookie_file env (cookiesPath opts) = None
               ∨ env_cookie_file env (cookiesPath opts) = Some (Ok false)))
         ∨ ∃ cookies,
             handleAuthentication env opts = Ok cookies
             ∧ run_conditions (env_browser env) rootUrl cookies []).

(** ** Further reference definitions: the assignments of a run *)

(** The assignments the visit of one Group makes at [path]: the error marker
    when [goto] fails; otherwise the mapping, followed by the error marker
    when [goBack] fails. *)
Definition group_writes (visit : group_visit) (path : list string)
    (componentsUrl : value) : list (list string * value) :=
  match componentsUrl with
  | VStr url =>
      match gv_goto visit url with
      | Some message => [(path, error_marker message)]
      | None =>
          (path, VObj (getComponentsAndData (gv_sections visit)))
          :: match gv_goBack visit with
             | Some message => [(path, error_marker message)]
             | None => []
             end
      end
  | VObj _ => [(path, error_marker goto_type_error)]
  end.

Definition section_writes (b : browser) (product : string) (sections : obj)
  : list (list string * value) :=
  sections ≫= λ '(productSection, v),
    match v with
    | VObj groups =>
        groups ≫= λ '(subSection, componentsUrl),
          group_writes (br_group b product productSection subSection)
                       [product; productSection; subSection] componentsUrl
    | VStr _ => []
    end.

(** The assignments made while one product is processed: its Sections as
    the product page lists them, then the visits of the Groups; or the error
    marker alone. *)
Definition product_writes (b : browser) (entry : string * value)
  : list (list string * value) :=
  let '(product, productPageUrl) := entry in
  match productPageUrl with
  | VStr url =>
      match pv_goto (br_product b product) url with
      | Some message => [([product], error_marker message)]
      | None =>
          match getProductSectionsAndPageUrls (pv_sections (br_product b product)) with
          | Ok sections => ([product], VObj sections) :: section_writes b product sections
          | Throw message =>
              [([product], error_marker (pv_rejection (br_product b product) message))]
          | Exit _ => []
          end
      end
  | VObj _ => [([product], error_marker goto_type_error)]
  end.
(** * Properties *)

(** ** UrlPrefixResolver *)

Section UrlPrefix.

Import JsString.

Example findUrlBasePath_marketing :
  findUrlBasePath
    [ "https://tailwindcss.com/plus/ui-blocks/marketing/sections/heroes";
      "https://tailwindcss.com/plus/ui-blocks/marketing/elements/headers";
      "https://tailwindcss.com/plus/ui-blocks/marketing/sections/cta-sections" ]
  = "https://tailwindcss.com/plus/ui-blocks/marketing/".
Proof. vm_compute. reflexivity. Qed.

Lemma is_prefix_nil s : is_prefix "" s.
Proof. by exists s. Qed.

Lemma string_app_cons c (s t : string) : String c s +:+ t = String c (s +:+ t).
Proof. reflexivity. Qed.

Lemma string_app_nil_r (s : string) : s +:+ "" = s.
Proof. induction s as [|c s IH]; [done|]. by rewrite string_app_cons, IH. Qed.

Lemma string_app_assoc (s t u : string) : (s +:+ t) +:+ u = s +:+ (t +:+ u).
Proof. induction s as [|c s IH]; [done|]. by rewrite !string_app_cons, IH. Qed.

Lemma is_prefix_refl s : is_prefix s s.
Proof. exists "". by rewrite string_app_nil_r. Qed.

Lemma is_prefix_cons c p s : is_prefix (String c p) (String c s) ↔ is_prefix p s.
Proof.
  split; intros [t Ht]; exists t.
  - rewrite string_app_cons in Ht. by injection Ht.
  - by rewrite string_app_cons, Ht.
Qed.

Lemma is_prefix_cons_inv c p s :
  is_prefix (String c p) s → ∃ s', s = String c s' ∧ is_prefix p s'.
Proof. intros [t ->]. exists (p +:+ t). split; [done|]. by exists t. Qed.

Lemma is_prefix_trans p q s : is_prefix p q → is_prefix q s → is_prefix p s.
Proof.
  intros [t ->] [t' ->]. exists (t +:+ t'). apply string_app_assoc.
Qed.

Lemma lcp_prefix_l a b : is_prefix (lcp a b) a.
Proof.
  revert b. induction a as [|x a IH]; intros [|y b]; simpl;
    try apply is_prefix_nil.
  case_decide; [|apply is_prefix_nil]. by apply is_prefix_cons.
Qed.

Lemma lcp_prefix_r a b : is_prefix (lcp a b) b.
Proof.
  revert b. induction a as [|x a IH]; intros [|y b]; simpl;
    try apply is_prefix_nil.
  case_decide as E; [|apply is_prefix_nil]. subst. by apply is_prefix_cons.
Qed.

Lemma lcp_greatest p a b : is_prefix p a → is_prefix p b → is_prefix p (lcp a b).
Proof.
  revert a b. induction p as [|c p IH]; intros a b Ha Hb; [apply is_prefix_nil|].
  apply is_prefix_cons_inv in Ha as (a' & -> & Ha).
  apply is_prefix_cons_inv in Hb as (b' & -> & Hb).
  simpl. rewrite decide_True by done. apply is_prefix_cons. by apply IH.
Qed.

Lemma lcp_refl a : lcp a a = a.
Proof. induction a as [|x a IH]; simpl; [done|]. by rewrite decide_True, IH. Qed.

(** Every string between [a] and [b] in the lexicographic order starts with
    the longest common prefix of [a] and [b]. *)
Lemma lcp_between a b x :
  String.le a x → String.le x b → is_prefix (lcp a b) x.
Proof.
  unfold String.le, String.leb.
  revert b x. induction a as [|c a IH]; intros [|d b] [|e x]; simpl;
    try (intros; apply is_prefix_nil).
  - intros H; by destruct H.
  - case_decide as E; [subst d|intros; apply is_prefix_nil].
    destruct (Ascii.compare c e) eqn:Hce; [|intros _|intros []].
    + apply Ascii.compare_eq_iff in Hce as <-.
      assert (Ascii.compare c c = Eq) as ->
        by (unfold Ascii.compare; apply N.compare_refl).
      intros ??. apply is_prefix_cons. by apply IH.
    + rewrite Ascii.compare_antisym, Hce. simpl. intros [].
Qed.

Lemma string_length_app (s t : string) :
  String.length (s +:+ t) = (String.length s + String.length t)%nat.
Proof. induction s as [|c s IH]; [done|]. rewrite string_app_cons. simpl. by rewrite IH. Qed.

Lemma at_index_app_r (p s : string) :
  at_index (p +:+ s) (String.length p) = at_index s 0.
Proof. induction p as [|c p IH]; [done|]. by rewrite string_app_cons. Qed.

Lemma string_app_snoc (p : string) c (s : string) :
  p +:+ String c s = (p +:+ String c "") +:+ s.
Proof. by rewrite string_app_assoc. Qed.

(** The loop started at index [length p] on two strings that agree on [p]
    stops after the longest common prefix of the two remainders. *)
Lemma common_prefix_loop_spec fuel (p a b : string) :
  (String.length a < fuel)%nat →
  common_prefix_loop fuel (p +:+ a) (p +:+ b) (String.length p)
  = (String.length p + String.length (lcp a b))%nat.
Proof.
  revert p a b. induction fuel as [|fuel IH]; intros p a b Hfuel; [lia|].
  simpl. rewrite !at_index_app_r, !string_length_app.
  destruct a as [|x a]; simpl.
  { replace (_ <? _)%nat with false by (symmetry; apply Nat.ltb_ge; lia).
    simpl. lia. }
  destruct b as [|y b]; simpl.
  { replace (String.length p <? String.length p + 0)%nat with false
      by (symmetry; apply Nat.ltb_ge; lia).
    rewrite andb_false_r. simpl. lia. }
  replace (_ <? _)%nat with true by (symmetry; apply Nat.ltb_lt; lia).
  replace (String.length p <? String.length p + S (String.length b))%nat
    with true by (symmetry; apply Nat.ltb_lt; lia).
  unfold strict_eq. simpl. case_decide as E.
  - rewrite bool_decide_true by congruence. subst y.
    rewrite (string_app_snoc p x a), (string_app_snoc p x b).
    replace (S (String.length p)) with (String.length (p +:+ String x ""))
      by (rewrite string_length_app; simpl; lia).
    rewrite IH by (simpl in Hfuel; lia).
    rewrite string_length_app. simpl. lia.
  - rewrite bool_decide_false by congruence. simpl. lia.
Qed.

Lemma substring0_lcp a b : substring0 a (String.length (lcp a b)) = lcp a b.
Proof.
  unfold substring0. revert b. induction a as [|x a IH]; intros [|y b]; simpl; try done.
  case_decide; simpl; [|done]. by rewrite IH.
Qed.

Lemma common_prefix_loop_lcp first last :
  substring0 first (common_prefix_loop (S (String.length first)) first last 0)
  = lcp first last.
Proof.
  pose proof (common_prefix_loop_spec (S (String.length first)) "" first last) as H.
  change ("" +:+ first) with first in H. change ("" +:+ last) with last in H.
  change (String.length "") with 0%nat in H.
  rewrite H by lia. apply substring0_lcp.
Qed.

(** The two ends of the sorted array bound every element. *)
Lemma array_sort_ends (urls : list string) :
  urls ≠ [] →
  ∃ lo hi, head (array_sort urls) = Some lo ∧ last (array_sort urls) = Some hi
           ∧ lo ∈ urls ∧ hi ∈ urls
           ∧ ∀ u, u ∈ urls → String.le lo u ∧ String.le u hi.
Proof.
  intros Hne. unfold array_sort.
  pose proof (merge_sort_Permutation String.le urls) as Hperm.
  pose proof (StronglySorted_merge_sort String.le urls) as Hsorted.
  destruct (merge_sort String.le urls) as [|lo l] eqn:Hs.
  { apply Permutation_nil_l in Hperm. congruence. }
  destruct (last (lo :: l)) as [hi|] eqn:Hlast;
    [|by apply last_None in Hlast].
  exists lo, hi. split_and!; [done|done|..].
  - rewrite <- Hperm. by left.
  - rewrite <- Hperm. apply last_Some_elem_of, Hlast.
  - intros u Hu. rewrite <- Hperm in Hu.
    apply last_Some in Hlast as [l' Hl']. split.
    + apply StronglySorted_cons in Hsorted as [Hall _].
      apply elem_of_cons in Hu as [->|Hu]; [done|].
      by eapply Forall_forall in Hall.
    + rewrite Hl' in Hsorted, Hu.
      apply elem_of_app in Hu as [Hu|Hu].
      * eapply StronglySorted_app_1_elem_of; [done..|by left].
      * apply list_elem_of_singleton in Hu as ->. done.
Qed.

(** On two or more URLs the function returns the longest common prefix of
    the least and the greatest one. *)
Lemma findUrlBasePath_ends (urls : list string) :
  (2 ≤ length urls)%nat →
  ∃ lo hi, findUrlBasePath urls = lcp lo hi
           ∧ lo ∈ urls ∧ hi ∈ urls
           ∧ ∀ u, u ∈ urls → String.le lo u ∧ String.le u hi.
Proof.
  intros Hlen.
  destruct (array_sort_ends urls) as (lo & hi & Hhd & Hlast & Hlo & Hhi & Hall).
  { intros ->. simpl in Hlen. lia. }
  exists lo, hi. split_and!; try done.
  destruct urls as [|u1 [|u2 urls]]; simpl in Hlen; try lia.
  unfold findUrlBasePath. cbv zeta. rewrite Hhd, Hlast. simpl default.
  apply common_prefix_loop_lcp.
Qed.

(** C3. [findUrlBasePath] returns the longest common prefix of the URLs it
    is given: the result is a prefix of every input and, for a non-empty
    input, every common prefix of the inputs is a prefix of the result;
    a singleton yields its element, the empty sequence yields the empty
    string, and so do inputs with no common first character. *)
Theorem findUrlBasePath_longest_common_prefix (urls : list string) :
  (∀ u, u ∈ urls → is_prefix (findUrlBasePath urls) u)
  ∧ (urls ≠ [] →
     ∀ p, (∀ u, u ∈ urls → is_prefix p u) → is_prefix p (findUrlBasePath urls))
  ∧ (∀ u, urls = [u] → findUrlBasePath urls = u)
  ∧ (urls = [] → findUrlBasePath urls = "")
  ∧ ((∀ c, ¬ Forall (starts_with c) urls) → findUrlBasePath urls = "").
Proof.
  assert (Hpre : ∀ u, u ∈ urls → is_prefix (findUrlBasePath urls) u).
  { destruct urls as [|u1 [|u2 rest]].
    - intros u Hu. by apply elem_of_nil in Hu.
    - intros u Hu. apply list_elem_of_singleton in Hu as ->. apply is_prefix_refl.
    - destruct (findUrlBasePath_ends (u1 :: u2 :: rest))
        as (lo & hi & -> & _ & _ & Hall); [simpl; lia|].
      intros u Hu. destruct (Hall u Hu). by apply lcp_between. }
  split_and!; [done|..].
  - intros Hne p Hp. destruct urls as [|u1 [|u2 rest]]; [done|..].
    + apply Hp. by left.
    + destruct (findUrlBasePath_ends (u1 :: u2 :: rest))
        as (lo & hi & -> & Hlo & Hhi & _); [simpl; lia|].
      apply lcp_greatest; by apply Hp.
  - by intros u ->.
  - by intros ->.
  - intros Hnone. destruct (findUrlBasePath urls) as [|c r] eqn:Hr; [done|].
    destruct (Hnone c). apply Forall_forall. intros u Hu.
    destruct (Hpre u Hu) as [t ->]. by exists (r +:+ t).
Qed.

Lemma findUrlBasePath_longest_common_prefix_witness :
  is_prefix (findUrlBasePath ["https://h/a/x"; "https://h/a/y"; "https://h/b"])
            "https://h/a/y"
  ∧ is_prefix "https://h/" (findUrlBasePath ["https://h/a/x"; "https://h/a/y"; "https://h/b"])
  ∧ findUrlBasePath ["https://h/a/x"] = "https://h/a/x"
  ∧ findUrlBasePath [] = ""
  ∧ findUrlBasePath ["ftp://h"; "https://h"; "https://g"] = "".
Proof.
  split_and!.
  - apply (findUrlBasePath_longest_common_prefix
             ["https://h/a/x"; "https://h/a/y"; "https://h/b"]).
    apply list_elem_of_In. simpl. tauto.
  - apply (findUrlBasePath_longest_common_prefix
             ["https://h/a/x"; "https://h/a/y"; "https://h/b"]); [done|].
    intros u Hu. apply list_elem_of_In in Hu. simpl in Hu.
    destruct Hu as [<-|[<-|[<-|[]]]];
      [by exists "a/x"|by exists "a/y"|by exists "b"].
  - destruct (findUrlBasePath_longest_common_prefix ["https://h/a/x"])
      as (_ & _ & H & _). by apply H.
  - destruct (findUrlBasePath_longest_common_prefix []) as (_ & _ & _ & H & _).
    by apply H.
  - destruct (findUrlBasePath_longest_common_prefix
                ["ftp://h"; "https://h"; "https://g"]) as (_ & _ & _ & _ & H).
    apply H. intros c Hc. apply Forall_cons in Hc as [[t Ht] Hc].
    apply Forall_cons in Hc as [[t' Ht'] _]. congruence.
Defined.

(** A call of [sort] on the argument itself would be seen by the caller:
    the store model distinguishes the two. *)
Example sort_mutates_receiver :
  Store.sort 0 {[ 0%nat := ["b"; "a"] ]} = Some (0%nat, {[ 0%nat := ["a"; "b"] ]}).
Proof. vm_compute. reflexivity. Qed.

(** C10. [findUrlBasePath] does not mutate its argument: after the call
    the caller's array holds its original elements in their original
    order, as does every other array of the store; the value returned is
    that of the function on these elements. *)
Theorem findUrlBasePath_preserves_argument
    (urls : Store.ref) (h : Store.store) (elems : list string) :
  h !! urls = Some elems →
  ∃ h', Store.findUrlBasePath urls h = Some (findUrlBasePath elems, h')
        ∧ h' !! urls = Some elems
        ∧ ∀ r, is_Some (h !! r) → h' !! r = h !! r.
Proof.
  intros Hurls. unfold Store.findUrlBasePath, Store.len, Store.get.
  rewrite Hurls. cbn [mbind option_bind].
  destruct elems as [|u1 [|u2 rest]]; cbn [length Nat.eqb].
  - exists h. by rewrite Hurls.
  - exists h. by rewrite Hurls.
  - unfold Store.spread, Store.sort. rewrite Hurls. cbn [mbind option_bind].
    set (r := fresh (dom h)).
    assert (Hfresh : h !! r = None).
    { apply not_elem_of_dom. apply is_fresh. }
    assert (r ≠ urls) by congruence.
    rewrite lookup_insert_eq. cbn [mbind option_bind].
    rewrite !lookup_insert_eq. cbn [mbind option_bind].
    set (sorted := array_sort (u1 :: u2 :: rest)).
    destruct (array_sort_ends (u1 :: u2 :: rest))
      as (lo & hi & Hhd & Hlast & _); [done|]. fold sorted in Hhd, Hlast.
    rewrite <- head_lookup, Hhd. cbn [mbind option_bind].
    replace (sorted !! (length sorted - 1)%nat) with (last sorted); last first.
    { rewrite last_lookup. f_equal. lia. }
    rewrite Hlast. cbn [mbind option_bind]. eexists. split_and!.
    + unfold findUrlBasePath. cbv zeta. fold sorted. rewrite Hhd, Hlast. done.
    + rewrite !lookup_insert_ne by done. done.
    + intros r' [x Hx]. rewrite !lookup_insert_ne by congruence. done.
Qed.

Lemma findUrlBasePath_preserves_argument_witness :
  ∃ h', Store.findUrlBasePath 0 {[ 0%nat := ["https://h/b"; "https://h/a"] ]}
        = Some (findUrlBasePath ["https://h/b"; "https://h/a"], h')
        ∧ h' !! 0%nat = Some ["https://h/b"; "https://h/a"]
        ∧ ∀ r, is_Some (({[ 0%nat := ["https://h/b"; "https://h/a"] ]} : Store.store) !! r)
               → h' !! r = ({[ 0%nat := ["https://h/b"; "https://h/a"] ]} : Store.store) !! r.
Proof.
  apply (findUrlBasePath_preserves_argument 0
           {[ 0%nat := ["https://h/b"; "https://h/a"] ]}
           ["https://h/b"; "https://h/a"]).
  reflexivity.
Defined.

End UrlPrefix.

(** ** Objects *)

Section Objects.

Lemma obj_get_set_eq k v (o : obj) : obj_get k (obj_set k v o) = Some v.
Proof.
  induction o as [|[k' v'] o IH]; simpl.
  - by rewrite decide_True.
  - case_decide; simpl; [by rewrite decide_True|]. by rewrite decide_False.
Qed.

Lemma obj_get_set_ne k k' v (o : obj) :
  k ≠ k' → obj_get k' (obj_set k v o) = obj_get k' o.
Proof.
  intros Hne. induction o as [|[k0 v0] o IH]; simpl.
  - by rewrite decide_False.
  - case_decide; simpl.
    + subst. by rewrite !decide_False.
    + case_decide; [done|apply IH].
Qed.

Lemma obj_keys_set_in (k : string) v (o : obj) :
  k ∈ obj_keys o → obj_keys (obj_set k v o) = obj_keys o.
Proof.
  unfold obj_keys. induction o as [|[k0 v0] o IH]; simpl.
  - intros H. by apply elem_of_nil in H.
  - intros H. case_decide; simpl; [by subst|].
    f_equal. apply IH. apply elem_of_cons in H as [?|?]; [congruence|done].
Qed.

Lemma obj_keys_set_notin (k : string) v (o : obj) :
  k ∉ obj_keys o → obj_keys (obj_set k v o) = obj_keys o ++ [k].
Proof.
  unfold obj_keys. induction o as [|[k0 v0] o IH]; simpl; [done|].
  intros H. apply not_elem_of_cons in H as [? ?].
  rewrite decide_False by done. simpl. f_equal. by apply IH.
Qed.

(** Keys stay unique: an object is a map. *)
Lemma obj_set_NoDup k v (o : obj) : NoDup (obj_keys o) → NoDup (obj_keys (obj_set k v o)).
Proof.
  intros Hnd. destruct (decide (k ∈ obj_keys o)) as [Hin|Hnin].
  - by rewrite obj_keys_set_in.
  - rewrite obj_keys_set_notin by done. apply NoDup_app. split_and!; [done|..].
    + intros x Hx Hx'. apply list_elem_of_singleton in Hx'. by subst.
    + apply NoDup_singleton.
Qed.

Lemma obj_get_None (k : string) (o : obj) : obj_get k o = None ↔ k ∉ obj_keys o.
Proof.
  unfold obj_keys. induction o as [|[k0 v0] o IH]; simpl.
  - split; [intros _; apply not_elem_of_nil|done].
  - case_decide.
    + subst k0. split; [done|]. intros Hk. destruct Hk. by left.
    + rewrite IH, not_elem_of_cons.
      split; [intros ?; split; [congruence|done]|by intros [_ ?]].
Qed.

Lemma obj_get_elem_of (k : string) v (o : obj) : obj_get k o = Some v → (k, v) ∈ o.
Proof.
  induction o as [|[k0 v0] o IH]; simpl; [done|].
  case_decide.
  - intros [= ->]. subst k0. by left.
  - intros H'. right. by apply IH.
Qed.

Lemma obj_get_NoDup (k : string) v (o : obj) :
  NoDup (obj_keys o) → (k, v) ∈ o → obj_get k o = Some v.
Proof.
  unfold obj_keys. induction o as [|[k0 v0] o IH]; simpl.
  - intros _ H. by apply elem_of_nil in H.
  - intros Hnd H. apply NoDup_cons in Hnd as [Hk0 Hnd].
    apply elem_of_cons in H as [[= -> ->]|H]; [by rewrite decide_True|].
    rewrite decide_False; [by apply IH|].
    intros ->. apply Hk0. apply list_elem_of_fmap. by exists (k, v).
Qed.

Lemma obj_of_pairs_get (pairs : list (string * string)) name text :
  NoDup pairs.*1 → (name, text) ∈ pairs →
  obj_get name (obj_of_pairs pairs) = Some (VStr text).
Proof.
  unfold obj_of_pairs.
  induction pairs as [|[n t] pairs IH] using rev_ind; intros Hnd Hin.
  - by apply elem_of_nil in Hin.
  - rewrite foldl_app. simpl. rewrite fmap_app in Hnd.
    apply NoDup_app in Hnd as (Hnd & Hn & _).
    apply elem_of_app in Hin as [Hin|Hin].
    + rewrite obj_get_set_ne; [by apply IH|].
      intros ->. apply (Hn name); [|by left].
      apply list_elem_of_fmap. by exists (name, text).
    + apply list_elem_of_singleton in Hin as [= -> ->]. apply obj_get_set_eq.
Qed.

End Objects.

(** ** HierarchyExtractor *)

Section Extractors.

(** The texts the [map] of [productSectionToNamesAndPageUrls] produces on a
    link-first run. *)
Lemma map_link_then_label pairs :
  map (λ e, match e with ElemA href => href | ElemP textContent => textContent end)
      (link_then_label pairs)
  = flat_map (λ '(name, url), [url; name]) pairs.
Proof.
  induction pairs as [|[n u] pairs IH]; [done|].
  unfold link_then_label in *. simpl. by rewrite IH.
Qed.

Lemma reduce_names_and_urls_pairs (pairs : list (string * string)) (pre : list string) o :
  Nat.even (length pre) = true →
  reduce_names_and_urls (pre ++ flat_map (λ '(name, url), [url; name]) pairs)
    (length pre) (flat_map (λ '(name, url), [url; name]) pairs) o
  = foldl (λ o '(name, text), obj_set name (VStr text) o) o
          (filter (λ p, p.1 ≠ "__proto__") pairs).
Proof.
  revert pre o. induction pairs as [|[n u] pairs IH]; intros pre o Heven; [done|].
  cbn [flat_map app reduce_names_and_urls].
  assert (Hodd : Nat.odd (length pre) = false).
  { unfold Nat.odd. by rewrite Heven. }
  rewrite Hodd.
  assert (Hodd' : Nat.odd (S (length pre)) = true).
  { rewrite Nat.odd_succ. done. }
  rewrite Hodd'.
  replace (S (length pre) - 1)%nat with (length pre + 0)%nat by lia.
  rewrite lookup_app_r by lia.
  replace (length pre + 0 - length pre)%nat with 0%nat by lia.
  cbn [lookup list_lookup].
  replace (pre ++ u :: n :: flat_map (λ '(name, url), [url; name]) pairs)
    with ((pre ++ [u; n]) ++ flat_map (λ '(name, url), [url; name]) pairs)
    by (by rewrite <- app_assoc).
  replace (S (S (length pre))) with (length (pre ++ [u; n]))
    by (rewrite length_app; simpl; lia).
  assert (Heven' : Nat.even (length (pre ++ [u; n])) = true).
  { rewrite length_app. simpl.
    replace (length pre + 2)%nat with (S (S (length pre))) by lia.
    by rewrite Nat.even_succ_succ. }
  destruct (decide (n = "__proto__")) as [Hn|Hn].
  - rewrite filter_cons_False by (cbn [fst]; by intros []). by apply IH.
  - rewrite filter_cons_True by done. cbn [foldl]. by apply IH.
Qed.

Lemma reduce_names_and_urls_no_proto array index rest o :
  "__proto__" ∉ obj_keys o →
  "__proto__" ∉ obj_keys (reduce_names_and_urls array index rest o).
Proof.
  revert index o. induction rest as [|item rest IH]; intros index o Ho; [done|].
  cbn [reduce_names_and_urls]. apply IH. destruct (Nat.odd index); [|done].
  destruct (array !! (index - 1)%nat); [|done].
  destruct (decide (item = "__proto__")) as [|Hitem]; [done|].
  destruct (decide (item ∈ obj_keys o)) as [Hin|Hnotin].
  - by rewrite obj_keys_set_in.
  - rewrite obj_keys_set_notin by done. intros [Hproto|Hproto]%elem_of_app; [done|].
    apply list_elem_of_singleton in Hproto. congruence.
Qed.

(** C8 (amended). On a run of pairs in which each link precedes its
    label, [productSectionToNamesAndPageUrls] zips adjacent pairs into
    name→URL entries: the key is the label, the second element of the
    pair, and the value is the link immediately before it. The label
    [__proto__] is the exception: the assignment creates no property for it,
    on any page. *)
Theorem productSectionToNamesAndPageUrls_link_first (pairs : list (string * string)) :
  productSectionToNamesAndPageUrls (link_then_label pairs)
  = obj_of_pairs (filter (λ p, p.1 ≠ "__proto__") pairs)
  ∧ (NoDup pairs.*1 →
     ∀ name url, (name, url) ∈ pairs → name ≠ "__proto__" →
       obj_get name (productSectionToNamesAndPageUrls (link_then_label pairs))
       = Some (VStr url))
  ∧ (∀ items, "__proto__" ∉ obj_keys (productSectionToNamesAndPageUrls items)).
Proof.
  assert (Heq : productSectionToNamesAndPageUrls (link_then_label pairs)
                = obj_of_pairs (filter (λ p, p.1 ≠ "__proto__") pairs)).
  { unfold productSectionToNamesAndPageUrls. cbv zeta.
    rewrite map_link_then_label.
    apply (reduce_names_and_urls_pairs pairs [] []). done. }
  split_and!; [done| |].
  - rewrite Heq. intros Hnd name url Hin Hname.
    apply obj_of_pairs_get.
    + eapply sublist_NoDup; [exact Hnd|]. apply fmap_sublist, sublist_filter.
    + apply list_elem_of_filter. done.
  - intros items. unfold productSectionToNamesAndPageUrls. cbv zeta.
    apply reduce_names_and_urls_no_proto. apply not_elem_of_nil.
Qed.

Lemma productSectionToNamesAndPageUrls_link_first_witness :
  obj_get "Hero Sections"
    (productSectionToNamesAndPageUrls
       (link_then_label [("Hero Sections", "http://hero-sections");
                         ("Feature Sections", "http://feature-sections")]))
  = Some (VStr "http://hero-sections").
Proof.
  apply (productSectionToNamesAndPageUrls_link_first
           [("Hero Sections", "http://hero-sections");
            ("Feature Sections", "http://feature-sections")]).
  - apply NoDup_ListNoDup. repeat constructor; simpl; intuition discriminate.
  - by left.
  - done.
Defined.

(** C8, as stated, fails: when the label comes first the function takes
    the link as the key and the label as the value. *)
Lemma zips_label_first_counterexample :
  ¬ zips_label_first [("Hero Sections", "http://hero-sections")].
Proof.
  intros H. specialize (H "Hero Sections" "http://hero-sections").
  vm_compute in H. by specialize (H ltac:(by left)).
Qed.

Example label_first_result :
  productSectionToNamesAndPageUrls
    [ElemP "Hero Sections"; ElemA "http://hero-sections"]
  = [("http://hero-sections", VStr "Hero Sections")].
Proof. reflexivity. Qed.

(** Once the accumulator of the reduction is rejected it stays so. *)
Lemma evaluate_components_stuck_throw sections message :
  foldl (λ acc section,
           match acc with
           | Ok o =>
               match componentSectionToNameAndData section with
               | Ok entry => Ok (obj_spread o entry)
               | Throw message => Throw message
               | Exit code => Exit code
               end
           | failed => failed
           end) (Throw message) sections = Throw message.
Proof. induction sections as [|s sections IH]; [done|]. simpl. apply IH. Qed.

Lemma componentSectionToNameAndData_no_exit section code :
  componentSectionToNameAndData section ≠ Exit code.
Proof.
  unfold componentSectionToNameAndData.
  by destruct (cs_codeButton section), (cs_h2 section), (cs_code section).
Qed.

Lemma evaluate_components_fails sections :
  Exists section_fails sections →
  ∃ message, evaluate_components sections = Throw message.
Proof.
  unfold evaluate_components. generalize (@nil (string * value)).
  induction sections as [|s sections IH]; intros o Hex.
  - by apply Exists_nil in Hex.
  - simpl. destruct (componentSectionToNameAndData s) as [entry|message|code] eqn:Hs.
    + apply Exists_cons in Hex as [[m Hm]|Hex]; [congruence|]. by apply IH.
    + exists message. apply evaluate_components_stuck_throw.
    + by apply componentSectionToNameAndData_no_exit in Hs.
Qed.

Lemma evaluate_components_good (entries : list (string * string)) o :
  foldl (λ acc section,
           match acc with
           | Ok o =>
               match componentSectionToNameAndData section with
               | Ok entry => Ok (obj_spread o entry)
               | Throw message => Throw message
               | Exit code => Exit code
               end
           | failed => failed
           end) (Ok o) (map (λ '(name, code), good_section name code) entries)
  = Ok (foldl (λ o '(name, text), obj_set name (VStr text) o) o entries).
Proof.
  revert o. induction entries as [|[n c] entries IH]; intros o; [done|].
  simpl. apply IH.
Qed.




End Extractors.

(** ** TraversalOrchestrator *)

Section Orchestrator.

Implicit Types (o pre post : obj) (k : string) (v : value) (st : state).

Lemma obj_get_middle pre k v post :
  k ∉ obj_keys pre → obj_get k (pre ++ (k, v) :: post) = Some v.
Proof.
  unfold obj_keys. induction pre as [|[k0 v0] pre IH]; simpl; intros Hk.
  - by rewrite decide_True.
  - apply not_elem_of_cons in Hk as [? ?]. rewrite decide_False by done. by apply IH.
Qed.

Lemma obj_set_middle pre k v v' post :
  k ∉ obj_keys pre → obj_set k v' (pre ++ (k, v) :: post) = pre ++ (k, v') :: post.
Proof.
  unfold obj_keys. induction pre as [|[k0 v0] pre IH]; simpl; intros Hk.
  - by rewrite decide_True.
  - apply not_elem_of_cons in Hk as [? ?]. rewrite decide_False by done.
    f_equal. by apply IH.
Qed.

Lemma obj_set_set k v v' o : obj_set k v' (obj_set k v o) = obj_set k v' o.
Proof.
  induction o as [|[k0 v0] o IH]; simpl.
  - by rewrite decide_True.
  - case_decide; simpl; [by rewrite decide_True|].
    rewrite decide_False by done. by rewrite IH.
Qed.

Lemma obj_keys_map f o : obj_keys (obj_map f o) = obj_keys o.
Proof.
  unfold obj_keys, obj_map. induction o as [|[k v] o IH]; simpl; [done|]. by f_equal.
Qed.

Lemma obj_get_map f k o : obj_get k (obj_map f o) = f k <$> obj_get k o.
Proof.
  unfold obj_map. induction o as [|[k0 v0] o IH]; simpl; [done|].
  case_decide; [by subst|done].
Qed.

Lemma obj_keys_app pre post : obj_keys (pre ++ post) = obj_keys pre ++ obj_keys post.
Proof. apply fmap_app. Qed.

(** Keys of an object being unique, the part before a property does not
    hold its key. *)
Lemma NoDup_keys_middle pre k v post :
  NoDup (obj_keys (pre ++ (k, v) :: post)) → k ∉ obj_keys pre.
Proof.
  rewrite obj_keys_app. intros Hnd Hk.
  apply NoDup_app in Hnd as (_ & Hdisj & _). apply (Hdisj k Hk). by left.
Qed.

Lemma obj_keys_snoc pre k v post :
  obj_keys ((pre ++ [(k, v)]) ++ post) = obj_keys (pre ++ (k, v) :: post).
Proof. by rewrite <- app_assoc. Qed.

(** *** The objects the extractors build *)

Lemma obj_set_Forall (P : string * value → Prop) k v o :
  P (k, v) → Forall P o → Forall P (obj_set k v o).
Proof.
  intros Hkv. induction o as [|[k0 v0] o IH]; simpl; intros Ho.
  - by constructor.
  - apply Forall_cons in Ho as [? ?]. case_decide; constructor; auto.
Qed.

Lemma obj_spread_NoDup a b : NoDup (obj_keys a) → NoDup (obj_keys (obj_spread a b)).
Proof.
  unfold obj_spread. revert a. induction b as [|[k v] b IH]; intros a Ha; [done|].
  simpl. apply IH. by apply obj_set_NoDup.
Qed.

Lemma reduce_names_and_urls_NoDup array index rest o :
  NoDup (obj_keys o) → NoDup (obj_keys (reduce_names_and_urls array index rest o)).
Proof.
  revert index o. induction rest as [|item rest IH]; intros index o Ho; [done|].
  simpl. apply IH. destruct (Nat.odd index); [|done].
  destruct (array !! (index - 1)%nat); [|done].
  case_decide; [done|]. by apply obj_set_NoDup.
Qed.

Lemma reduce_names_and_urls_strings array index rest o :
  Forall (λ kv, ∃ url, kv.2 = VStr url) o →
  Forall (λ kv, ∃ url, kv.2 = VStr url) (reduce_names_and_urls array index rest o).
Proof.
  revert index o. induction rest as [|item rest IH]; intros index o Ho; [done|].
  simpl. apply IH. destruct (Nat.odd index); [|done].
  destruct (array !! (index - 1)%nat); [|done].
  case_decide; [done|]. apply obj_set_Forall; [by eexists|done].
Qed.

Lemma productSectionToNamesAndPageUrls_wf items :
  groups_wf (productSectionToNamesAndPageUrls items).
Proof.
  split.
  - apply reduce_names_and_urls_NoDup. apply NoDup_nil_2.
  - apply reduce_names_and_urls_strings. constructor.
Qed.

Lemma getProductSectionsAndPageUrls_wf page sections :
  getProductSectionsAndPageUrls page = Ok sections → sections_wf sections.
Proof.
  unfold getProductSectionsAndPageUrls.
  assert (Hinit : sections_wf []) by (split; [apply NoDup_nil_2|constructor]).
  revert Hinit. generalize (@nil (string * value)).
  induction page as [|section page IH]; intros acc Hacc; simpl.
  - by intros [= <-].
  - destruct (ps_h3 section) as [name|].
    + apply IH. destruct Hacc as [Hnd Hall]. split.
      * by apply obj_set_NoDup.
      * apply obj_set_Forall; [|done]. eexists. split; [done|].
        apply productSectionToNamesAndPageUrls_wf.
    + intros Hthrow. exfalso. revert Hthrow. clear.
      induction page as [|s page IH]; simpl; [done|apply IH].
Qed.

Lemma getProductSectionsAndPageUrls_no_exit page code :
  getProductSectionsAndPageUrls page ≠ Exit code.
Proof.
  unfold getProductSectionsAndPageUrls.
  assert (Hinit : ∀ c, @Ok obj [] ≠ Exit c) by done.
  revert Hinit. generalize (@Ok obj []).
  induction page as [|section page IH]; intros acc Hacc; simpl; [done|].
  apply IH. intros c. destruct acc as [o| |]; [|done|by destruct (Hacc code0)].
  by destruct (ps_h3 section).
Qed.

Lemma getProductNamesAndPageUrls_NoDup page names :
  getProductNamesAndPageUrls page = Ok names → NoDup (obj_keys names).
Proof.
  unfold getProductNamesAndPageUrls.
  assert (Hinit : NoDup (obj_keys [])) by apply NoDup_nil_2.
  revert Hinit. generalize (@nil (string * value)).
  induction page as [|section page IH]; intros acc Hacc; simpl.
  - by intros [= <-].
  - destruct (rs_h2 section) as [name|].
    + apply IH. by apply obj_set_NoDup.
    + intros Hthrow. exfalso. revert Hthrow. clear.
      induction page as [|s page IH]; simpl; [done|apply IH].
Qed.

(** *** The walk, loop by loop *)

Lemma run_bind {A B} (m : M A) (k : A → M B) st :
  (m ≫= k) st
  = match m st with
    | (Ok a, st') => k a st'
    | (Throw message, st') => (Throw message, st')
    | (Exit code, st') => (Exit code, st')
    end.
Proof. reflexivity. Qed.

Lemma obj_set_get_id k v o : obj_get k o = Some v → obj_set k v o = o.
Proof.
  induction o as [|[k0 v0] o IH]; simpl; [done|].
  case_decide; [intros [= ->]; by subst|]. intros Hget. f_equal. by apply IH.
Qed.

Lemma assign3_spec product productSection subSection v st sections groups :
  obj_get product (productHierarchy st) = Some (VObj sections) →
  obj_get productSection sections = Some (VObj groups) →
  ∃ st', assign3 product productSection subSection v st = (Ok tt, st')
         ∧ productHierarchy st'
           = obj_set product
               (VObj (obj_set productSection (VObj (obj_set subSection v groups)) sections))
               (productHierarchy st).
Proof. intros Hp Hs. unfold assign3. rewrite Hp, Hs. by eexists. Qed.

(** One Group: the step never throws, and changes the node of the Group
    only. *)
Lemma group_step_spec b product productSection subSection componentsUrl st sections groups :
  obj_get product (productHierarchy st) = Some (VObj sections) →
  obj_get productSection sections = Some (VObj groups) →
  ∃ st', group_step b product productSection (subSection, componentsUrl) st = (Ok tt, st')
         ∧ productHierarchy st'
           = obj_set product
               (VObj (obj_set productSection
                        (VObj (obj_set subSection
                                 (group_node (br_group b product productSection subSection)
                                             componentsUrl)
                                 groups))
                        sections))
               (productHierarchy st).
Proof.
  intros Hp Hs. unfold group_step, group_node, try_catch.
  rewrite run_bind. unfold lift at 1.
  destruct componentsUrl as [url|o]; cbn [goto_url].
  2:{ by apply assign3_spec. }
  rewrite run_bind. unfold await at 1.
  destruct (gv_goto (br_group b product productSection subSection) url) as [message|].
  { unfold throw, lift. by apply assign3_spec. }
  unfold mret, M_ret, ret. rewrite run_bind.
  destruct (assign3_spec product productSection subSection
              (VObj (getComponentsAndData
                       (gv_sections (br_group b product productSection subSection))))
              st sections groups Hp Hs) as (st1 & -> & Hst1).
  unfold await.
  destruct (gv_goBack (br_group b product productSection subSection)) as [message|].
  - unfold throw, lift.
    edestruct (assign3_spec product productSection subSection (error_marker message) st1)
      as (st2 & -> & Hst2).
    { rewrite Hst1. apply obj_get_set_eq. }
    { apply obj_get_set_eq. }
    eexists. split; [done|]. rewrite Hst2, Hst1. by rewrite !obj_set_set.
  - unfold mret, M_ret, ret. by eexists.
Qed.

(** The loop over the Groups of one Section. *)
Lemma group_loop_spec b product productSection todo :
  ∀ pre st sections,
    NoDup (obj_keys (pre ++ todo)) →
    obj_get product (productHierarchy st) = Some (VObj sections) →
    obj_get productSection sections = Some (VObj (pre ++ todo)) →
    ∃ st', for_each todo (group_step b product productSection) st = (Ok tt, st')
           ∧ productHierarchy st'
             = obj_set product
                 (VObj (obj_set productSection
                          (VObj (pre ++ expand_groups b product productSection todo))
                          sections))
                 (productHierarchy st).
Proof.
  induction todo as [|[g u] todo IH]; intros pre st sections Hnd Hp Hs.
  - exists st. split; [done|]. cbn [expand_groups obj_map map].
    symmetry. rewrite (obj_set_get_id productSection _ sections) by done.
    by apply obj_set_get_id.
  - cbn [for_each].
    destruct (group_step_spec b product productSection g u st sections _ Hp Hs)
      as (st1 & Hstep & Hst1).
    unfold bind. rewrite Hstep.
    rewrite obj_set_middle in Hst1 by (by eapply NoDup_keys_middle).
    set (node := group_node (br_group b product productSection g) u) in *.
    destruct (IH (pre ++ [(g, node)]) st1
                (obj_set productSection (VObj ((pre ++ [(g, node)]) ++ todo)) sections))
      as (st2 & Hloop & Hst2).
    + rewrite obj_keys_snoc. rewrite !obj_keys_app in *. done.
    + rewrite Hst1, <- app_assoc. apply obj_get_set_eq.
    + apply obj_get_set_eq.
    + exists st2. split; [done|]. rewrite Hst2, Hst1.
      rewrite !obj_set_set. by rewrite <- app_assoc.
Qed.

(** The loop over the Sections of one product. *)
Lemma section_loop_spec b product todo :
  ∀ pre st,
    NoDup (obj_keys (pre ++ todo)) →
    Forall (λ kv, ∃ groups, kv.2 = VObj groups ∧ groups_wf groups) todo →
    obj_get product (productHierarchy st) = Some (VObj (pre ++ todo)) →
    ∃ st', for_each (obj_keys todo)
             (λ productSection,
                entries ← entries_of_section product productSection;
                for_each entries (group_step b product productSection)) st
           = (Ok tt, st')
           ∧ productHierarchy st'
             = obj_set product (VObj (pre ++ expand_sections b product todo))
                 (productHierarchy st).
Proof.
  induction todo as [|[s v] todo IH]; intros pre st Hnd Hwf Hp.
  - exists st. split; [done|]. symmetry. by apply obj_set_get_id.
  - apply Forall_cons in Hwf as [(groups & Hv & Hgroups & _) Hwf]. simpl in Hv. subst v.
    cbn [obj_keys fmap list_fmap fst for_each]. unfold bind at 1.
    rewrite run_bind. unfold entries_of_section at 1. rewrite Hp.
    pose proof (NoDup_keys_middle _ _ _ _ Hnd) as Hs.
    rewrite obj_get_middle by done.
    destruct (group_loop_spec b product s groups [] st (pre ++ (s, VObj groups) :: todo))
      as (st1 & Hloop & Hst1); [done|done|by apply obj_get_middle|].
    unfold obj_entries. rewrite Hloop.
    rewrite obj_set_middle in Hst1 by done. cbn [app] in Hst1.
    set (node := VObj (expand_groups b product s groups)) in *.
    destruct (IH (pre ++ [(s, node)]) st1) as (st2 & Hrest & Hst2).
    + rewrite obj_keys_snoc. rewrite !obj_keys_app in *. done.
    + done.
    + rewrite Hst1, <- app_assoc. apply obj_get_set_eq.
    + exists st2. split; [done|]. rewrite Hst2, Hst1, obj_set_set.
      by rewrite <- app_assoc.
Qed.

(** One product: the step is rejected when the tab cannot be opened or
    closed, and completes otherwise; the node of the product is then
    [product_node], and no other node has changed. *)
Lemma product_step_run b product productPageUrl st :
  ∃ st1,
    product_step b (product, productPageUrl) st
    = match pv_newPage (br_product b product) with
      | Some message => (Throw message, st)
      | None =>
          match pv_close (br_product b product) with
          | Some message => (Throw message, st1)
          | None => (Ok tt, st1)
          end
      end
    ∧ productHierarchy st1
      = obj_set product (product_node b product productPageUrl) (productHierarchy st).
Proof.
  unfold product_step, product_node. rewrite run_bind. unfold await at 1.
  destruct (pv_newPage (br_product b product)) as [message|].
  { eexists (State _ []). split; reflexivity. }
  unfold mret, M_ret, ret, try_finally, try_catch.
  rewrite run_bind. unfold lift at 1.
  destruct productPageUrl as [url|o]; cbn [goto_url].
  2:{ unfold assign1, await. cbn.
      destruct (pv_close (br_product b product)); eexists; split; reflexivity. }
  rewrite run_bind. unfold await at 1.
  destruct (pv_goto (br_product b product) url) as [message|].
  { unfold throw, lift, assign1, await. cbn.
    destruct (pv_close (br_product b product)); eexists; split; reflexivity. }
  unfold mret, M_ret, ret. rewrite run_bind. unfold lift at 1.
  destruct (getProductSectionsAndPageUrls (pv_sections (br_product b product)))
    as [sections|message|code] eqn:Hsections; cbn [evaluate].
  2:{ unfold assign1, await. cbn.
      destruct (pv_close (br_product b product)); eexists; split; reflexivity. }
  2:{ by apply getProductSectionsAndPageUrls_no_exit in Hsections. }
  apply getProductSectionsAndPageUrls_wf in Hsections as [Hnd Hwf].
  rewrite run_bind. unfold assign1 at 1. rewrite run_bind.
  unfold keys_of_product at 1. cbn [productHierarchy]. rewrite obj_get_set_eq.
  edestruct (section_loop_spec b product sections [])
    as (st1 & -> & Hst1); [done|done|cbn [productHierarchy]; apply obj_get_set_eq|].
  cbn [productHierarchy app] in Hst1. rewrite obj_set_set in Hst1.
  unfold await. destruct (pv_close (br_product b product)); by exists st1.
Qed.

Lemma product_step_spec b product productPageUrl st st' :
  product_step b (product, productPageUrl) st = (Ok tt, st') →
  productHierarchy st'
  = obj_set product (product_node b product productPageUrl) (productHierarchy st).
Proof.
  destruct (product_step_run b product productPageUrl st) as (st1 & -> & Hst1).
  destruct (pv_newPage (br_product b product)); [done|].
  destruct (pv_close (br_product b product)); [done|]. by intros [= <-].
Qed.

(** A product step completes exactly when its tab opens and closes. *)
Lemma product_step_completes b product productPageUrl st :
  (∃ st', product_step b (product, productPageUrl) st = (Ok tt, st'))
  ↔ pv_newPage (br_product b product) = None ∧ pv_close (br_product b product) = None.
Proof.
  destruct (product_step_run b product productPageUrl st) as (st1 & -> & _).
  destruct (pv_newPage (br_product b product)), (pv_close (br_product b product));
    split; try (by intros [? [=]]); try (by intros [[=] [=]]); try (by intros [? ?]).
  intros _. by exists st1.
Qed.

(** The loop over the products. *)
Lemma product_loop_spec b todo :
  ∀ pre st st',
    NoDup (obj_keys (pre ++ todo)) →
    productHierarchy st = pre ++ todo →
    for_each todo (product_step b) st = (Ok tt, st') →
    productHierarchy st' = pre ++ obj_map (product_node b) todo.
Proof.
  induction todo as [|[p u] todo IH]; intros pre st st' Hnd Hst.
  - by intros [= <-].
  - cbn [for_each]. unfold bind.
    destruct (product_step b (p, u) st) as [[[]|message|code] st1] eqn:Hstep; try done.
    apply product_step_spec in Hstep.
    rewrite Hst, obj_set_middle in Hstep by (by eapply NoDup_keys_middle).
    intros Hrest.
    rewrite (IH (pre ++ [(p, product_node b p u)]) st1 st'); try done.
    + by rewrite <- app_assoc.
    + rewrite obj_keys_snoc. rewrite !obj_keys_app in *. done.
    + by rewrite <- app_assoc.
Qed.

(** The loop over the products completes exactly when every tab opens and
    closes. *)
Lemma product_loop_completes b todo :
  ∀ st, (∃ st', for_each todo (product_step b) st = (Ok tt, st'))
        ↔ Forall (λ kv, pv_newPage (br_product b kv.1) = None
                        ∧ pv_close (br_product b kv.1) = None) todo.
Proof.
  induction todo as [|[p u] todo IH]; intros st.
  - split; [constructor|]. intros _. by exists st.
  - cbn [for_each]. unfold bind. rewrite Forall_cons. cbn [fst].
    destruct (product_step_run b p u st) as (st1 & -> & _).
    destruct (pv_newPage (br_product b p)).
    { split; [by intros [? [=]]|by intros [[[=] _] _]]. }
    destruct (pv_close (br_product b p)).
    { split; [by intros [? [=]]|by intros [[_ [=]] _]]. }
    rewrite (IH st1). split; [done|by intros [_ ?]].
Qed.

(** The tree of a run that completes: every product found on the root
    page, with the node the visit of that product leaves. *)
Lemma run_scrape_tree b rootUrl cookies tree ws :
  run_scrape b rootUrl cookies = (Ok tree, ws) →
  ∃ names, run_conditions b rootUrl cookies names
           ∧ NoDup (obj_keys names)
           ∧ tree = obj_map (product_node b) names.
Proof.
  unfold run_conditions, run_scrape, scrapeTailwindPlus.
  rewrite run_bind. unfold await at 1.
  destruct (br_launch b); [done|]. unfold mret, M_ret, ret, try_finally, try_catch.
  rewrite run_bind.
  assert (Hcookies : (if cookies then await (br_addCookies b) else λ st, (Ok tt, st))
                       (State [] [])
                     = (match (if cookies then br_addCookies b else None) with
                        | None => Ok tt | Some m => Throw m end, State [] [])).
  { destruct cookies; [|done]. unfold await. by destruct (br_addCookies b). }
  rewrite Hcookies. clear Hcookies.
  destruct (if cookies then br_addCookies b else None).
  { unfold throw, lift, await. by destruct (br_close b). }
  rewrite run_bind. unfold await at 1.
  destruct (br_root_goto b rootUrl).
  { unfold throw, lift, await. by destruct (br_close b). }
  unfold mret, M_ret, ret. rewrite run_bind. unfold lift at 1.
  destruct (getProductNamesAndPageUrls (br_root_sections b))
    as [names|message|code] eqn:Hnames; cbn [evaluate].
  2:{ unfold throw, lift, await. by destruct (br_close b). }
  2:{ done. }
  pose proof (getProductNamesAndPageUrls_NoDup _ _ Hnames) as Hnd.
  rewrite run_bind. unfold set_hierarchy at 1. rewrite run_bind.
  unfold await at 1. destruct (br_root_close b).
  { unfold throw, lift, await. by destruct (br_close b). }
  unfold mret, M_ret, ret. rewrite run_bind. unfold entries_of_hierarchy at 1.
  cbn [productHierarchy writes]. rewrite run_bind. unfold obj_entries.
  destruct (for_each names (product_step b) _) as [[[]|message|code] st1] eqn:Hloop.
  2:{ unfold throw, lift, await. by destruct (br_close b). }
  2:{ done. }
  assert (Htabs : Forall (λ kv, pv_newPage (br_product b kv.1) = None
                                ∧ pv_close (br_product b kv.1) = None) names).
  { eapply product_loop_completes. by eexists. }
  apply (product_loop_spec b names []) in Hloop; [|done|done].
  unfold get_hierarchy, await. destruct (br_close b); [done|].
  intros [= <- _]. exists names. done.
Qed.

(** A run completes as soon as the steps of [run_conditions] succeed,
    whatever happens at the Groups. *)
Lemma run_scrape_total b rootUrl cookies names :
  run_conditions b rootUrl cookies names →
  ∃ tree ws, run_scrape b rootUrl cookies = (Ok tree, ws).
Proof.
  intros (Hlaunch & Hcookies & Hroot & Hnames & Hclose & Htabs & Hend).
  unfold run_scrape, scrapeTailwindPlus.
  rewrite run_bind, Hlaunch. cbn [await].
  unfold mret, M_ret, ret, try_finally, try_catch. rewrite run_bind.
  assert (Hc : (if cookies then await (br_addCookies b) else λ st, (Ok tt, st))
                 (State [] []) = (Ok tt, State [] [])).
  { destruct cookies; [|done]. by rewrite Hcookies. }
  rewrite Hc, run_bind, Hroot. cbn [await]. unfold mret, M_ret, ret.
  rewrite run_bind, Hnames. cbn [evaluate]. unfold lift at 1.
  rewrite run_bind. unfold set_hierarchy at 1. rewrite run_bind, Hclose.
  cbn [await]. unfold mret, M_ret, ret. rewrite run_bind.
  unfold entries_of_hierarchy at 1. cbn [productHierarchy writes].
  rewrite run_bind. unfold obj_entries.
  apply (product_loop_completes b names (State names [])) in Htabs as [st1 ->].
  unfold get_hierarchy. rewrite Hend. cbn [await]. unfold mret, M_ret, ret.
  by eexists _, _.
Qed.

(** *** Isolation of a Group *)

Lemma obj_map_ext f g o :
  (∀ k v, f k v = g k v) → obj_map f o = obj_map g o.
Proof.
  intros Hfg. unfold obj_map. induction o as [|[k v] o IH]; simpl; [done|].
  by rewrite Hfg, IH.
Qed.

Lemma obj_get_Forall (P : string * value → Prop) k v o :
  Forall P o → obj_get k o = Some v → P (k, v).
Proof.
  intros Hall Hget. apply obj_get_elem_of in Hget.
  by eapply Forall_forall in Hall.
Qed.

Lemma obj_get_expand_groups b p s g groups :
  obj_get g (expand_groups b p s groups)
  = group_node (br_group b p s g) <$> obj_get g groups.
Proof. unfold expand_groups. by rewrite obj_get_map. Qed.

Lemma obj_get_expand_sections b p s sections :
  obj_get s (expand_sections b p sections)
  = (λ v, match v with
          | VObj groups => VObj (expand_groups b p s groups)
          | VStr _ => v
          end) <$> obj_get s sections.
Proof. unfold expand_sections. by rewrite obj_get_map. Qed.

Section Isolation.

Context (b b' : browser) (P S G : string).
Context (Hsame : same_except_group b b' P S G).

Lemma br_product_same : br_product b' = br_product b.
Proof. apply Hsame. Qed.

Lemma br_group_same p s g : (p, s, g) ≠ (P, S, G) → br_group b' p s g = br_group b p s g.
Proof. apply Hsame. Qed.

Lemma expand_groups_same p s groups :
  (p, s) ≠ (P, S) → expand_groups b' p s groups = expand_groups b p s groups.
Proof.
  intros Hne. apply obj_map_ext. intros g u. rewrite br_group_same; [done|].
  intros [= -> -> ->]. done.
Qed.

Lemma expand_sections_same p sections :
  p ≠ P → expand_sections b' p sections = expand_sections b p sections.
Proof.
  intros Hne. apply obj_map_ext. intros s [u|groups]; [done|].
  rewrite expand_groups_same; [done|]. intros [= -> ->]. done.
Qed.

Lemma product_node_same p v : p ≠ P → product_node b' p v = product_node b p v.
Proof.
  intros Hne. unfold product_node. rewrite br_product_same.
  destruct v as [url|o]; [|done].
  destruct (pv_goto (br_product b p) url); [done|].
  destruct (getProductSectionsAndPageUrls _); [|done..].
  by rewrite expand_sections_same.
Qed.

(** The Sections of product [P] in the two trees agree outside the node
    of the Group; at that node they hold what the visit of the Group
    leaves. *)
Lemma product_node_lookups v :
  (∀ s g, (s, g) ≠ (S, G) →
     get3 [(P, product_node b' P v)] P s g = get3 [(P, product_node b P v)] P s g)
  ∧ (∀ s, s ≠ S →
       get2 [(P, product_node b' P v)] P s = get2 [(P, product_node b P v)] P s)
  ∧ (is_Some (get3 [(P, product_node b P v)] P S G) →
     ∃ url, get3 [(P, product_node b' P v)] P S G
            = Some (group_node (br_group b' P S G) (VStr url))).
Proof.
  unfold get3, get2. cbn [obj_get]. rewrite !decide_True by done.
  unfold product_node. rewrite br_product_same.
  assert (Hmarker : ∀ message,
            ¬ is_Some (match obj_get S [("error", VStr message)] with
                       | Some (VObj groups) => obj_get G groups
                       | _ => None
                       end)).
  { intros message. cbn [obj_get]. case_decide; by intros []. }
  destruct v as [url|o]; cbn [goto_url error_marker].
  2:{ split_and!; [done|done|]. intros H. by apply Hmarker in H. }
  destruct (pv_goto (br_product b P) url) as [message|].
  { split_and!; [done|done|]. intros H. by apply Hmarker in H. }
  destruct (getProductSectionsAndPageUrls (pv_sections (br_product b P)))
    as [sections|message|code] eqn:Hsections.
  2:{ split_and!; [done|done|]. intros H. by apply Hmarker in H. }
  2:{ by apply getProductSectionsAndPageUrls_no_exit in Hsections. }
  apply getProductSectionsAndPageUrls_wf in Hsections as [_ Hwf].
  rewrite !obj_get_expand_sections.
  split_and!.
  - intros s g Hne. rewrite !obj_get_expand_sections.
    destruct (obj_get s sections) as [[u|groups]|];
      cbn [fmap option_fmap option_map]; try done.
    rewrite !obj_get_expand_groups.
    rewrite br_group_same; [done|]. intros [= -> ->]. done.
  - intros s Hne. rewrite !obj_get_expand_sections.
    destruct (obj_get s sections) as [[u|groups]|];
      cbn [fmap option_fmap option_map]; try done.
    rewrite expand_groups_same; [done|]. intros [= ->]. done.
  - destruct (obj_get S sections) as [[u|groups]|] eqn:HS;
      cbn [fmap option_fmap option_map]; try by intros [].
    apply (obj_get_Forall _ _ _ _ Hwf) in HS as (groups' & [= <-] & _ & Hurls).
    rewrite !obj_get_expand_groups.
    destruct (obj_get G groups) as [u|] eqn:HG;
      cbn [fmap option_fmap option_map]; [|by intros []].
    apply (obj_get_Forall _ _ _ _ Hurls) in HG as [url' Hu]. cbn in Hu. subst u.
    intros _. by exists url'.
Qed.

End Isolation.

Lemma get2_obj_map f names p s :
  get2 (obj_map f names) p s
  = match obj_get p names with
    | Some v => get2 [(p, f p v)] p s
    | None => None
    end.
Proof.
  unfold get2. rewrite obj_get_map.
  destruct (obj_get p names); [|done]. cbn. by rewrite decide_True.
Qed.

Lemma get3_obj_map f names p s g :
  get3 (obj_map f names) p s g
  = match obj_get p names with
    | Some v => get3 [(p, f p v)] p s g
    | None => None
    end.
Proof. unfold get3. rewrite get2_obj_map. by destruct (obj_get p names). Qed.

Lemma run_conditions_same b b' rootUrl cookies P S G names :
  same_except_group b b' P S G →
  run_conditions b rootUrl cookies names → run_conditions b' rootUrl cookies names.
Proof.
  unfold run_conditions.
  intros (-> & -> & -> & -> & -> & -> & -> & _). done.
Qed.

(** Isolation of one Group. Take a run that completes, and a second browser
    that answers like the first except at the visit of one Group. The run on the
    second browser completes too. Every other Group, every other Section and
    every other product has the same node in the two trees. The node of the
    Group itself, when the Group exists, is the error marker carrying the
    message of [goto] if the navigation to its page fails; if the navigation
    and the return succeed it is the mapping returned by the extraction,
    which is empty, and not an error marker, when the extraction fails. *)
Theorem group_failure_isolated b b' rootUrl cookies P S G tree ws :
  same_except_group b b' P S G →
  run_scrape b rootUrl cookies = (Ok tree, ws) →
  ∃ tree' ws',
    run_scrape b' rootUrl cookies = (Ok tree', ws')
    ∧ (∀ p s g, (p, s, g) ≠ (P, S, G) → get3 tree' p s g = get3 tree p s g)
    ∧ (∀ p s, (p, s) ≠ (P, S) → get2 tree' p s = get2 tree p s)
    ∧ (∀ p, p ≠ P → obj_get p tree' = obj_get p tree)
    ∧ (is_Some (get3 tree P S G) →
       ∃ url node,
         get3 tree' P S G = Some node
         ∧ (∀ message, gv_goto (br_group b' P S G) url = Some message →
              node = error_marker message)
         ∧ (gv_goto (br_group b' P S G) url = None →
            gv_goBack (br_group b' P S G) = None →
            node = VObj (getComponentsAndData (gv_sections (br_group b' P S G)))
            ∧ (Exists section_fails (gv_sections (br_group b' P S G)) →
               node = VObj []))).
Proof.
  intros Hsame Hrun.
  apply run_scrape_tree in Hrun as (names & Hconditions & Hnd & ->).
  destruct (run_scrape_total b' rootUrl cookies names) as (tree' & ws' & Hrun').
  { by eapply run_conditions_same. }
  exists tree', ws'. split; [done|].
  apply run_scrape_tree in Hrun' as (names' & Hconditions' & _ & ->).
  assert (names' = names) as ->.
  { destruct Hconditions as (_ & _ & _ & Hnames & _).
    destruct Hconditions' as (_ & _ & _ & Hnames' & _).
    destruct Hsame as (_ & _ & _ & Hroot & _). rewrite Hroot in Hnames'. congruence. }
  split_and!.
  - intros p s g Hne. rewrite !get3_obj_map.
    destruct (obj_get p names) as [v|]; [|done].
    destruct (decide (p = P)) as [->|Hp].
    + apply (product_node_lookups b b' P S G Hsame v). intros [= -> ->]. done.
    + by rewrite (product_node_same b b' P S G Hsame).
  - intros p s Hne. rewrite !get2_obj_map.
    destruct (obj_get p names) as [v|]; [|done].
    destruct (decide (p = P)) as [->|Hp].
    + apply (product_node_lookups b b' P S G Hsame v). intros ->. done.
    + by rewrite (product_node_same b b' P S G Hsame).
  - intros p Hne. rewrite !obj_get_map.
    destruct (obj_get p names) as [v|]; [|done]. cbn.
    by rewrite (product_node_same b b' P S G Hsame).
  - rewrite !get3_obj_map. destruct (obj_get P names) as [v|]; [|by intros []].
    intros Hsome.
    destruct (product_node_lookups b b' P S G Hsame v) as (_ & _ & Hnode).
    destruct (Hnode Hsome) as [url ->]. exists url. eexists. split; [done|].
    unfold group_node. split.
    + by intros message ->.
    + intros -> ->. split; [done|]. intros Hfails.
      unfold getComponentsAndData.
      by destruct (evaluate_components_fails _ Hfails) as [message ->].
Qed.

Lemma demo_same_except (v v' : group_visit) :
  same_except_group (demo_browser v) (demo_browser v') "Marketing" "Heroes" "Hero B".
Proof.
  unfold same_except_group. split_and!; try reflexivity.
  intros p s g Hne. cbn. by rewrite !decide_False.
Qed.

Lemma group_failure_isolated_witness :
  ∃ tree' ws',
    run_scrape (demo_browser goto_fails) rootUrl true = (Ok tree', ws')
    ∧ get3 tree' "Marketing" "Heroes" "Hero A"
      = get3 (demo_tree demo_visit) "Marketing" "Heroes" "Hero A".
Proof.
  destruct (group_failure_isolated (demo_browser demo_visit) (demo_browser goto_fails)
              rootUrl true "Marketing" "Heroes" "Hero B"
              (demo_tree demo_visit)
              (run_scrape (demo_browser demo_visit) rootUrl true).2)
    as (tree' & ws' & Hrun & Hgroups & _).
  - apply demo_same_except.
  - vm_compute. reflexivity.
  - exists tree', ws'. split; [done|]. apply Hgroups.
    intros Heq. discriminate Heq.
Defined.

Example goto_failure_node :
  get3 (demo_tree goto_fails) "Marketing" "Heroes" "Hero B"
  = Some (error_marker "page.goto: Timeout 30000ms exceeded.").
Proof. vm_compute. reflexivity. Qed.

(** The claim of a marker for every failure fails on the small site: when
    the extraction of a Group fails the node of the Group is the empty
    mapping, not an error marker. *)
Lemma group_failure_marked_counterexample :
  ¬ group_failure_marked (demo_browser extraction_fails) rootUrl true.
Proof.
  intros H.
  destruct (H (demo_tree extraction_fails)
              (run_scrape (demo_browser extraction_fails) rootUrl true).2
              "Marketing" "Heroes" "Hero B") as [message Hnode].
  - vm_compute. reflexivity.
  - vm_compute. by eexists.
  - right. cbn. rewrite decide_True by done. cbn.
    apply Exists_cons_tl, Exists_cons_hd. by eexists.
  - vm_compute in Hnode. discriminate Hnode.
Qed.

Example extraction_failure_node :
  get3 (demo_tree extraction_fails) "Marketing" "Heroes" "Hero B" = Some (VObj []).
Proof. vm_compute. reflexivity. Qed.

Lemma get3_error_marker p message s g :
  get3 [(p, error_marker message)] p s g = None.
Proof.
  unfold get3, get2, error_marker. cbn [obj_get]. rewrite decide_True by done.
  cbn [obj_get]. by destruct (decide ("error" = s)).
Qed.

(** The node of a Group in the tree of one product is what the visit of
    the Group makes of its placeholder. *)
Lemma get3_product_node b P S G v :
  is_Some (get3 [(P, product_node b P v)] P S G) →
  get3 [(P, product_node b P v)] P S G
  = group_node (br_group b P S G) <$> placeholder b P S G.
Proof.
  unfold product_node, placeholder. destruct v as [url|o].
  2:{ rewrite get3_error_marker. by intros []. }
  destruct (pv_goto (br_product b P) url).
  { rewrite get3_error_marker. by intros []. }
  destruct (getProductSectionsAndPageUrls (pv_sections (br_product b P)))
    as [sections|message|code] eqn:Hsections.
  2:{ rewrite get3_error_marker. by intros []. }
  2:{ by apply getProductSectionsAndPageUrls_no_exit in Hsections. }
  unfold get3, get2. cbn [obj_get]. rewrite decide_True by done.
  rewrite obj_get_expand_sections.
  destruct (obj_get S sections) as [[text|groups]|];
    cbn [fmap option_fmap option_map]; [by intros []| |by intros []].
  intros _. apply obj_get_expand_groups.
Qed.

(** C2. When the extraction on the page of a Group fails, the navigation
    to the page and the return from it succeeding, the run stores the empty
    mapping at the node of the Group and no error marker: the error is caught
    inside [getComponentsAndData], and the [catch] of the orchestrator, which
    installs the marker, is not reached. The URL is the placeholder the walk
    navigates to. On the small site with such a failure at Hero B the node is
    the empty mapping, and the claim of a marker for every failure fails. *)
Theorem extraction_failure_not_marked :
  (∀ b rootUrl cookies tree ws P S G url,
     run_scrape b rootUrl cookies = (Ok tree, ws) →
     is_Some (get3 tree P S G) →
     placeholder b P S G = Some (VStr url) →
     gv_goto (br_group b P S G) url = None →
     gv_goBack (br_group b P S G) = None →
     Exists section_fails (gv_sections (br_group b P S G)) →
     get3 tree P S G = Some (VObj [])
     ∧ ∀ message, get3 tree P S G ≠ Some (error_marker message))
  ∧ get3 (demo_tree extraction_fails) "Marketing" "Heroes" "Hero B" = Some (VObj [])
  ∧ ¬ group_failure_marked (demo_browser extraction_fails) rootUrl true.
Proof.
  split_and!.
  - intros b rootUrl cookies tree ws P S G url Hrun Hsome Hurl Hgoto HgoBack Hfails.
    apply run_scrape_tree in Hrun as (names & _ & _ & ->).
    rewrite get3_obj_map in Hsome |- *.
    destruct (obj_get P names) as [v|]; [|by destruct Hsome].
    rewrite (get3_product_node b P S G v Hsome), Hurl.
    cbn [fmap option_fmap option_map]. unfold group_node.
    rewrite Hgoto, HgoBack. unfold getComponentsAndData.
    destruct (evaluate_components_fails _ Hfails) as [thrown ->].
    split; [done|]. intros message Heq. discriminate Heq.
  - vm_compute. reflexivity.
  - apply group_failure_marked_counterexample.
Qed.

Lemma extraction_failure_not_marked_witness :
  get3 (demo_tree extraction_fails) "Marketing" "Heroes" "Hero B" = Some (VObj []).
Proof.
  destruct extraction_failure_not_marked as [Hgeneral _].
  apply (Hgeneral (demo_browser extraction_fails) rootUrl true
           (demo_tree extraction_fails)
           (run_scrape (demo_browser extraction_fails) rootUrl true).2
           "Marketing" "Heroes" "Hero B" "https://t/hero-b").
  - vm_compute. reflexivity.
  - vm_compute. by eexists.
  - vm_compute. reflexivity.
  - reflexivity.
  - reflexivity.
  - cbn. rewrite decide_True by done. cbn.
    apply Exists_cons_tl, Exists_cons_hd. by eexists.
Defined.

(** One Group whose page is reached and read and whose [goBack] fails: the
    step assigns the node twice. *)
Lemma group_step_goBack_failure b product productSection subSection url st
    sections groups message :
  obj_get product (productHierarchy st) = Some (VObj sections) →
  obj_get productSection sections = Some (VObj groups) →
  gv_goto (br_group b product productSection subSection) url = None →
  gv_goBack (br_group b product productSection subSection) = Some message →
  ∃ st', group_step b product productSection (subSection, VStr url) st = (Ok tt, st')
         ∧ writes st'
           = writes st
             ++ [ ([product; productSection; subSection],
                   VObj (getComponentsAndData
                           (gv_sections (br_group b product productSection subSection))));
                  ([product; productSection; subSection], error_marker message) ].
Proof.
  intros Hp Hs Hgoto HgoBack. unfold group_step, try_catch.
  rewrite run_bind. unfold lift at 1. cbn [goto_url].
  rewrite run_bind, Hgoto. cbn [await]. unfold mret, M_ret, ret.
  rewrite run_bind. unfold assign3 at 1. rewrite Hp, Hs, HgoBack.
  cbn [await]. unfold throw, lift, assign3. cbn [productHierarchy writes].
  rewrite !obj_get_set_eq. eexists. split; [done|].
  cbn [writes]. by rewrite <- app_assoc.
Qed.

(** C4. When [goBack] fails after the components of a Group have been
    stored, the node of the Group is assigned twice: first the content, then
    the error marker that replaces it. On the small site with such a failure
    at Hero B the two assignments are the only ones at that path, the error
    marker is what the tree holds at the end, and the single-mutation claim
    fails. *)
Theorem goBack_failure_overwrites_content :
  (∀ b product productSection subSection url st sections groups message,
     obj_get product (productHierarchy st) = Some (VObj sections) →
     obj_get productSection sections = Some (VObj groups) →
     gv_goto (br_group b product productSection subSection) url = None →
     gv_goBack (br_group b product productSection subSection) = Some message →
     ∃ st', group_step b product productSection (subSection, VStr url) st = (Ok tt, st')
            ∧ writes st'
              = writes st
                ++ [ ([product; productSection; subSection],
                      VObj (getComponentsAndData
                              (gv_sections (br_group b product productSection subSection))));
                     ([product; productSection; subSection], error_marker message) ])
  ∧ writes_at ["Marketing"; "Heroes"; "Hero B"]
      (run_scrape (demo_browser goBack_fails) rootUrl true).2
    = [ (["Marketing"; "Heroes"; "Hero B"],
         VObj [("Simple", VStr "<div>1</div>"); ("Split", VStr "<div>2</div>")]);
        (["Marketing"; "Heroes"; "Hero B"],
         error_marker "page.goBack: Timeout 15000ms exceeded.") ]
  ∧ get3 (demo_tree goBack_fails) "Marketing" "Heroes" "Hero B"
    = Some (error_marker "page.goBack: Timeout 15000ms exceeded.")
  ∧ ¬ single_mutation (demo_browser goBack_fails) rootUrl true.
Proof.
  split_and!.
  - intros b product productSection subSection url st sections groups message.
    apply group_step_goBack_failure.
  - vm_compute. reflexivity.
  - vm_compute. reflexivity.
  - intros H. specialize (H "Marketing" "Heroes" "Hero B").
    vm_compute in H. lia.
Qed.

Lemma goBack_failure_overwrites_content_witness :
  ∃ st',
    group_step (demo_browser goBack_fails) "Marketing" "Heroes"
      ("Hero B", VStr "https://t/hero-b")
      (State [("Marketing", VObj [("Heroes", VObj [("Hero B", VStr "https://t/hero-b")])])] [])
    = (Ok tt, st')
    ∧ writes st'
      = [] ++ [ (["Marketing"; "Heroes"; "Hero B"],
                 VObj (getComponentsAndData
                         (gv_sections (br_group (demo_browser goBack_fails)
                                         "Marketing" "Heroes" "Hero B"))));
                (["Marketing"; "Heroes"; "Hero B"],
                 error_marker "page.goBack: Timeout 15000ms exceeded.") ].
Proof.
  destruct goBack_failure_overwrites_content as [Hstep _].
  apply (Hstep (demo_browser goBack_fails) "Marketing" "Heroes" "Hero B"
           "https://t/hero-b"
           (State [("Marketing", VObj [("Heroes", VObj [("Hero B", VStr "https://t/hero-b")])])] [])
           [("Heroes", VObj [("Hero B", VStr "https://t/hero-b")])]
           [("Hero B", VStr "https://t/hero-b")]
           "page.goBack: Timeout 15000ms exceeded."); reflexivity.
Defined.

End Orchestrator.

(** ** The entry point *)

Section Main.

(** C7. When the first navigation, to the root page, fails, the error
    thrown by [scrapeTailwindPlus] rejects [main]; the rejection is handled
    by [console.error] and the process ends with exit code 0. *)
Theorem root_navigation_failure_exit_code env opts cookies message :
  parseArgs (env_timestamp env) (env_argv env) = Ok opts →
  help opts = false →
  validateInputs env opts = Ok tt →
  handleAuthentication env opts = Ok cookies →
  br_launch (env_browser env) = None →
  (if cookies then br_addCookies (env_browser env) else None) = None →
  br_root_goto (env_browser env) rootUrl = Some message →
  (∃ thrown, main env = Throw thrown) ∧ exit_code env = 0%Z.
Proof.
  intros Hargs Hhelp Hvalid Hauth Hlaunch Hcookies Hroot.
  assert (Hrun : ∃ thrown,
             (run_scrape (env_browser env) rootUrl cookies).1 = Throw thrown).
  { unfold run_scrape, scrapeTailwindPlus. rewrite run_bind, Hlaunch.
    cbn [await]. unfold mret, M_ret, ret, try_finally, try_catch.
    rewrite run_bind.
    assert (Hc : (if cookies then await (br_addCookies (env_browser env))
                  else λ st, (Ok tt, st)) (State [] []) = (Ok tt, State [] [])).
    { destruct cookies; [|done]. by rewrite Hcookies. }
    rewrite Hc, run_bind, Hroot. unfold await, throw, lift.
    destruct (br_close (env_browser env)); by eexists. }
  destruct Hrun as [thrown Hrun].
  assert (Hmain : main env = Throw thrown).
  { unfold main. by rewrite Hargs, Hhelp, Hvalid, Hauth, Hrun. }
  split; [by exists thrown|]. unfold exit_code. by rewrite Hmain.
Qed.

Lemma root_navigation_failure_exit_code_witness :
  exit_code (demo_environment root_unreachable) = 0%Z.
Proof.
  apply (root_navigation_failure_exit_code (demo_environment root_unreachable)
           (Options "./tailwindplus-components-2025-01-01-000000.json"
                    "./cookies.json" false false false)
           true "page.goto: net::ERR_NAME_NOT_RESOLVED");
    reflexivity.
Defined.

(** The claim of a non-zero outcome fails on that run. *)
Lemma root_failure_fatal_counterexample :
  ¬ root_failure_fatal (demo_environment root_unreachable).
Proof.
  intros H.
  apply (H (Options "./tailwindplus-components-2025-01-01-000000.json"
                    "./cookies.json" false false false)
           true "page.goto: net::ERR_NAME_NOT_RESOLVED"); reflexivity.
Qed.

(** Without a cookie file the program exits with code 1. *)
Example no_cookie_file_exit_code :
  exit_code
    {| env_argv := [];
       env_timestamp := "2025-01-01-000000";
       env_dir_ok := λ _, true;
       env_cookie_file := λ _, None;
       env_login := λ _, Ok tt;
       env_browser := demo_browser demo_visit;
       env_write := λ _, None |} = 1%Z.
Proof. reflexivity. Qed.

Example parseArgs_options :
  parseArgs "t" ["--output-path=./out.json=x"; "--debug"]
  = Ok (Options "./out.json" "./cookies.json" false true false).
Proof. reflexivity. Qed.

End Main.

(** * The diff tool *)

Section DiffTool.

Context (sh : shell).

Lemma string_app_not_empty (s : string) c t : s +:+ String c t ≠ EmptyString.
Proof. by destruct s. Qed.

(** [jq -r] ends what it prints with a newline: the file is not empty. *)
Lemma has_content_jq_raw v : has_content (jq_raw sh v) = true.
Proof.
  unfold has_content, jq_raw. rewrite bool_decide_false; [done|].
  apply string_app_not_empty.
Qed.

(** The comparison of a component reports a difference, nothing, or a
    [jq] failure; the three other reports are never made. *)
Lemma compare_component_cases old new category subcategory group component :
  let path := [category; subcategory; group; component] in
  compare_component sh old new category subcategory group component
  ∈ [ [] ; [WarnOld path]; [WarnNew path];
      [DiffWritten path (safe_name sh category subcategory group component)] ].
Proof.
  intros path. unfold compare_component. fold path.
  destruct (jq_path old path) as [v1|]; [|set_solver].
  destruct (jq_path new path) as [v2|]; [|set_solver].
  rewrite !has_content_jq_raw. cbn [andb]. case_bool_decide; set_solver.
Qed.

Lemma compare_component_self tree category subcategory group component :
  Forall (λ e, is_record e = false)
    (compare_component sh tree tree category subcategory group component).
Proof.
  unfold compare_component.
  destruct (jq_path tree _) as [v|]; [|by repeat constructor].
  rewrite !has_content_jq_raw. cbn [andb]. rewrite bool_decide_true by done.
  constructor.
Qed.

(** A property of what every iteration reports holds of what the loop
    reports. *)
Lemma while_read_Forall (Q : event → Prop) items body :
  (∀ x, Forall Q (body x).1) → Forall Q (while_read items body).1.
Proof.
  intros Hbody. induction items as [|x items IH]; [constructor|].
  cbn [while_read]. specialize (Hbody x).
  destruct (body x) as [events completed]. destruct completed; [|done].
  destruct (while_read items body) as [events' completed'].
  cbn in *. by apply Forall_app.
Qed.

Lemma jq_keys_loop_Forall (Q : event → Prop) new path body :
  (∀ x, Forall Q (body x).1) → Forall Q (jq_keys_loop new path body).1.
Proof.
  intros Hbody. unfold jq_keys_loop.
  destruct (jq_path new path) as [v|]; [|constructor].
  destruct (jq_keys v); [|constructor]. by apply while_read_Forall.
Qed.

(** A property of what every comparison reports holds of what the script
    reports. *)
Lemma tailwindplus_diff_Forall (Q : event → Prop) old new :
  (∀ category subcategory group component,
     Forall Q (compare_component sh old new category subcategory group component)) →
  Forall Q (tailwindplus_diff sh old new).1.
Proof.
  intros Hcmp. unfold tailwindplus_diff.
  apply jq_keys_loop_Forall. intros category.
  apply jq_keys_loop_Forall. intros subcategory.
  apply jq_keys_loop_Forall. intros group.
  apply jq_keys_loop_Forall. intros component. apply Hcmp.
Qed.

Lemma filter_nil_Forall (l : list event) :
  Forall (λ e, is_record e = false) l → List.filter is_record l = [].
Proof.
  induction 1 as [|e l He _ IH]; [done|]. cbn. by rewrite He.
Qed.

(** C9. Diffing a tree against itself yields no record: no diff is
    written, and nothing is reported as added or removed. *)
Theorem diff_self_no_record (tree : value) :
  records (tailwindplus_diff sh tree tree) = [].
Proof.
  unfold records. apply filter_nil_Forall.
  apply tailwindplus_diff_Forall. intros category subcategory group component.
  apply compare_component_self.
Qed.

(** C1. With component X in the old tree alone and component Y in the new
    tree alone, the script writes one diff, for Y, against the text [null],
    and reports nothing for X. On any two trees it never reports a
    component as existing in one file only: a component of the old tree
    alone is not visited, a component of the new tree alone is compared
    with [null]. *)
Theorem diff_misses_removed_and_added :
  tailwindplus_diff sh (one_group [("X", "<div>1</div>")])
                       (one_group [("Y", "<div>new</div>")])
  = ([DiffWritten ["A"; "S"; "G"; "Y"] "A_S_G_Y"], true)
  ∧ ¬ reports_removed_and_added sh (one_group [("X", "<div>1</div>")])
                                   (one_group [("Y", "<div>new</div>")])
  ∧ ∀ old new path,
      (OnlyInOld path ∉ (tailwindplus_diff sh old new).1)
      ∧ (OnlyInNew path ∉ (tailwindplus_diff sh old new).1).
Proof.
  assert (Hnever : ∀ old new path,
             (OnlyInOld path ∉ (tailwindplus_diff sh old new).1)
             ∧ (OnlyInNew path ∉ (tailwindplus_diff sh old new).1)).
  { intros old new path.
    assert (Hall : Forall (λ e, e ≠ OnlyInOld path ∧ e ≠ OnlyInNew path)
                     (tailwindplus_diff sh old new).1).
    { apply tailwindplus_diff_Forall. intros category subcategory group component.
      pose proof (compare_component_cases old new category subcategory group component)
        as Hcases. cbv zeta in Hcases.
      rewrite !elem_of_cons, elem_of_nil in Hcases.
      destruct Hcases as [->|[->|[->|[->|[]]]]]; by repeat constructor. }
    rewrite Forall_forall in Hall.
    split; intros Hin; apply Hall in Hin as [? ?]; done. }
  split_and!; [reflexivity| |done].
  intros H. destruct (H "A" "S" "G" "X") as [Hremoved _].
  destruct (Hnever (one_group [("X", "<div>1</div>")])
              (one_group [("Y", "<div>new</div>")]) ["A"; "S"; "G"; "X"]) as [Hold _].
  apply Hold, Hremoved; [by eexists|done].
Qed.

(** The scenario of a modified and an added component: two diffs are
    written, and the added component is not told apart from a modified one. *)
Example diff_modified_and_added :
  tailwindplus_diff sh (one_group [("X", "<div>1</div>")])
                       (one_group [("X", "<div>2</div>"); ("Y", "<div>new</div>")])
  = ([DiffWritten ["A"; "S"; "G"; "X"] "A_S_G_X";
      DiffWritten ["A"; "S"; "G"; "Y"] "A_S_G_Y"], true).
Proof. reflexivity. Qed.

End DiffTool.

(** ** The identifier of a diff file *)

Section SafeName.

Lemma all_chars_app P (s t : string) :
  all_chars P (s +:+ t) = all_chars P s && all_chars P t.
Proof.
  induction s as [|c s IH]; [done|].
  rewrite string_app_cons. cbn. by rewrite IH, andb_assoc.
Qed.

Lemma all_chars_impl (P Q : ascii → bool) s :
  (∀ c, P c = true → Q c = true) → all_chars P s = true → all_chars Q s = true.
Proof.
  intros HPQ. induction s as [|c s IH]; [done|]. cbn.
  intros [Hc Hs]%andb_true_iff. rewrite HPQ, IH; done.
Qed.

Lemma tr_unsafe_id s : all_chars (λ c, negb (unsafe_char c)) s = true → tr_unsafe s = s.
Proof.
  induction s as [|c s IH]; [done|]. cbn.
  intros [Hc Hs]%andb_true_iff. apply negb_true_iff in Hc. by rewrite Hc, IH.
Qed.

Lemma squeeze_id s : no_double s = true → squeeze s = s.
Proof.
  induction s as [|c s IH]; [done|]. cbn [no_double squeeze].
  destruct s as [|c' s']; [done|].
  intros [Hc Hs]%andb_true_iff. apply negb_true_iff in Hc. rewrite Hc.
  by rewrite IH.
Qed.

Lemma strip_leading_id c s :
  c ≠ "."%char → c ≠ "_"%char → strip_leading (String c s) = String c s.
Proof. intros ??. cbn. rewrite bool_decide_false; [done|]. by intros [?|?]. Qed.

Lemma substring_all n s : (String.length s ≤ n)%nat → String.substring 0 n s = s.
Proof.
  revert n. induction s as [|c s IH]; intros [|n]; cbn; try done; [lia|].
  intros Hlen. rewrite IH; [done|lia].
Qed.

Lemma plain_char_safe c : plain_char c = true → negb (unsafe_char c) = true.
Proof. unfold plain_char. by intros [? _]%andb_true_iff. Qed.

Lemma plain_char_not_underscore c : plain_char c = true → c ≠ "_"%char.
Proof.
  unfold plain_char. intros [_ Hc]%andb_true_iff.
  apply negb_true_iff in Hc. by apply bool_decide_eq_false in Hc.
Qed.

Lemma plain_starts_plain a r : plain a → starts_plain (a +:+ r).
Proof.
  intros [Hne Hall]. destruct a as [|c a]; [done|].
  cbn in Hall. apply andb_true_iff in Hall as [Hc _].
  exists c, (a +:+ r). by rewrite string_app_cons.
Qed.

Lemma no_double_plain_app a r :
  all_chars plain_char a = true → no_double r = true → no_double (a +:+ r) = true.
Proof.
  induction a as [|c a IH]; [done|]. cbn [all_chars].
  intros [Hc Ha]%andb_true_iff Hr. rewrite string_app_cons.
  cbn [no_double]. rewrite (IH Ha Hr).
  destruct (a +:+ r); [done|].
  rewrite bool_decide_false; [done|].
  intros [? _]. by apply plain_char_not_underscore in Hc.
Qed.

Lemma no_double_underscore r :
  starts_plain r → no_double r = true → no_double (String "_"%char r) = true.
Proof.
  intros (c & r' & -> & Hc) Hr. cbn [no_double] in *. rewrite Hr.
  rewrite bool_decide_false; [done|].
  intros [_ ?]. by apply plain_char_not_underscore in Hc.
Qed.

Lemma joined_unfold a b c d :
  joined a b c d
  = a +:+ String "_"%char (b +:+ String "_"%char (c +:+ String "_"%char d)).
Proof. reflexivity. Qed.

Lemma no_double_joined a b c d :
  plain a → plain b → plain c → plain d → no_double (joined a b c d) = true.
Proof.
  intros Ha Hb Hc Hd. rewrite joined_unfold.
  assert (Hd' : no_double d = true).
  { rewrite <- (string_app_nil_r d). by apply no_double_plain_app; [apply Hd|]. }
  apply no_double_plain_app; [apply Ha|].
  apply no_double_underscore; [by apply plain_starts_plain|].
  apply no_double_plain_app; [apply Hb|].
  apply no_double_underscore; [by apply plain_starts_plain|].
  apply no_double_plain_app; [apply Hc|].
  apply no_double_underscore; [|done].
  rewrite <- (string_app_nil_r d). by apply plain_starts_plain.
Qed.

Lemma safe_joined a b c d :
  plain a → plain b → plain c → plain d →
  all_chars (λ x, negb (unsafe_char x)) (joined a b c d) = true.
Proof.
  intros [_ Ha] [_ Hb] [_ Hc] [_ Hd]. rewrite joined_unfold.
  assert (Hsafe : ∀ s, all_chars plain_char s = true →
                       all_chars (λ x, negb (unsafe_char x)) s = true).
  { intros s. apply all_chars_impl, plain_char_safe. }
  rewrite all_chars_app. cbn [all_chars].
  rewrite all_chars_app. cbn [all_chars].
  rewrite all_chars_app. cbn [all_chars].
  by rewrite !Hsafe.
Qed.

(** The pipeline leaves the joined text of a plain path as it is. *)
Lemma sanitize_plain_path a b c d :
  plain_path (a, b, c, d) → sanitize (joined a b c d) = joined a b c d.
Proof.
  intros (Ha & Hb & Hc & Hd & Hdot & Hlen). unfold sanitize, cut_200.
  rewrite tr_unsafe_id by (by apply safe_joined).
  rewrite squeeze_id by (by apply no_double_joined).
  destruct (plain_starts_plain a
              (String "_"%char (b +:+ String "_"%char (c +:+ String "_"%char d))) Ha)
    as (x & s' & Hs & Hx).
  rewrite <- joined_unfold in Hs. rewrite Hs in *.
  rewrite strip_leading_id.
  - by apply substring_all.
  - intros ->. destruct a as [|y a]; [by destruct Ha|].
    rewrite joined_unfold, string_app_cons in Hs. injection Hs as -> _.
    cbn in Hdot. by destruct a.
  - by apply plain_char_not_underscore.
Qed.

(** The first underscore of a text that starts with a plain component ends
    that component. *)
Lemma cut_at_underscore a a' r r' :
  all_chars plain_char a = true → all_chars plain_char a' = true →
  a +:+ String "_"%char r = a' +:+ String "_"%char r' → a = a' ∧ r = r'.
Proof.
  revert a'. induction a as [|x a IH]; intros [|x' a'] Ha Ha'.
  - by intros [= ->].
  - rewrite string_app_cons. intros [= <- _]. cbn in Ha'.
    apply andb_true_iff in Ha' as [Hx _]. by apply plain_char_not_underscore in Hx.
  - rewrite string_app_cons. intros [= -> _]. cbn in Ha.
    apply andb_true_iff in Ha as [Hx _]. by apply plain_char_not_underscore in Hx.
  - rewrite !string_app_cons. intros [= -> Heq]. cbn in Ha, Ha'.
    apply andb_true_iff in Ha as [_ Ha]. apply andb_true_iff in Ha' as [_ Ha'].
    destruct (IH a' Ha Ha' Heq) as [-> ->]. done.
Qed.

Lemma joined_inj a b c d a' b' c' d' :
  plain a → plain b → plain c → plain a' → plain b' → plain c' →
  joined a b c d = joined a' b' c' d' → (a, b, c, d) = (a', b', c', d').
Proof.
  intros [_ Ha] [_ Hb] [_ Hc] [_ Ha'] [_ Hb'] [_ Hc']. rewrite !joined_unfold.
  intros [-> H1]%cut_at_underscore; [|done..].
  apply cut_at_underscore in H1 as [-> H2]; [|done..].
  apply cut_at_underscore in H2 as [-> ->]; done.
Qed.

(** C6 (amended). Two distinct paths whose components are not empty and
    hold neither a character that the pipeline replaces nor the separator,
    whose category does not start with a dot and whose joined text has at
    most 200 characters, get distinct identifiers, when neither falls into
    the fallback case. *)
Theorem safe_name_injective_on_plain_paths sh (p q : node_path) :
  plain_path p → plain_path q →
  in_fallback p = false → in_fallback q = false →
  p ≠ q → identifier sh p ≠ identifier sh q.
Proof.
  destruct p as [[[a b] c] d], q as [[[a' b'] c'] d'].
  intros Hp Hq Hfp Hfq Hne Heq. apply Hne.
  unfold identifier, safe_name, in_fallback in *.
  rewrite Hfp, Hfq in Heq.
  rewrite !sanitize_plain_path in Heq by done.
  destruct Hp as (? & ? & ? & _), Hq as (? & ? & ? & _).
  by apply joined_inj.
Qed.

Lemma safe_name_injective_on_plain_paths_witness :
  identifier (Shell (λ _, "{}") (λ _, "1700000000") "4242")
    ("Marketing", "Page-Sections", "Heroes", "Simple-centered")
  ≠ identifier (Shell (λ _, "{}") (λ _, "1700000000") "4242")
      ("Marketing", "Page-Sections", "Heroes", "Split-with-image").
Proof.
  apply (safe_name_injective_on_plain_paths
           (Shell (λ _, "{}") (λ _, "1700000000") "4242")
           ("Marketing", "Page-Sections", "Heroes", "Simple-centered")
           ("Marketing", "Page-Sections", "Heroes", "Split-with-image")).
  - unfold plain_path, plain. split_and!; try done. vm_compute. lia.
  - unfold plain_path, plain. split_and!; try done. vm_compute. lia.
  - reflexivity.
  - reflexivity.
  - intros Heq. discriminate Heq.
Defined.

(** C6, as stated, fails: a space and an underscore give the same
    identifier, and so do a separator inside a component and the separator
    between two components. *)
Lemma sanitized_injective_counterexample : ¬ sanitized_injective.
Proof.
  intros H.
  assert (Hne : (("Application UI", "Forms", "Input Groups", "Input with label")
                 : node_path)
                ≠ ("Application_UI", "Forms", "Input_Groups", "Input with label"))
    by (intros Heq; discriminate Heq).
  refine (H (Shell (λ _, "{}") (λ _, "1700000000") "4242") _ _ Hne _ _ _);
    vm_compute; reflexivity.
Qed.

(** The fallback name is built from the second and the process: two
    components that fall back within the same second of a run share it. *)
Example fallback_collision :
  identifier (Shell (λ _, "{}") (λ _, "1700000000") "4242") ("-", ".", "-", "-")
  = identifier (Shell (λ _, "{}") (λ _, "1700000000") "4242") (".", "", "", "").
Proof. vm_compute. reflexivity. Qed.

Example safe_name_collisions sh :
  safe_name sh "Application UI" "Forms" "Input Groups" "Input with label"
  = "Application_UI_Forms_Input_Groups_Input_with_label"
  ∧ safe_name sh "Application_UI" "Forms" "Input_Groups" "Input with label"
    = "Application_UI_Forms_Input_Groups_Input_with_label"
  ∧ safe_name sh "A" "B_C" "D" "E" = safe_name sh "A_B" "C" "D" "E".
Proof. split_and!; reflexivity. Qed.

End SafeName.

(** * Further properties *)

(** ** The diff tool: reading the keys *)

Section ReadKeys.

Lemma read_lines_no_newline (s : string) :
  all_chars line_char s = true →
  ∀ cur rest,
    read_lines cur (s +:+ String LF rest)
    = trim_ifs (cur +:+ s) :: read_lines EmptyString rest.
Proof.
  induction s as [|c s IH]; intros Hs cur rest.
  - change (EmptyString +:+ String LF rest) with (String LF rest).
    cbn [read_lines]. rewrite decide_True by done. by rewrite string_app_nil_r.
  - cbn [all_chars] in Hs. apply andb_true_iff in Hs as [Hc Hs].
    unfold line_char in Hc. apply andb_true_iff in Hc as [Hlf Hnul].
    apply negb_true_iff, bool_decide_eq_false in Hlf.
    apply negb_true_iff, bool_decide_eq_false in Hnul.
    rewrite string_app_cons. cbn [read_lines]. rewrite !decide_False by done.
    rewrite (IH Hs). by rewrite string_app_assoc.
Qed.

Lemma read_lines_clean_keys (keys : list string) :
  Forall clean_key keys → read_lines EmptyString (printed_keys keys) = keys.
Proof.
  induction 1 as [|k keys [Hk Htrim] _ IH]; [done|].
  cbn [printed_keys foldr]. rewrite (read_lines_no_newline k Hk).
  change (EmptyString +:+ k) with k. rewrite Htrim. f_equal. apply IH.
Qed.

(** The lines of a text whose first part ends a line are those of the first
    part, then those of the rest. *)
Lemma read_lines_app (s : string) :
  ∀ cur rest,
    read_lines cur (s +:+ String LF rest)
    = read_lines cur (s +:+ String LF EmptyString) ++ read_lines EmptyString rest.
Proof.
  induction s as [|c s IH]; intros cur rest.
  - change (EmptyString +:+ String LF rest) with (String LF rest).
    change (EmptyString +:+ String LF EmptyString) with (String LF EmptyString).
    cbn [read_lines]. by rewrite !decide_True.
  - rewrite !string_app_cons. cbn [read_lines].
    destruct (decide (c = LF)); [|destruct (decide (c = NUL)); apply IH].
    cbn [app]. f_equal. apply IH.
Qed.

Lemma read_lines_clean_member (k : string) (keys : list string) :
  clean_key k → k ∈ keys → k ∈ read_lines EmptyString (printed_keys keys).
Proof.
  intros [Hk Htrim]. induction keys as [|k' keys IH]; intros Hin.
  - by apply elem_of_nil in Hin.
  - cbn [printed_keys foldr]. apply elem_of_cons in Hin as [<-|Hin].
    + rewrite (read_lines_no_newline k Hk).
      change (EmptyString +:+ k) with k. rewrite Htrim. by left.
    + rewrite read_lines_app. apply elem_of_app. right. by apply IH.
Qed.

(** X1. Round trip of the key lists: when no key holds a newline or a NUL
    byte or has a blank at either end, the loop [while read -r] gets back
    exactly the keys that [jq] printed, in the same order. Whatever the other
    keys are, a key of that kind is among the values the loop reads. *)
Theorem read_lines_printed_keys (keys : list string) :
  (Forall clean_key keys → read_lines EmptyString (printed_keys keys) = keys)
  ∧ (∀ k, clean_key k → k ∈ keys →
          k ∈ read_lines EmptyString (printed_keys keys)).
Proof.
  split.
  - apply read_lines_clean_keys.
  - intros k. apply read_lines_clean_member.
Qed.

Lemma read_lines_printed_keys_witness :
  read_lines EmptyString (printed_keys ["Application UI"; "Marketing"])
  = ["Application UI"; "Marketing"]
  ∧ "Marketing" ∈ read_lines EmptyString (printed_keys [" x "; "Marketing"]).
Proof.
  split.
  - apply (read_lines_printed_keys ["Application UI"; "Marketing"]).
    repeat constructor.
  - apply (read_lines_printed_keys [" x "; "Marketing"]).
    + by split.
    + apply list_elem_of_In. simpl. tauto.
Defined.

(** A NUL byte of a key is lost on the way: the keys [a NUL b] and [ab] are
    both read as [ab]. *)
Example read_drops_nul :
  read_lines EmptyString (printed_keys [String "a" (String NUL "b"); "ab"])
  = ["ab"; "ab"].
Proof. reflexivity. Qed.

End ReadKeys.

(** ** The diff tool: the loops on a well-formed file *)

Section DiffLoops.

Context (sh : shell).

Lemma jq_path_snoc file path k :
  jq_path file (path ++ [k])
  = match jq_path file path with
    | Some v => jq_index v k
    | None => None
    end.
Proof. unfold jq_path. by rewrite foldl_app. Qed.

Lemma elem_of_sorted_keys (k : string) (members : obj) :
  k ∈ sorted_keys members ↔ k ∈ obj_keys members.
Proof.
  unfold sorted_keys, array_sort.
  rewrite (merge_sort_Permutation String.le). apply elem_of_remove_dups.
Qed.

Lemma obj_get_is_Some (k : string) (members : obj) :
  k ∈ obj_keys members → ∃ v, obj_get k members = Some v ∧ (k, v) ∈ members.
Proof.
  intros Hk. destruct (obj_get k members) as [v|] eqn:Hget.
  - exists v. split; [done|]. by apply obj_get_elem_of.
  - by apply obj_get_None in Hget.
Qed.

Lemma obj_get_in_keys (k : string) v (members : obj) :
  obj_get k members = Some v → k ∈ obj_keys members.
Proof.
  intros Hget. apply obj_get_elem_of in Hget.
  unfold obj_keys. apply list_elem_of_fmap. by exists (k, v).
Qed.

(** A loop whose iterations all reach their end reaches its end, having
    reported what the iterations reported, in order. *)
Lemma while_read_complete items body (events : string → list event) :
  (∀ x, x ∈ items → body x = (events x, true)) →
  while_read items body = (x ← items; events x, true).
Proof.
  induction items as [|x items IH]; intros Hbody; [done|].
  cbn [while_read]. rewrite (Hbody x) by (by left).
  rewrite IH by (intros y Hy; apply Hbody; by right). done.
Qed.

(** A loop with an iteration that stops the script does not reach its end. *)
Lemma while_read_aborts items body x :
  x ∈ items → (body x).2 = false → (while_read items body).2 = false.
Proof.
  induction items as [|y items IH]; intros Hx Hbody.
  - by apply elem_of_nil in Hx.
  - cbn [while_read]. destruct (body y) as [events completed] eqn:Hy.
    destruct completed; [|done].
    apply elem_of_cons in Hx as [->|Hx]; [by rewrite Hy in Hbody|].
    specialize (IH Hx Hbody). by destruct (while_read items body).
Qed.

(** One level of the loops on an object with clean keys. *)
Lemma jq_keys_loop_clean new path members body (events : string → list event) :
  jq_path new path = Some (Some (VObj members)) →
  Forall (λ kv, clean_key kv.1) members →
  (∀ k, k ∈ obj_keys members → body k = (events k, true)) →
  jq_keys_loop new path body = (k ← sorted_keys members; events k, true).
Proof.
  intros Hpath Hclean Hbody. unfold jq_keys_loop. rewrite Hpath. cbn [jq_keys].
  fold (sorted_keys members). fold (printed_keys (sorted_keys members)).
  rewrite read_lines_clean_keys.
  - apply while_read_complete. intros k Hk. apply Hbody. by apply elem_of_sorted_keys.
  - apply Forall_forall. intros k [v [_ Hkv]]%elem_of_sorted_keys%obj_get_is_Some.
    by apply (proj1 (Forall_forall _ _) Hclean (k, v)).
Qed.

Lemma clean_object_members P v :
  clean_object P v →
  ∃ members, v = VObj members
             ∧ Forall (λ kv, clean_key kv.1) members
             ∧ ∀ k, k ∈ obj_keys members →
                    ∃ w, obj_get k members = Some w ∧ P w.
Proof.
  intros (members & -> & Hall). exists members. split_and!; [done|..].
  - eapply Forall_impl; [done|]. by intros kv [? _].
  - intros k (w & Hget & Hin)%obj_get_is_Some. exists w. split; [done|].
    by apply (proj1 (Forall_forall _ _) Hall (k, w)).
Qed.

Lemma level_step new path members k (P : value → Prop) :
  jq_path new path = Some (Some (VObj members)) →
  k ∈ obj_keys members →
  (∀ k, k ∈ obj_keys members → ∃ w, obj_get k members = Some w ∧ P w) →
  ∃ w, jq_path new (path ++ [k]) = Some (Some w) ∧ P w.
Proof.
  intros Hpath Hk Hall. destruct (Hall k Hk) as (w & Hget & Hw).
  exists w. split; [|done]. rewrite jq_path_snoc, Hpath. cbn [jq_index]. by rewrite Hget.
Qed.

(** On a well-formed new file the script reaches its end, and reports the
    comparisons of the components of the new file, each level in the order
    of its sorted keys. *)
Lemma tailwindplus_diff_wf old new :
  catalog_wf new →
  tailwindplus_diff sh old new = (compare_all sh old new, true).
Proof.
  intros (m0 & Hnew & Hclean0 & Hall0)%clean_object_members.
  assert (H0 : jq_path new [] = Some (Some (VObj m0))) by (by rewrite Hnew).
  unfold tailwindplus_diff, compare_all, members_at. rewrite H0.
  apply jq_keys_loop_clean with (members := m0); [done|done|].
  intros c Hc.
  destruct (level_step new [] m0 c _ H0 Hc Hall0) as (w1 & H1 & Hw1).
  apply clean_object_members in Hw1 as (m1 & -> & Hclean1 & Hall1).
  cbn [app] in H1. rewrite H1.
  apply jq_keys_loop_clean with (members := m1); [done|done|].
  intros s Hs.
  destruct (level_step new [c] m1 s _ H1 Hs Hall1) as (w2 & H2 & Hw2).
  apply clean_object_members in Hw2 as (m2 & -> & Hclean2 & Hall2).
  cbn [app] in H2. rewrite H2.
  apply jq_keys_loop_clean with (members := m2); [done|done|].
  intros g Hg.
  destruct (level_step new [c; s] m2 g _ H2 Hg Hall2) as (w3 & H3 & Hw3).
  apply clean_object_members in Hw3 as (m3 & -> & Hclean3 & _).
  cbn [app] in H3. rewrite H3.
  apply jq_keys_loop_clean with (members := m3); [done|done|].
  done.
Qed.

(** X2. On a new file with four levels of objects under clean keys the
    script reaches its end, whatever the old file holds, and reports exactly
    the comparisons of the components of the new file, each level taken in
    the order of its sorted keys. *)
Theorem tailwindplus_diff_on_wf_file old new :
  catalog_wf new →
  tailwindplus_diff sh old new = (compare_all sh old new, true).
Proof. intros Hwf. by apply tailwindplus_diff_wf. Qed.

Lemma jq_path_snoc_value file path k w :
  jq_path file (path ++ [k]) = Some (Some w) →
  ∃ members, jq_path file path = Some (Some (VObj members))
             ∧ obj_get k members = Some w.
Proof.
  rewrite jq_path_snoc. destruct (jq_path file path) as [[[u|members]|]|]; try done.
  cbn [jq_index]. intros [= Hget]. by exists members.
Qed.

Lemma sorted_keys_at file path k w :
  jq_path file (path ++ [k]) = Some (Some w) →
  k ∈ sorted_keys (members_at file path).
Proof.
  intros (members & Hpath & Hget)%jq_path_snoc_value.
  unfold members_at. rewrite Hpath. apply elem_of_sorted_keys.
  by eapply obj_get_in_keys.
Qed.

(** Every component with a value in the new file is compared. *)
Lemma compare_all_member old new c s g x w e :
  jq_path new [c; s; g; x] = Some (Some w) →
  e ∈ compare_component sh old new c s g x →
  e ∈ compare_all sh old new.
Proof.
  intros H4 He.
  destruct (jq_path_snoc_value new [c; s; g] x w H4) as (m3 & H3 & _).
  destruct (jq_path_snoc_value new [c; s] g _ H3) as (m2 & H2 & _).
  destruct (jq_path_snoc_value new [c] s _ H2) as (m1 & H1 & _).
  unfold compare_all.
  apply list_elem_of_bind. exists c. split; [|by eapply (sorted_keys_at new [])].
  apply list_elem_of_bind. exists s. split; [|by eapply (sorted_keys_at new [c])].
  apply list_elem_of_bind. exists g. split; [|by eapply (sorted_keys_at new [c; s])].
  apply list_elem_of_bind. exists x. split; [done|].
  by eapply (sorted_keys_at new [c; s; g]).
Qed.

Lemma compare_component_path old new c s g x e :
  e ∈ compare_component sh old new c s g x → event_path e = [c; s; g; x].
Proof.
  intros He.
  pose proof (compare_component_cases sh old new c s g x) as Hcases.
  cbv zeta in Hcases. rewrite !elem_of_cons, elem_of_nil in Hcases.
  destruct Hcases as [Heq|[Heq|[Heq|[Heq|[]]]]]; rewrite Heq in He.
  - by apply elem_of_nil in He.
  - by apply list_elem_of_singleton in He as ->.
  - by apply list_elem_of_singleton in He as ->.
  - by apply list_elem_of_singleton in He as ->.
Qed.

Lemma compare_all_inv old new e :
  e ∈ compare_all sh old new →
  ∃ c s g x, e ∈ compare_component sh old new c s g x.
Proof.
  unfold compare_all.
  intros (c & (s & (g & (x & He & _)%list_elem_of_bind & _)%list_elem_of_bind
                & _)%list_elem_of_bind & _)%list_elem_of_bind.
  by exists c, s, g, x.
Qed.

Lemma jq_raw_string_inj a b :
  jq_raw sh (Some (VStr a)) = jq_raw sh (Some (VStr b)) → a = b.
Proof.
  unfold jq_raw. revert b. induction a as [|c a IH]; intros [|d b]; try done.
  - change (EmptyString +:+ String LF EmptyString) with (String LF EmptyString).
    rewrite string_app_cons. intros [= <- Hb]. by destruct b.
  - change (EmptyString +:+ String LF EmptyString) with (String LF EmptyString).
    rewrite string_app_cons. intros [= -> Ha]. by destruct a.
  - rewrite !string_app_cons. intros [= -> Heq]. f_equal. by apply IH.
Qed.

Lemma leaf_jq_path tree path content :
  leaf tree path = Some content → jq_path tree path = Some (Some (VStr content)).
Proof.
  unfold leaf. destruct (jq_path tree path) as [[[u|o]|]|]; try done.
  by intros [= ->].
Qed.

(** X3. On a well-formed new file, a component that is a string in
    both files has a diff written for it exactly when the two strings
    differ. *)
Theorem diff_written_iff_modified old new c s g x a b :
  catalog_wf new →
  leaf old [c; s; g; x] = Some a →
  leaf new [c; s; g; x] = Some b →
  DiffWritten [c; s; g; x] (safe_name sh c s g x) ∈ (tailwindplus_diff sh old new).1
  ↔ a ≠ b.
Proof.
  intros Hwf Hold%leaf_jq_path Hnew%leaf_jq_path.
  rewrite tailwindplus_diff_wf by done. cbn [fst].
  assert (Hcmp : compare_component sh old new c s g x
                 = if bool_decide (jq_raw sh (Some (VStr a)) = jq_raw sh (Some (VStr b)))
                   then [] else [DiffWritten [c; s; g; x] (safe_name sh c s g x)]).
  { unfold compare_component. rewrite Hold, Hnew. by rewrite !has_content_jq_raw. }
  split.
  - intros (c' & s' & g' & x' & He)%compare_all_inv.
    pose proof (compare_component_path _ _ _ _ _ _ _ He) as [= <- <- <- <-].
    rewrite Hcmp in He. case_bool_decide as Hraw; [by apply elem_of_nil in He|].
    intros ->. by apply Hraw.
  - intros Hne. eapply compare_all_member; [done|]. rewrite Hcmp.
    rewrite bool_decide_false; [by left|]. by intros ?%jq_raw_string_inj.
Qed.

Lemma sorted_keys_NoDup members : NoDup (sorted_keys members).
Proof.
  unfold sorted_keys, array_sort. rewrite (merge_sort_Permutation String.le).
  apply NoDup_remove_dups.
Qed.

Lemma compare_component_NoDup old new c s g x :
  NoDup (compare_component sh old new c s g x).
Proof.
  pose proof (compare_component_cases sh old new c s g x) as Hcases.
  cbv zeta in Hcases. rewrite !elem_of_cons, elem_of_nil in Hcases.
  destruct Hcases as [->|[->|[->|[->|[]]]]];
    [apply NoDup_nil_2|apply NoDup_singleton..].
Qed.

(** No event is reported twice by the comparisons of the new file. *)
Lemma compare_all_NoDup old new : NoDup (compare_all sh old new).
Proof.
  unfold compare_all.
  apply NoDup_bind; [|intros c _|apply sorted_keys_NoDup].
  { intros c1 c2 e _ _.
    intros (s1 & (g1 & (x1 & H1%compare_component_path & _)%list_elem_of_bind
                  & _)%list_elem_of_bind & _)%list_elem_of_bind.
    intros (s2 & (g2 & (x2 & H2%compare_component_path & _)%list_elem_of_bind
                  & _)%list_elem_of_bind & _)%list_elem_of_bind.
    congruence. }
  apply NoDup_bind; [|intros s _|apply sorted_keys_NoDup].
  { intros s1 s2 e _ _.
    intros (g1 & (x1 & H1%compare_component_path & _)%list_elem_of_bind
            & _)%list_elem_of_bind.
    intros (g2 & (x2 & H2%compare_component_path & _)%list_elem_of_bind
            & _)%list_elem_of_bind.
    congruence. }
  apply NoDup_bind; [|intros g _|apply sorted_keys_NoDup].
  { intros g1 g2 e _ _.
    intros (x1 & H1%compare_component_path & _)%list_elem_of_bind.
    intros (x2 & H2%compare_component_path & _)%list_elem_of_bind.
    congruence. }
  apply NoDup_bind; [|intros x _; apply compare_component_NoDup|apply sorted_keys_NoDup].
  intros x1 x2 e _ _ H1%compare_component_path H2%compare_component_path.
  congruence.
Qed.

Lemma compare_component_unique old new c s g x e1 e2 :
  e1 ∈ compare_component sh old new c s g x →
  e2 ∈ compare_component sh old new c s g x →
  e1 = e2.
Proof.
  pose proof (compare_component_cases sh old new c s g x) as Hcases.
  cbv zeta in Hcases. rewrite !elem_of_cons, elem_of_nil in Hcases.
  destruct Hcases as [->|[->|[->|[->|[]]]]];
    rewrite ?elem_of_nil, ?list_elem_of_singleton; [done|congruence..].
Qed.

(** X4. On a well-formed new file no component is reported twice: no two
    events of a run are about the same component, so that each component
    gets at most one event and at most one diff file. *)
Theorem tailwindplus_diff_NoDup old new :
  catalog_wf new → NoDup (event_path <$> (tailwindplus_diff sh old new).1).
Proof.
  intros Hwf. rewrite tailwindplus_diff_wf by done. cbn [fst].
  apply NoDup_fmap_2_strong; [|apply compare_all_NoDup].
  intros e1 e2 (c1 & s1 & g1 & x1 & H1)%compare_all_inv
               (c2 & s2 & g2 & x2 & H2)%compare_all_inv Hpath.
  pose proof (compare_component_path _ _ _ _ _ _ _ H1) as Hp1.
  pose proof (compare_component_path _ _ _ _ _ _ _ H2) as Hp2.
  rewrite Hp1, Hp2 in Hpath. injection Hpath as -> -> -> ->.
  by eapply compare_component_unique.
Qed.

(** With keys that [read] changes the same component can be compared twice:
    the keys [X] and [ X] of the new file are both read as [X]. *)
Example unclean_keys_duplicate_reports :
  tailwindplus_diff sh (one_group [("X", "<div>1</div>")])
                       (one_group [("X", "<div>2</div>"); (" X", "<div>3</div>")])
  = ([DiffWritten ["A"; "S"; "G"; "X"] "A_S_G_X";
      DiffWritten ["A"; "S"; "G"; "X"] "A_S_G_X"], true).
Proof. reflexivity. Qed.

(** A string under a key that holds a NUL byte does not stop the script: the
    key is read without the byte, here as the key of an empty category. *)
Example nul_key_string_not_met :
  tailwindplus_diff sh (VObj [])
    (VObj [(String "a" (String NUL "b"), VStr "text"); ("ab", VObj [])])
  = ([], true).
Proof. reflexivity. Qed.

(** A string met before the end of the path makes [jq] fail; nothing else
    does: a missing member gives [null]. *)
Lemma jq_path_error file path :
  jq_path file path = None
  ↔ ∃ before k after content,
      path = before ++ k :: after
      ∧ jq_path file before = Some (Some (VStr content)).
Proof.
  induction path as [|k path IH] using rev_ind.
  - split; [done|]. intros (before & k & after & content & Heq & _).
    by destruct before.
  - rewrite jq_path_snoc. split.
    + destruct (jq_path file path) as [[[content|members]|]|] eqn:Hpath; try done.
      * intros _. by exists path, k, [], content.
      * intros _. destruct (proj1 IH eq_refl)
          as (before & k' & after & content & -> & Hbefore).
        exists before, k', (after ++ [k]), content. split; [|done].
        by rewrite <- app_assoc.
    + intros (before & k' & after & content & Heq & Hbefore).
      destruct after as [|a after _] using rev_ind.
      * apply app_inj_tail in Heq as [-> ->]. by rewrite Hbefore.
      * rewrite app_comm_cons, app_assoc in Heq.
        apply app_inj_tail in Heq as [-> ->].
        assert (jq_path file (before ++ k' :: after) = None) as ->; [|done].
        apply IH. by exists before, k', after, content.
Qed.

(** X5. The warning about the old file is given for a component
    exactly when the old file holds a string at the root or at one of the
    keys above the component; a member that is missing gives [null] and no
    warning. *)
Theorem warn_old_iff_string_above old new c s g x :
  WarnOld [c; s; g; x] ∈ compare_component sh old new c s g x
  ↔ ∃ before k after content,
      [c; s; g; x] = before ++ k :: after
      ∧ jq_path old before = Some (Some (VStr content)).
Proof.
  rewrite <- jq_path_error. unfold compare_component.
  destruct (jq_path old [c; s; g; x]) as [v1|]; [|split; [done|by left]].
  split; [|done]. intros Hin. exfalso.
  destruct (jq_path new [c; s; g; x]) as [v2|].
  - rewrite !has_content_jq_raw in Hin. cbn [andb] in Hin.
    case_bool_decide; [by apply elem_of_nil in Hin|].
    by apply list_elem_of_singleton in Hin.
  - by apply list_elem_of_singleton in Hin.
Qed.

Lemma jq_keys_loop_aborts new path members k body :
  jq_path new path = Some (Some (VObj members)) →
  k ∈ obj_keys members → clean_key k →
  (body k).2 = false → (jq_keys_loop new path body).2 = false.
Proof.
  intros Hpath Hk Hclean Hbody. unfold jq_keys_loop. rewrite Hpath. cbn [jq_keys].
  apply while_read_aborts with (x := k); [|done].
  apply read_lines_clean_member; [done|]. by apply elem_of_sorted_keys.
Qed.

Lemma jq_keys_loop_string new path content body :
  jq_path new path = Some (Some (VStr content)) →
  (jq_keys_loop new path body).2 = false.
Proof. intros Hpath. unfold jq_keys_loop. by rewrite Hpath. Qed.

Lemma tailwindplus_diff_string_above old new path content :
  (length path ≤ 3)%nat →
  Forall clean_key path →
  jq_path new path = Some (Some (VStr content)) →
  (tailwindplus_diff sh old new).2 = false.
Proof.
  intros Hlen Hclean Hpath. unfold tailwindplus_diff.
  destruct path as [|c [|s [|g [|x path]]]]; [..|simpl in Hlen; lia].
  - by eapply jq_keys_loop_string.
  - destruct (jq_path_snoc_value new [] c _ Hpath) as (m0 & H0 & Hc).
    apply Forall_cons in Hclean as [Hcc _].
    eapply jq_keys_loop_aborts; [done|by eapply obj_get_in_keys|done|].
    by eapply jq_keys_loop_string.
  - destruct (jq_path_snoc_value new [c] s _ Hpath) as (m1 & H1 & Hs).
    destruct (jq_path_snoc_value new [] c _ H1) as (m0 & H0 & Hc).
    apply Forall_cons in Hclean as [Hcc Hclean].
    apply Forall_cons in Hclean as [Hcs _].
    eapply jq_keys_loop_aborts; [done|by eapply obj_get_in_keys|done|].
    eapply jq_keys_loop_aborts; [done|by eapply obj_get_in_keys|done|].
    by eapply jq_keys_loop_string.
  - destruct (jq_path_snoc_value new [c; s] g _ Hpath) as (m2 & H2 & Hg).
    destruct (jq_path_snoc_value new [c] s _ H2) as (m1 & H1 & Hs).
    destruct (jq_path_snoc_value new [] c _ H1) as (m0 & H0 & Hc).
    apply Forall_cons in Hclean as [Hcc Hclean].
    apply Forall_cons in Hclean as [Hcs Hclean].
    apply Forall_cons in Hclean as [Hcg _].
    eapply jq_keys_loop_aborts; [done|by eapply obj_get_in_keys|done|].
    eapply jq_keys_loop_aborts; [done|by eapply obj_get_in_keys|done|].
    eapply jq_keys_loop_aborts; [done|by eapply obj_get_in_keys|done|].
    by eapply jq_keys_loop_string.
Qed.

(** X6. A string above the component level of the new file, under clean
    keys, stops the script before its end: so does the error marker of a
    product, whose message is a string at the level of the subcategories. *)
Theorem string_above_components_stops_script old new path content :
  (length path ≤ 3)%nat →
  Forall clean_key path →
  jq_path new path = Some (Some (VStr content)) →
  (tailwindplus_diff sh old new).2 = false.
Proof. apply tailwindplus_diff_string_above. Qed.

End DiffLoops.

Lemma diff_written_iff_modified_witness :
  DiffWritten ["A"; "S"; "G"; "X"]
    (safe_name (Shell (λ _, "{}") (λ _, "1700000000") "4242") "A" "S" "G" "X")
  ∈ (tailwindplus_diff (Shell (λ _, "{}") (λ _, "1700000000") "4242")
       (one_group [("X", "<div>1</div>")])
       (one_group [("X", "<div>2</div>"); ("Y", "<div>new</div>")])).1.
Proof.
  apply (diff_written_iff_modified
           (Shell (λ _, "{}") (λ _, "1700000000") "4242")
           (one_group [("X", "<div>1</div>")])
           (one_group [("X", "<div>2</div>"); ("Y", "<div>new</div>")])
           "A" "S" "G" "X" "<div>1</div>" "<div>2</div>").
  - unfold catalog_wf, clean_object, one_group.
    eexists. split; [reflexivity|]. repeat constructor.
    eexists. split; [reflexivity|]. repeat constructor.
    eexists. split; [reflexivity|]. repeat constructor.
    eexists. split; [reflexivity|]. repeat constructor.
  - reflexivity.
  - reflexivity.
  - intros Heq. discriminate Heq.
Defined.

Lemma tailwindplus_diff_NoDup_witness :
  NoDup (event_path
           <$> (tailwindplus_diff (Shell (λ _, "{}") (λ _, "1700000000") "4242")
                  (one_group [("X", "<div>1</div>")])
                  (one_group [("X", "<div>2</div>"); ("Y", "<div>new</div>")])).1).
Proof.
  apply (tailwindplus_diff_NoDup (Shell (λ _, "{}") (λ _, "1700000000") "4242")).
  unfold catalog_wf, clean_object, one_group.
  eexists. split; [reflexivity|]. repeat constructor.
  eexists. split; [reflexivity|]. repeat constructor.
  eexists. split; [reflexivity|]. repeat constructor.
  eexists. split; [reflexivity|]. repeat constructor.
Defined.

Lemma string_above_components_stops_script_witness :
  (tailwindplus_diff (Shell (λ _, "{}") (λ _, "1700000000") "4242")
     (one_group [("X", "<div>1</div>")])
     (VObj [("Ecommerce", error_marker "page.goto: Timeout 30000ms exceeded.");
            ("Marketing", VObj [])])).2 = false.
Proof.
  apply (string_above_components_stops_script
           (Shell (λ _, "{}") (λ _, "1700000000") "4242")
           (one_group [("X", "<div>1</div>")])
           (VObj [("Ecommerce", error_marker "page.goto: Timeout 30000ms exceeded.");
                  ("Marketing", VObj [])])
           ["Ecommerce"; "error"] "page.goto: Timeout 30000ms exceeded.").
  - simpl. lia.
  - repeat constructor.
  - reflexivity.
Defined.

Lemma tailwindplus_diff_on_wf_file_witness :
  tailwindplus_diff (Shell (λ _, "{}") (λ _, "1700000000") "4242")
    (one_group [("X", "<div>1</div>")])
    (one_group [("X", "<div>2</div>"); ("Y", "<div>new</div>")])
  = (compare_all (Shell (λ _, "{}") (λ _, "1700000000") "4242")
       (one_group [("X", "<div>1</div>")])
       (one_group [("X", "<div>2</div>"); ("Y", "<div>new</div>")]), true).
Proof.
  apply (tailwindplus_diff_on_wf_file (Shell (λ _, "{}") (λ _, "1700000000") "4242")).
  unfold catalog_wf, clean_object, one_group.
  eexists. split; [reflexivity|]. repeat constructor.
  eexists. split; [reflexivity|]. repeat constructor.
  eexists. split; [reflexivity|]. repeat constructor.
  eexists. split; [reflexivity|]. repeat constructor.
Defined.

(** ** The diff tool: what the [safe_name] pipeline guarantees *)

Section SafeNameShape.

Lemma tr_unsafe_safe s : all_chars (λ c, negb (unsafe_char c)) (tr_unsafe s) = true.
Proof.
  induction s as [|c s IH]; [done|]. cbn [tr_unsafe all_chars]. rewrite IH.
  by destruct (unsafe_char c) eqn:Hc; [|rewrite Hc].
Qed.

Lemma squeeze_all_chars P s : all_chars P s = true → all_chars P (squeeze s) = true.
Proof.
  induction s as [|c s IH]; [done|]. cbn [squeeze].
  destruct s as [|c' s']; [done|].
  intros [Hc Hs]%andb_true_iff. case_bool_decide; [by apply IH|].
  change (all_chars P (String c (squeeze (String c' s'))))
    with (P c && all_chars P (squeeze (String c' s'))).
  by rewrite Hc, IH.
Qed.

Lemma strip_leading_all_chars P s :
  all_chars P s = true → all_chars P (strip_leading s) = true.
Proof.
  induction s as [|c s IH]; [done|]. cbn [strip_leading].
  case_bool_decide; [|done]. intros [_ Hs]%andb_true_iff. by apply IH.
Qed.

Lemma substring_all_chars P n s :
  all_chars P s = true → all_chars P (String.substring 0 n s) = true.
Proof.
  revert n. induction s as [|c s IH]; intros [|n]; try done.
  cbn [String.substring all_chars]. intros [Hc Hs]%andb_true_iff.
  by rewrite Hc, IH.
Qed.

Lemma substring_length n s : (String.length (String.substring 0 n s) ≤ n)%nat.
Proof.
  revert n. induction s as [|c s IH]; intros [|n]; cbn; try lia.
  specialize (IH n). lia.
Qed.

(** The first character is kept by [tr -s], and by [cut]. *)
Lemma squeeze_head c s : ∃ r, squeeze (String c s) = String c r.
Proof.
  revert c. induction s as [|c' s IH]; intros c; [by exists EmptyString|].
  cbn [squeeze]. case_bool_decide as Hcc; [|by eexists].
  destruct Hcc as [-> ->]. apply IH.
Qed.

Lemma squeeze_no_double s : no_double (squeeze s) = true.
Proof.
  induction s as [|c s IH]; [done|]. cbn [squeeze].
  destruct s as [|c' s']; [done|].
  case_bool_decide as Hcc; [done|].
  destruct (squeeze_head c' s') as [r Hr]. rewrite Hr in IH |- *.
  change (no_double (String c (String c' r)))
    with (negb (bool_decide (c = "_"%char ∧ c' = "_"%char))
          && no_double (String c' r)).
  rewrite IH. by rewrite bool_decide_false.
Qed.

Lemma no_double_tail c s : no_double (String c s) = true → no_double s = true.
Proof. destruct s; [done|]. cbn [no_double]. by intros [_ ?]%andb_true_iff. Qed.

Lemma strip_leading_no_double s :
  no_double s = true → no_double (strip_leading s) = true.
Proof.
  induction s as [|c s IH]; [done|]. cbn [strip_leading].
  case_bool_decide; [|done]. intros Hs%no_double_tail. by apply IH.
Qed.

Lemma substring_no_double n s :
  no_double s = true → no_double (String.substring 0 n s) = true.
Proof.
  revert n. induction s as [|c s IH]; intros [|n]; try done.
  cbn [String.substring]. intros Hs.
  pose proof (IH n (no_double_tail _ _ Hs)) as IHn.
  destruct s as [|c' s']; [by destruct n|].
  destruct n as [|n]; [done|].
  change (String.substring 0 (S n) (String c' s'))
    with (String c' (String.substring 0 n s')) in *.
  change (no_double (String c (String c' s')))
    with (negb (bool_decide (c = "_"%char ∧ c' = "_"%char))
          && no_double (String c' s')) in Hs.
  change (no_double (String c (String c' (String.substring 0 n s'))))
    with (negb (bool_decide (c = "_"%char ∧ c' = "_"%char))
          && no_double (String c' (String.substring 0 n s'))).
  apply andb_true_iff in Hs as [-> _]. by rewrite IHn.
Qed.

(** After [sed] the text is empty or starts with a character that is neither
    a dot nor an underscore. *)
Lemma strip_leading_head s :
  strip_leading s = EmptyString
  ∨ ∃ c r, strip_leading s = String c r ∧ c ≠ "."%char ∧ c ≠ "_"%char.
Proof.
  induction s as [|c s IH]; [by left|]. cbn [strip_leading].
  case_bool_decide as Hc; [done|]. right. exists c, s. split; [done|].
  split; intros ->; apply Hc; [by left|by right].
Qed.

Lemma sanitize_head s :
  sanitize s = EmptyString
  ∨ ∃ c r, sanitize s = String c r ∧ c ≠ "."%char ∧ c ≠ "_"%char.
Proof.
  unfold sanitize, cut_200.
  destruct (strip_leading_head (squeeze (tr_unsafe s))) as [->|(c & r & -> & Hc)].
  - by left.
  - right. exists c, (String.substring 0 199 r). done.
Qed.

Lemma sanitize_safe s : all_chars (λ c, negb (unsafe_char c)) (sanitize s) = true.
Proof.
  unfold sanitize, cut_200.
  apply substring_all_chars, strip_leading_all_chars, squeeze_all_chars, tr_unsafe_safe.
Qed.

Lemma sanitize_no_double s : no_double (sanitize s) = true.
Proof.
  unfold sanitize, cut_200.
  apply substring_no_double, strip_leading_no_double, squeeze_no_double.
Qed.

Lemma sanitize_length s : (String.length (sanitize s) ≤ 200)%nat.
Proof. unfold sanitize, cut_200. apply substring_length. Qed.

Lemma prefix_char_false (c ch : ascii) r :
  ch ≠ c → String.prefix (String c EmptyString) (String ch r) = false.
Proof. intros Hne. cbn [String.prefix]. destruct (ascii_dec c ch); [congruence|done]. Qed.

(** X7. The name of a diff file is never empty. Outside the fallback
    it is the sanitized text of the joined path: none of its characters is
    one of those the script replaces (so no slash, backslash, space or
    newline), it has at most 200 characters, it starts with neither a dot
    nor an underscore and has no two underscores in a row. *)
Theorem safe_name_shape sh c s g x :
  safe_name sh c s g x ≠ EmptyString
  ∧ (needs_fallback (sanitize (joined c s g x)) = false →
     safe_name sh c s g x = sanitize (joined c s g x)
     ∧ all_chars (λ ch, negb (unsafe_char ch)) (safe_name sh c s g x) = true
     ∧ (String.length (safe_name sh c s g x) ≤ 200)%nat
     ∧ String.prefix "." (safe_name sh c s g x) = false
     ∧ String.prefix "_" (safe_name sh c s g x) = false
     ∧ no_double (safe_name sh c s g x) = true).
Proof.
  unfold safe_name. cbv zeta.
  destruct (needs_fallback (sanitize (joined c s g x))) eqn:Hfb.
  - split; [done|done].
  - split.
    + unfold needs_fallback in Hfb. apply orb_false_iff in Hfb as [Hne _].
      by apply bool_decide_eq_false in Hne.
    + intros _. split_and!; [done|apply sanitize_safe|apply sanitize_length|..].
      * destruct (sanitize_head (joined c s g x)) as [->|(ch & r & -> & Hdot & _)];
          [done|]. by apply prefix_char_false.
      * destruct (sanitize_head (joined c s g x)) as [->|(ch & r & -> & _ & Hus)];
          [done|]. by apply prefix_char_false.
      * apply sanitize_no_double.
Qed.

Lemma safe_name_shape_witness :
  safe_name (Shell (λ _, "{}") (λ _, "1700000000") "4242")
    "Application UI" "Forms" "../Input Groups" "a/b"
  = sanitize (joined "Application UI" "Forms" "../Input Groups" "a/b").
Proof.
  destruct (safe_name_shape (Shell (λ _, "{}") (λ _, "1700000000") "4242")
              "Application UI" "Forms" "../Input Groups" "a/b") as [_ H].
  apply H. reflexivity.
Defined.

(** X8. The pipeline is idempotent: run on one of its own results
    it changes nothing. *)
Theorem sanitize_idempotent s : sanitize (sanitize s) = sanitize s.
Proof.
  set (r := sanitize s).
  assert (Hsafe : tr_unsafe r = r) by apply tr_unsafe_id, sanitize_safe.
  assert (Hsq : squeeze r = r) by apply squeeze_id, sanitize_no_double.
  assert (Hstrip : strip_leading r = r).
  { destruct (sanitize_head s) as [Hr|(c & t & Hr & Hdot & Hus)]; fold r in Hr;
      rewrite Hr; [done|by apply strip_leading_id]. }
  unfold sanitize at 1. rewrite Hsafe, Hsq, Hstrip.
  apply substring_all, sanitize_length.
Qed.

End SafeNameShape.

(** ** The in-page functions *)

Section PageFunctions.

Import JsString.

Lemma array_sort_permutation (l l' : list string) :
  l ≡ₚ l' → array_sort l = array_sort l'.
Proof.
  intros Hperm. unfold array_sort.
  apply (StronglySorted_unique String.le).
  - apply (StronglySorted_merge_sort String.le).
  - apply (StronglySorted_merge_sort String.le).
  - by rewrite !(merge_sort_Permutation String.le).
Qed.

(** X9. The base path does not depend on the order of the links: two
    sequences with the same URLs, each as many times, give the same
    result. *)
Theorem findUrlBasePath_permutation (urls urls' : list string) :
  urls ≡ₚ urls' → findUrlBasePath urls = findUrlBasePath urls'.
Proof.
  intros Hperm. pose proof (Permutation_length Hperm) as Hlen.
  destruct urls as [|u1 [|u2 urls]].
  - apply Permutation_nil_l in Hperm. by subst.
  - apply Permutation_singleton_l in Hperm. by subst.
  - destruct urls' as [|v1 [|v2 urls']]; [done|done|].
    unfold findUrlBasePath. cbv zeta. by rewrite (array_sort_permutation _ _ Hperm).
Qed.

Lemma findUrlBasePath_permutation_witness :
  findUrlBasePath ["https://h/b"; "https://h/a/x"; "https://h/a/y"]
  = findUrlBasePath ["https://h/a/y"; "https://h/b"; "https://h/a/x"].
Proof.
  apply findUrlBasePath_permutation.
  apply (Permutation_trans (l' := ["https://h/b"; "https://h/a/y"; "https://h/a/x"])).
  - apply perm_skip, perm_swap.
  - apply perm_swap.
Defined.

Lemma findUrlBasePath_is_prefix (urls : list string) u :
  u ∈ urls → is_prefix (findUrlBasePath urls) u.
Proof.
  destruct urls as [|u1 [|u2 rest]].
  - intros Hu. by apply elem_of_nil in Hu.
  - intros Hu. apply list_elem_of_singleton in Hu as ->. apply is_prefix_refl.
  - destruct (findUrlBasePath_ends (u1 :: u2 :: rest))
      as (lo & hi & -> & _ & _ & Hall); [simpl; lia|].
    intros Hu. destruct (Hall u Hu). by apply lcp_between.
Qed.

(** A property set on an object that does not have it is added last. *)
Lemma obj_set_fresh (k : string) v (o : obj) :
  k ∉ obj_keys o → obj_set k v o = o ++ [(k, v)].
Proof.
  unfold obj_keys. induction o as [|[k0 v0] o IH]; simpl; [done|].
  intros [? ?]%not_elem_of_cons. rewrite decide_False by done. f_equal. by apply IH.
Qed.

(** Properties set one after the other under distinct new keys are added in
    order. *)
Lemma foldl_obj_set_fresh {A} (key : A → string) (val : A → value) (l : list A) :
  ∀ o : obj,
    NoDup (obj_keys o ++ (key <$> l)) →
    foldl (λ acc x, obj_set (key x) (val x) acc) o l
    = o ++ ((λ x, (key x, val x)) <$> l).
Proof.
  induction l as [|x l IH]; intros o Hnd; simpl.
  - by rewrite app_nil_r.
  - rewrite fmap_cons in Hnd. rewrite IH.
    + rewrite obj_set_fresh; [by rewrite <- app_assoc|].
      apply NoDup_app in Hnd as (_ & Hdisj & _). intros Hin.
      apply (Hdisj _ Hin). by left.
    + rewrite obj_set_fresh.
      * rewrite obj_keys_app. cbn. rewrite <- app_assoc. done.
      * apply NoDup_app in Hnd as (_ & Hdisj & _). intros Hin.
        apply (Hdisj _ Hin). by left.
Qed.

Lemma getProductNamesAndPageUrls_fold (sections : list root_section) :
  ∀ acc : obj,
    (Exists (λ s, rs_h2 s = None) sections
     ∧ foldl (λ acc section,
                match acc with
                | Ok namesAndUrls =>
                    match rs_h2 section with
                    | Some name =>
                        Ok (obj_set name (VStr (findUrlBasePath (rs_links section)))
                                    namesAndUrls)
                    | None => Throw (null_access "textContent")
                    end
                | failed => failed
                end) (Ok acc) sections
       = Throw (null_access "textContent"))
    ∨ (∃ entries,
         sections = root_sections_of entries
         ∧ foldl (λ acc section,
                    match acc with
                    | Ok namesAndUrls =>
                        match rs_h2 section with
                        | Some name =>
                            Ok (obj_set name (VStr (findUrlBasePath (rs_links section)))
                                        namesAndUrls)
                        | None => Throw (null_access "textContent")
                        end
                    | failed => failed
                    end) (Ok acc) sections
           = Ok (foldl (λ o e, obj_set e.1 (VStr (findUrlBasePath e.2)) o) acc entries)).
Proof.
  induction sections as [|[h2 links] sections IH]; intros acc.
  - right. by exists [].
  - cbn [foldl rs_h2 rs_links]. destruct h2 as [name|].
    + destruct (IH (obj_set name (VStr (findUrlBasePath links)) acc))
        as [[Hex ->]|(entries & -> & ->)].
      * left. split; [by right|done].
      * right. by exists ((name, links) :: entries).
    + left. split; [by left|].
      clear. induction sections as [|s sections IH]; [done|apply IH].
Qed.

(** X10. [getProductNamesAndPageUrls] is rejected exactly when a product
    section of the root page has no [h2]. When the sections have distinct
    headings the result is the object with one property per section, set in
    the order of the page, and the URL stored under a heading is a prefix of
    every link of its section. *)
Theorem getProductNamesAndPageUrls_result :
  (∀ sections,
     (∃ message, getProductNamesAndPageUrls sections = Throw message)
     ↔ Exists (λ s, rs_h2 s = None) sections)
  ∧ (∀ entries,
       NoDup entries.*1 →
       getProductNamesAndPageUrls (root_sections_of entries)
       = Ok ((λ e, (e.1, VStr (findUrlBasePath e.2))) <$> entries)
       ∧ ∀ name links link,
           (name, links) ∈ entries → link ∈ links →
           is_prefix (findUrlBasePath links) link).
Proof.
  split.
  - intros sections. unfold getProductNamesAndPageUrls.
    destruct (getProductNamesAndPageUrls_fold sections [])
      as [[Hex ->]|(entries & -> & ->)].
    + split; [done|]. intros _. by eexists.
    + split; [by intros [? [=]]|]. intros Hex. exfalso.
      apply Exists_exists in Hex as (s & Hs & Hnone).
      unfold root_sections_of in Hs.
      apply list_elem_of_fmap in Hs as ([n l] & -> & _). done.
  - intros entries Hnd. split.
    + unfold getProductNamesAndPageUrls.
      destruct (getProductNamesAndPageUrls_fold (root_sections_of entries) [])
        as [[Hex _]|(entries' & Heq & ->)].
      * exfalso. apply Exists_exists in Hex as (s & Hs & Hnone).
        unfold root_sections_of in Hs.
        apply list_elem_of_fmap in Hs as ([n l] & -> & _). done.
      * assert (entries' = entries) as ->.
        { clear -Heq. revert entries' Heq.
          induction entries as [|[n l] entries IH]; intros [|[n' l'] entries'];
            try done. cbn. intros [= -> -> Heq]. f_equal. by apply IH. }
        f_equal.
        apply (foldl_obj_set_fresh fst (λ e, VStr (findUrlBasePath e.2)) entries []).
        done.
    + intros name links link _ Hlink. by apply findUrlBasePath_is_prefix.
Qed.

Lemma getProductNamesAndPageUrls_result_witness :
  getProductNamesAndPageUrls
    (root_sections_of [("Marketing", ["https://t/m/a"; "https://t/m/b"]);
                       ("Ecommerce", ["https://t/e/a"])])
  = Ok ((λ e, (e.1, VStr (findUrlBasePath e.2)))
          <$> [("Marketing", ["https://t/m/a"; "https://t/m/b"]);
               ("Ecommerce", ["https://t/e/a"])]).
Proof.
  destruct getProductNamesAndPageUrls_result as [_ H].
  apply (H [("Marketing", ["https://t/m/a"; "https://t/m/b"]);
            ("Ecommerce", ["https://t/e/a"])]).
  apply NoDup_ListNoDup. repeat constructor; simpl; intuition discriminate.
Defined.

Lemma getProductSectionsAndPageUrls_fold (sections : list product_section) :
  ∀ acc : obj,
    (Exists (λ s, ps_h3 s = None) sections
     ∧ foldl (λ acc section,
                match acc with
                | Ok namesAndUrls =>
                    match ps_h3 section with
                    | Some name =>
                        Ok (obj_set name
                              (VObj (productSectionToNamesAndPageUrls (ps_items section)))
                              namesAndUrls)
                    | None => Throw (null_access "textContent")
                    end
                | failed => failed
                end) (Ok acc) sections
       = Throw (null_access "textContent"))
    ∨ (∃ entries,
         sections = product_sections_of entries
         ∧ foldl (λ acc section,
                    match acc with
                    | Ok namesAndUrls =>
                        match ps_h3 section with
                        | Some name =>
                            Ok (obj_set name
                                  (VObj (productSectionToNamesAndPageUrls
                                           (ps_items section)))
                                  namesAndUrls)
                        | None => Throw (null_access "textContent")
                        end
                    | failed => failed
                    end) (Ok acc) sections
           = Ok (foldl (λ o e, obj_set e.1
                                 (VObj (productSectionToNamesAndPageUrls e.2)) o)
                       acc entries)).
Proof.
  induction sections as [|[h3 items] sections IH]; intros acc.
  - right. by exists [].
  - cbn [foldl ps_h3 ps_items]. destruct h3 as [name|].
    + destruct (IH (obj_set name (VObj (productSectionToNamesAndPageUrls items)) acc))
        as [[Hex ->]|(entries & -> & ->)].
      * left. split; [by right|done].
      * right. by exists ((name, items) :: entries).
    + left. split; [by left|].
      clear. induction sections as [|s sections IH]; [done|apply IH].
Qed.

Lemma product_sections_of_inj entries entries' :
  product_sections_of entries' = product_sections_of entries → entries' = entries.
Proof.
  revert entries'. induction entries as [|[n l] entries IH]; intros [|[n' l'] entries'];
    try done. cbn. intros [= -> -> Heq]. f_equal. by apply IH.
Qed.

(** X11. [getProductSectionsAndPageUrls] is rejected exactly when a
    section of the product page has no [h3]. When the sections have distinct
    headings the result is the object with one property per section, set in
    the order of the page, each holding the mapping of names to URLs of its
    section. *)
Theorem getProductSectionsAndPageUrls_result :
  (∀ sections,
     (∃ message, getProductSectionsAndPageUrls sections = Throw message)
     ↔ Exists (λ s, ps_h3 s = None) sections)
  ∧ (∀ entries,
       NoDup entries.*1 →
       getProductSectionsAndPageUrls (product_sections_of entries)
       = Ok ((λ e, (e.1, VObj (productSectionToNamesAndPageUrls e.2))) <$> entries)).
Proof.
  split.
  - intros sections. unfold getProductSectionsAndPageUrls.
    destruct (getProductSectionsAndPageUrls_fold sections [])
      as [[Hex ->]|(entries & -> & ->)].
    + split; [done|]. intros _. by eexists.
    + split; [by intros [? [=]]|]. intros Hex. exfalso.
      apply Exists_exists in Hex as (s & Hs & Hnone).
      unfold product_sections_of in Hs.
      apply list_elem_of_fmap in Hs as ([n l] & -> & _). done.
  - intros entries Hnd. unfold getProductSectionsAndPageUrls.
    destruct (getProductSectionsAndPageUrls_fold (product_sections_of entries) [])
      as [[Hex _]|(entries' & Heq & ->)].
    + exfalso. apply Exists_exists in Hex as (s & Hs & Hnone).
      unfold product_sections_of in Hs.
      apply list_elem_of_fmap in Hs as ([n l] & -> & _). done.
    + symmetry in Heq. apply product_sections_of_inj in Heq as ->. f_equal.
      apply (foldl_obj_set_fresh fst
               (λ e, VObj (productSectionToNamesAndPageUrls e.2)) entries []).
      done.
Qed.

Lemma getProductSectionsAndPageUrls_result_witness :
  getProductSectionsAndPageUrls
    (product_sections_of
       [("Page Sections", [ElemA "http://hero-sections"; ElemP "Hero Sections"]);
        ("Elements", [ElemA "http://headers"; ElemP "Headers"])])
  = Ok ((λ e, (e.1, VObj (productSectionToNamesAndPageUrls e.2)))
          <$> [("Page Sections", [ElemA "http://hero-sections"; ElemP "Hero Sections"]);
               ("Elements", [ElemA "http://headers"; ElemP "Headers"])]).
Proof.
  destruct getProductSectionsAndPageUrls_result as [_ H].
  apply (H [("Page Sections", [ElemA "http://hero-sections"; ElemP "Hero Sections"]);
            ("Elements", [ElemA "http://headers"; ElemP "Headers"])]).
  apply NoDup_ListNoDup. repeat constructor; simpl; intuition discriminate.
Defined.

(** The reduction from an even index, and from the odd index after the text
    [previous]. *)
Lemma reduce_names_and_urls_adjacent (rest : list string) :
  (∀ pre o,
     Nat.even (length pre) = true →
     reduce_names_and_urls (pre ++ rest) (length pre) rest o
     = foldl (λ o '(name, text), obj_set name (VStr text) o) o
             (filter (λ p, p.1 ≠ "__proto__") (adjacent_pairs rest)))
  ∧ (∀ pre previous o,
       Nat.even (length pre) = true →
       reduce_names_and_urls (pre ++ previous :: rest) (S (length pre)) rest o
       = foldl (λ o '(name, text), obj_set name (VStr text) o) o
               (filter (λ p, p.1 ≠ "__proto__")
                       match rest with
                       | [] => []
                       | name :: rest' => (name, previous) :: adjacent_pairs rest'
                       end)).
Proof.
  induction rest as [|x rest [IHeven IHodd]].
  - by split.
  - split.
    + intros pre o Heven. cbn [reduce_names_and_urls].
      assert (Nat.odd (length pre) = false) as -> by (unfold Nat.odd; by rewrite Heven).
      rewrite (IHodd pre x o Heven). by destruct rest.
    + intros pre previous o Heven. cbn [reduce_names_and_urls].
      assert (Nat.odd (S (length pre)) = true) as -> by (by rewrite Nat.odd_succ).
      replace (S (length pre) - 1)%nat with (length pre + 0)%nat by lia.
      rewrite lookup_app_r by lia.
      replace (length pre + 0 - length pre)%nat with 0%nat by lia.
      cbn [lookup list_lookup].
      replace (pre ++ previous :: x :: rest) with ((pre ++ [previous; x]) ++ rest)
        by (by rewrite <- app_assoc).
      replace (S (S (length pre))) with (length (pre ++ [previous; x]))
        by (rewrite length_app; simpl; lia).
      assert (Heven' : Nat.even (length (pre ++ [previous; x])) = true).
      { rewrite length_app. simpl.
        replace (length pre + 2)%nat with (S (S (length pre))) by lia.
        by rewrite Nat.even_succ_succ. }
      destruct (decide (x = "__proto__")) as [Hx|Hx].
      * rewrite filter_cons_False by (cbn [fst]; by intros []). by apply IHeven.
      * rewrite filter_cons_True by done. cbn [foldl]. by apply IHeven.
Qed.

(** X12. [productSectionToNamesAndPageUrls] pairs the matched elements by
    position alone, whatever their kind: the texts at indices 0 and 1, 2 and
    3, and so on, the second of each pair being the key; an element left
    alone at the end is dropped, and so is a pair whose key would be
    [__proto__], for which the assignment creates no property. *)
Theorem productSectionToNamesAndPageUrls_adjacent (items : list element) :
  productSectionToNamesAndPageUrls items
  = obj_of_pairs (filter (λ p, p.1 ≠ "__proto__")
                         (adjacent_pairs (element_text <$> items))).
Proof.
  unfold productSectionToNamesAndPageUrls, obj_of_pairs. cbv zeta.
  change (map (λ e, match e with
                    | ElemA href => href
                    | ElemP textContent => textContent
                    end) items) with (element_text <$> items).
  exact (proj1 (reduce_names_and_urls_adjacent (element_text <$> items)) [] []
            eq_refl).
Qed.

(** The label [__proto__] leaves no property, the pairs around it do. *)
Example proto_label_dropped :
  productSectionToNamesAndPageUrls
    [ElemA "https://t/a"; ElemP "__proto__"; ElemA "https://t/b"; ElemP "Hero B"]
  = [("Hero B", VStr "https://t/b")].
Proof. reflexivity. Qed.

Lemma obj_get_foldl_set (pairs : list (string * string)) :
  ∀ (o : obj) name,
    obj_get name (foldl (λ o '(name, text), obj_set name (VStr text) o) o pairs)
    = match lookup_last name pairs with
      | Some text => Some (VStr text)
      | None => obj_get name o
      end.
Proof.
  induction pairs as [|[n text] pairs IH]; intros o name; [done|].
  cbn [foldl lookup_last]. rewrite IH.
  destruct (lookup_last name pairs); [done|].
  case_decide as Hn; [subst; apply obj_get_set_eq|by apply obj_get_set_ne].
Qed.

Lemma evaluate_components_NoDup sections o :
  evaluate_components sections = Ok o → NoDup (obj_keys o).
Proof.
  unfold evaluate_components.
  assert (Hinit : NoDup (obj_keys [])) by apply NoDup_nil_2.
  revert Hinit. generalize (@nil (string * value)).
  induction sections as [|s sections IH]; intros acc Hacc; cbn [foldl].
  - by intros [= <-].
  - destruct (componentSectionToNameAndData s) as [entry|message|code].
    + apply IH. by apply obj_spread_NoDup.
    + by rewrite evaluate_components_stuck_throw.
    + intros Hexit. exfalso. revert Hexit. clear.
      induction sections as [|s' sections IH]; [done|apply IH].
Qed.

(** X13. The mapping [getComponentsAndData] returns has each
    heading once. When two blocks of a page that is read without failure
    have the same heading, the code of the last one is kept under it. *)
Theorem getComponentsAndData_last_wins :
  (∀ sections, NoDup (obj_keys (getComponentsAndData sections)))
  ∧ (∀ (entries : list (string * string)) name,
       obj_get name
         (getComponentsAndData (map (λ '(name, code), good_section name code) entries))
       = VStr <$> lookup_last name entries).
Proof.
  split.
  - intros sections. unfold getComponentsAndData.
    destruct (evaluate_components sections) as [o| |] eqn:Ho;
      [by eapply evaluate_components_NoDup|apply NoDup_nil_2..].
  - intros entries name. unfold getComponentsAndData, evaluate_components.
    rewrite evaluate_components_good, obj_get_foldl_set.
    by destruct (lookup_last name entries).
Qed.

End PageFunctions.

(** ** The walk: what a run needs, what it leaves *)

Section Walk.

Lemma getProductNamesAndPageUrls_no_exit page code :
  getProductNamesAndPageUrls page ≠ Exit code.
Proof.
  unfold getProductNamesAndPageUrls.
  by destruct (getProductNamesAndPageUrls_fold page []) as [[_ ->]|(entries & _ & ->)].
Qed.

Lemma product_loop_no_exit b todo :
  ∀ st code st', for_each todo (product_step b) st ≠ (Exit code, st').
Proof.
  induction todo as [|[p u] todo IH]; intros st code st'; [done|].
  cbn [for_each]. unfold bind.
  destruct (product_step_run b p u st) as (st1 & -> & _).
  destruct (pv_newPage (br_product b p)); [done|].
  destruct (pv_close (br_product b p)); [done|]. apply IH.
Qed.

Lemma run_scrape_no_exit b rootUrl cookies code ws :
  run_scrape b rootUrl cookies ≠ (Exit code, ws).
Proof.
  unfold run_scrape, scrapeTailwindPlus.
  rewrite run_bind. unfold await at 1.
  destruct (br_launch b); [done|]. unfold mret, M_ret, ret, try_finally, try_catch.
  rewrite run_bind.
  assert (Hcookies : (if cookies then await (br_addCookies b) else λ st, (Ok tt, st))
                       (State [] [])
                     = (match (if cookies then br_addCookies b else None) with
                        | None => Ok tt | Some m => Throw m end, State [] [])).
  { destruct cookies; [|done]. unfold await. by destruct (br_addCookies b). }
  rewrite Hcookies. clear Hcookies.
  destruct (if cookies then br_addCookies b else None).
  { unfold throw, lift, await. by destruct (br_close b). }
  rewrite run_bind. unfold await at 1.
  destruct (br_root_goto b rootUrl).
  { unfold throw, lift, await. by destruct (br_close b). }
  unfold mret, M_ret, ret. rewrite run_bind. unfold lift at 1.
  destruct (getProductNamesAndPageUrls (br_root_sections b))
    as [names|message|code'] eqn:Hnames; cbn [evaluate].
  2:{ unfold throw, lift, await. by destruct (br_close b). }
  2:{ by apply getProductNamesAndPageUrls_no_exit in Hnames. }
  rewrite run_bind. unfold set_hierarchy at 1. rewrite run_bind.
  unfold await at 1. destruct (br_root_close b).
  { unfold throw, lift, await. by destruct (br_close b). }
  unfold mret, M_ret, ret. rewrite run_bind. unfold entries_of_hierarchy at 1.
  cbn [productHierarchy writes]. rewrite run_bind. unfold obj_entries.
  destruct (for_each names (product_step b) _) as [[[]|message|code'] st1] eqn:Hloop.
  2:{ unfold throw, lift, await. by destruct (br_close b). }
  2:{ by apply product_loop_no_exit in Hloop. }
  unfold get_hierarchy, await. by destruct (br_close b).
Qed.

(** X14. A run of [scrapeTailwindPlus] returns a tree exactly when the
    launch, the cookies, the navigation to the root page, the extraction of
    the products, the closing of the root page, the opening and the closing
    of the tab of every product and the closing of the browser succeed:
    nothing that happens on the page of a product or of a Group stops it.
    The run never exits the process. *)
Theorem run_scrape_completes_iff b rootUrl cookies :
  ((∃ tree ws, run_scrape b rootUrl cookies = (Ok tree, ws))
   ↔ ∃ names, run_conditions b rootUrl cookies names)
  ∧ (∀ code ws, run_scrape b rootUrl cookies ≠ (Exit code, ws)).
Proof.
  split; [split|].
  - intros (tree & ws & Hrun).
    destruct (run_scrape_tree _ _ _ _ _ Hrun) as (names & Hcond & _). by exists names.
  - intros [names Hcond]. by eapply run_scrape_total.
  - intros code ws. apply run_scrape_no_exit.
Qed.

Lemma getProductNamesAndPageUrls_Forall (P : string * value → Prop) page names :
  (∀ s name, s ∈ page → rs_h2 s = Some name →
             P (name, VStr (findUrlBasePath (rs_links s)))) →
  getProductNamesAndPageUrls page = Ok names → Forall P names.
Proof.
  unfold getProductNamesAndPageUrls.
  assert (Hinit : Forall P []) by constructor.
  revert Hinit. generalize (@nil (string * value)).
  induction page as [|section page IH]; intros acc Hacc HP; cbn [foldl].
  - by intros [= <-].
  - destruct (rs_h2 section) as [name|] eqn:Hname.
    + apply IH.
      * apply obj_set_Forall; [|done]. apply HP; [by left|done].
      * intros s n Hs. apply HP. by right.
    + intros Hthrow. exfalso. revert Hthrow. clear.
      induction page as [|s page IH]; simpl; [done|apply IH].
Qed.

Lemma getProductSectionsAndPageUrls_Forall (P : string * value → Prop) page sections :
  (∀ s name, s ∈ page → ps_h3 s = Some name →
             P (name, VObj (productSectionToNamesAndPageUrls (ps_items s)))) →
  getProductSectionsAndPageUrls page = Ok sections → Forall P sections.
Proof.
  unfold getProductSectionsAndPageUrls.
  assert (Hinit : Forall P []) by constructor.
  revert Hinit. generalize (@nil (string * value)).
  induction page as [|section page IH]; intros acc Hacc HP; cbn [foldl].
  - by intros [= <-].
  - destruct (ps_h3 section) as [name|] eqn:Hname.
    + apply IH.
      * apply obj_set_Forall; [|done]. apply HP; [by left|done].
      * intros s n Hs. apply HP. by right.
    + intros Hthrow. exfalso. revert Hthrow. clear.
      induction page as [|s page IH]; simpl; [done|apply IH].
Qed.

Lemma getComponentsAndData_Forall (P : string * value → Prop) sections :
  (∀ c name code, c ∈ sections → cs_h2 c = Some name → cs_code c = Some code →
                  P (name, VStr code)) →
  Forall P (getComponentsAndData sections).
Proof.
  intros HP. unfold getComponentsAndData, evaluate_components.
  match goal with
  | |- context [foldl ?f (Ok []) sections] => set (step := f)
  end.
  enough (Hgen : ∀ acc, Forall P acc →
            Forall P match foldl step (Ok acc) sections with
                     | Ok o => o
                     | _ => []
                     end) by (apply Hgen; constructor).
  induction sections as [|c sections IH]; intros acc Hacc; cbn [foldl]; [done|].
  unfold step at 2. unfold componentSectionToNameAndData.
  destruct (cs_codeButton c);
    [destruct (cs_h2 c) as [name|] eqn:Hname;
       [destruct (cs_code c) as [code|] eqn:Hcode|]|];
    try (unfold step; rewrite evaluate_components_stuck_throw; constructor).
  apply IH.
  - intros c' n code' Hc'. apply HP. by right.
  - cbn. apply obj_set_Forall; [|done]. eapply HP; [by left|done..].
Qed.

Lemma reduce_names_and_urls_keys (P : string → Prop) array index rest o :
  Forall P rest →
  Forall (λ kv, P kv.1) o →
  Forall (λ kv : string * value, P kv.1) (reduce_names_and_urls array index rest o).
Proof.
  revert index o. induction rest as [|item rest IH]; intros index o Hrest Ho; [done|].
  apply Forall_cons in Hrest as [Hitem Hrest].
  simpl. apply IH; [done|]. destruct (Nat.odd index); [|done].
  destruct (array !! (index - 1)%nat); [|done].
  case_decide; [done|]. by apply obj_set_Forall.
Qed.

Lemma Forall_obj_map (P : string * value → Prop) f o :
  Forall P (obj_map f o) ↔ Forall (λ kv, P (kv.1, f kv.1 kv.2)) o.
Proof.
  unfold obj_map. induction o as [|[k v] o IH]; simpl.
  - split; constructor.
  - rewrite !Forall_cons, IH. done.
Qed.

Lemma group_node_strings visit componentsUrl :
  ∃ components,
    group_node visit componentsUrl = VObj components
    ∧ Forall (λ kv, ∃ content, kv.2 = VStr content) components.
Proof.
  assert (Hmarker : ∀ message,
            ∃ components,
              error_marker message = VObj components
              ∧ Forall (λ kv, ∃ content, kv.2 = VStr content) components).
  { intros message. eexists. split; [reflexivity|]. repeat constructor. by eexists. }
  unfold group_node. destruct componentsUrl as [url|o]; [|apply Hmarker].
  destruct (gv_goto visit url); [apply Hmarker|].
  destruct (gv_goBack visit); [apply Hmarker|].
  eexists. split; [reflexivity|].
  apply getComponentsAndData_Forall. intros. by eexists.
Qed.

(** X15. In the tree of a completed run no URL is left where the walk
    found one: the node of every product is an object, and the node of every
    Group is an object all of whose values are strings, the code of the
    components or the message of an error marker. *)
Theorem completed_tree_has_no_placeholder b rootUrl cookies tree ws :
  run_scrape b rootUrl cookies = (Ok tree, ws) →
  (∀ p v, obj_get p tree = Some v → ∃ o, v = VObj o)
  ∧ (∀ p s g v,
       get3 tree p s g = Some v →
       ∃ components,
         v = VObj components
         ∧ Forall (λ kv, ∃ content, kv.2 = VStr content) components).
Proof.
  intros Hrun.
  destruct (run_scrape_tree _ _ _ _ _ Hrun) as (names & Hcond & Hnd & ->).
  split.
  - intros p v. rewrite obj_get_map.
    destruct (obj_get p names) as [u|]; [|done]. intros [= <-].
    unfold product_node, error_marker. destruct u as [url|o]; [|by eexists].
    destruct (pv_goto (br_product b p) url); [by eexists|].
    destruct (getProductSectionsAndPageUrls (pv_sections (br_product b p)))
      as [sections|message|code] eqn:Hs; [by eexists..|].
    by apply getProductSectionsAndPageUrls_no_exit in Hs.
  - intros p s g v. rewrite get3_obj_map.
    destruct (obj_get p names) as [u|]; [|done].
    unfold product_node. destruct u as [url|o]; [|by rewrite get3_error_marker].
    destruct (pv_goto (br_product b p) url); [by rewrite get3_error_marker|].
    destruct (getProductSectionsAndPageUrls (pv_sections (br_product b p)))
      as [sections|message|code] eqn:Hs; [|by rewrite get3_error_marker|].
    2:{ by apply getProductSectionsAndPageUrls_no_exit in Hs. }
    unfold get3, get2. cbn [obj_get]. rewrite decide_True by done.
    rewrite obj_get_expand_sections.
    destruct (obj_get s sections) as [[text|groups]|]; [done| |done].
    cbn [fmap option_fmap option_map]. rewrite obj_get_expand_groups.
    destruct (obj_get g groups) as [componentsUrl|]; [|done].
    intros [= <-]. apply group_node_strings.
Qed.

Lemma product_node_ext b b' p v :
  br_product b' p = br_product b p →
  (∀ s g, br_group b' p s g = br_group b p s g) →
  product_node b' p v = product_node b p v.
Proof.
  intros Hp Hg. unfold product_node. rewrite Hp.
  destruct v as [url|o]; [|done].
  destruct (pv_goto (br_product b p) url); [done|].
  destruct (getProductSectionsAndPageUrls (pv_sections (br_product b p))); [|done..].
  f_equal. unfold expand_sections. apply obj_map_ext. intros s [text|groups]; [done|].
  f_equal. unfold expand_groups. apply obj_map_ext. intros g u. by rewrite Hg.
Qed.

Lemma getProductSectionsAndPageUrls_missing_h3 page :
  Exists (λ s, ps_h3 s = None) page →
  getProductSectionsAndPageUrls page = Throw (null_access "textContent").
Proof.
  intros Hex. unfold getProductSectionsAndPageUrls.
  destruct (getProductSectionsAndPageUrls_fold page [])
    as [[_ ->]|(entries & -> & _)]; [done|].
  exfalso. apply Exists_exists in Hex as (s & Hs & Hnone).
  unfold product_sections_of in Hs.
  apply list_elem_of_fmap in Hs as ([n l] & -> & _). done.
Qed.

(** X16. Take a run that completes, and a second browser that answers
    like the first outside the pages of one product, whose tab it opens and
    closes. The run on the second browser completes too, with the same
    products in the same order and the same node for every other product.
    The node of the product itself is the error marker carrying the message
    of [goto] if the navigation to the URL the root page gives for it fails,
    and an error marker again, with the message of the rejection, if that
    page loads and one of its sections has no [h3]. *)
Theorem product_failure_isolated b b' rootUrl cookies P tree ws :
  same_except_product b b' P →
  pv_newPage (br_product b' P) = None →
  pv_close (br_product b' P) = None →
  run_scrape b rootUrl cookies = (Ok tree, ws) →
  ∃ tree' ws',
    run_scrape b' rootUrl cookies = (Ok tree', ws')
    ∧ obj_keys tree' = obj_keys tree
    ∧ (∀ p, p ≠ P → obj_get p tree' = obj_get p tree)
    ∧ (∀ names url,
         getProductNamesAndPageUrls (br_root_sections b) = Ok names →
         obj_get P names = Some (VStr url) →
         (∀ message,
            pv_goto (br_product b' P) url = Some message →
            obj_get P tree' = Some (error_marker message))
         ∧ (pv_goto (br_product b' P) url = None →
            Exists (λ s, ps_h3 s = None) (pv_sections (br_product b' P)) →
            ∃ message, obj_get P tree' = Some (error_marker message))).
Proof.
  intros (Hl & Hc & Hg & Hs & Hrr & Hrc & Hcl & Hother) Hnew Hclose Hrun.
  destruct (run_scrape_tree _ _ _ _ _ Hrun) as (names & Hcond & Hnd & ->).
  assert (Hcond' : run_conditions b' rootUrl cookies names).
  { destruct Hcond as (H1 & H2 & H3 & H4 & H5 & H6 & H7).
    unfold run_conditions. rewrite Hl, Hc, Hg, Hs, Hrc, Hcl.
    split_and!; try done.
    eapply Forall_impl; [exact H6|]. intros [k v] [Hn Hcl']. cbn [fst] in *.
    destruct (decide (k = P)) as [->|Hne]; [done|].
    by rewrite (proj1 (Hother k Hne)). }
  destruct (run_scrape_total _ _ _ _ Hcond') as (tree' & ws' & Hrun').
  exists tree', ws'. split; [done|].
  destruct (run_scrape_tree _ _ _ _ _ Hrun') as (names' & Hcond'' & _ & ->).
  assert (names' = names) as ->.
  { destruct Hcond as (_ & _ & _ & H4 & _), Hcond'' as (_ & _ & _ & H4' & _).
    rewrite Hs in H4'. congruence. }
  split_and!.
  - by rewrite !obj_keys_map.
  - intros p Hne. rewrite !obj_get_map. destruct (obj_get p names); [|done].
    cbn [fmap option_fmap option_map]. f_equal.
    apply product_node_ext; by apply Hother.
  - intros names0 url Hnames0 Hurl.
    assert (names0 = names) as ->.
    { destruct Hcond as (_ & _ & _ & H4 & _). congruence. }
    rewrite obj_get_map, Hurl. cbn [fmap option_fmap option_map].
    unfold product_node. split.
    + intros message ->. done.
    + intros -> Hex. rewrite getProductSectionsAndPageUrls_missing_h3 by done.
      by eexists.
Qed.

Lemma marketing_same_except :
  same_except_product (demo_browser demo_visit) marketing_unreachable "Marketing".
Proof.
  unfold same_except_product. split_and!; try reflexivity.
  intros p Hne. split; [|done]. cbn. by rewrite decide_False.
Qed.

Lemma product_failure_isolated_witness :
  ∃ tree' ws',
    run_scrape marketing_unreachable rootUrl true = (Ok tree', ws')
    ∧ obj_get "Marketing" tree'
      = Some (error_marker "page.goto: Timeout 30000ms exceeded.")
    ∧ obj_get "Ecommerce" tree' = obj_get "Ecommerce" (demo_tree demo_visit).
Proof.
  destruct (product_failure_isolated (demo_browser demo_visit) marketing_unreachable
              rootUrl true "Marketing" (demo_tree demo_visit)
              (run_scrape (demo_browser demo_visit) rootUrl true).2)
    as (tree' & ws' & Hrun & _ & Hothers & Hmarker).
  - apply marketing_same_except.
  - reflexivity.
  - reflexivity.
  - vm_compute. reflexivity.
  - exists tree', ws'. split_and!; [done| |].
    + edestruct Hmarker as [Hgoto _];
        [vm_compute; reflexivity|vm_compute; reflexivity|].
      apply Hgoto. reflexivity.
    + apply Hothers. intros Heq. discriminate Heq.
Defined.

Lemma completed_tree_has_no_placeholder_witness :
  ∃ o, obj_get "Marketing" (demo_tree goto_fails) = Some (VObj o).
Proof.
  destruct (completed_tree_has_no_placeholder (demo_browser goto_fails) rootUrl true
              (demo_tree goto_fails)
              (run_scrape (demo_browser goto_fails) rootUrl true).2)
    as [Hproducts _].
  - vm_compute. reflexivity.
  - destruct (Hproducts "Marketing"
                (default (VStr "") (obj_get "Marketing" (demo_tree goto_fails))))
      as [o Ho].
    + vm_compute. reflexivity.
    + exists o. rewrite <- Ho. vm_compute. reflexivity.
Defined.

End Walk.

(** ** From the downloader to the diff tool *)

Section Handover.

Lemma clean_key_error : clean_key "error".
Proof. split; reflexivity. Qed.

Lemma group_node_clean visit componentsUrl :
  Forall (λ c, ∀ name, cs_h2 c = Some name → clean_key name) (gv_sections visit) →
  clean_object (λ _, True) (group_node visit componentsUrl).
Proof.
  intros Hclean.
  assert (Hmarker : ∀ message, clean_object (λ _, True) (error_marker message)).
  { intros message. eexists. split; [reflexivity|].
    constructor; [|constructor]. split; [apply clean_key_error|done]. }
  unfold group_node. destruct componentsUrl as [url|o]; [|apply Hmarker].
  destruct (gv_goto visit url); [apply Hmarker|].
  destruct (gv_goBack visit); [apply Hmarker|].
  eexists. split; [reflexivity|].
  apply getComponentsAndData_Forall. intros c name code Hc Hname _.
  split; [|done]. cbn [fst].
  by apply (proj1 (Forall_forall _ _) Hclean c).
Qed.

Lemma getProductSectionsAndPageUrls_all_h3 page :
  Forall (λ s, is_Some (ps_h3 s)) page →
  ∃ sections, getProductSectionsAndPageUrls page = Ok sections.
Proof.
  intros Hall. unfold getProductSectionsAndPageUrls.
  destruct (getProductSectionsAndPageUrls_fold page [])
    as [[Hex _]|(entries & _ & ->)]; [|by eexists].
  exfalso. apply Exists_exists in Hex as (s & Hs & Hnone).
  apply (proj1 (Forall_forall _ _) Hall) in Hs as [name Hname]. congruence.
Qed.

(** X17. On a site whose names are clean keys, the tree of a completed
    run in which every product page loads and every section has its heading
    has four levels of objects under clean keys: given as the new file, the
    diff script reaches its end on it and compares every component. A Group
    that failed is no obstacle: its error marker is read as a component
    named error. *)
Theorem completed_tree_is_catalog sh b rootUrl cookies tree ws old :
  clean_site b →
  products_load b →
  run_scrape b rootUrl cookies = (Ok tree, ws) →
  catalog_wf (VObj tree)
  ∧ tailwindplus_diff sh old (VObj tree) = (compare_all sh old (VObj tree), true).
Proof.
  intros (Hroot & Hprod & Hgroup) Hload Hrun.
  assert (Hwf : catalog_wf (VObj tree)); [|split; [done|by apply tailwindplus_diff_wf]].
  destruct (run_scrape_tree _ _ _ _ _ Hrun) as (names & Hcond & Hnd & ->).
  destruct Hcond as (_ & _ & _ & Hnames & _).
  exists (obj_map (product_node b) names). split; [done|].
  apply Forall_obj_map.
  assert (Hall : Forall (λ kv, clean_key kv.1 ∧ ∃ url, kv.2 = VStr url) names).
  { apply (getProductNamesAndPageUrls_Forall _ (br_root_sections b) names); [|done].
    intros s name Hs Hname. split; [|by eexists]. cbn [fst].
    by apply (proj1 (Forall_forall _ _) Hroot s). }
  apply Forall_forall. intros [p v] Hin.
  destruct (proj1 (Forall_forall _ _) Hall _ Hin) as (Hp & url & Hv).
  cbn [fst snd] in *. subst v. split; [done|].
  unfold product_node.
  destruct (Hload names p url Hnames (obj_get_NoDup _ _ _ Hnd Hin)) as [Hgoto Hh3].
  rewrite Hgoto.
  destruct (getProductSectionsAndPageUrls_all_h3 _ Hh3) as [sections Hsections].
  rewrite Hsections.
  exists (expand_sections b p sections). split; [done|].
  unfold expand_sections. apply Forall_obj_map.
  eapply Forall_impl.
  { apply (getProductSectionsAndPageUrls_Forall
             (λ kv, clean_key kv.1
                    ∧ ∃ groups, kv.2 = VObj groups
                                ∧ Forall (λ kv, clean_key kv.1) groups) _ _)
      in Hsections; [exact Hsections|].
    intros s name Hs Hname.
    destruct (proj1 (Forall_forall _ _) (Hprod p) s Hs) as [Hclean Hitems].
    split; [by apply Hclean|]. eexists. split; [reflexivity|].
    unfold productSectionToNamesAndPageUrls. cbv zeta.
    apply reduce_names_and_urls_keys; [|constructor].
    apply Forall_fmap. eapply Forall_impl; [exact Hitems|]. by intros [href|text]. }
  intros [s v] (Hs & groups & Hv & Hgroups). cbn [fst snd] in *. subst v.
  split; [done|].
  exists (expand_groups b p s groups). split; [done|].
  unfold expand_groups. apply Forall_obj_map.
  eapply Forall_impl; [exact Hgroups|].
  intros [g u] Hg. cbn [fst snd] in *. split; [done|].
  apply group_node_clean, Hgroup.
Qed.

(** X18. A product whose name is a clean key and whose page, at the URL the
    root page gives for it, does not load leaves a tree on which the diff
    script stops before its end: the message of the error marker is a string
    where the script lists the keys of a subcategory. *)
Theorem failed_product_stops_diff sh b rootUrl cookies tree ws old names
    product url message :
  run_scrape b rootUrl cookies = (Ok tree, ws) →
  getProductNamesAndPageUrls (br_root_sections b) = Ok names →
  obj_get product names = Some (VStr url) →
  pv_goto (br_product b product) url = Some message →
  clean_key product →
  obj_get product tree = Some (error_marker message)
  ∧ (tailwindplus_diff sh old (VObj tree)).2 = false.
Proof.
  intros Hrun Hnames Hurl Hgoto Hclean.
  destruct (run_scrape_tree _ _ _ _ _ Hrun) as (names' & Hcond & Hnd & ->).
  destruct Hcond as (_ & _ & _ & Hnames' & _).
  assert (names' = names) as -> by congruence.
  assert (Hnode : obj_get product (obj_map (product_node b) names)
                  = Some (error_marker message)).
  { rewrite obj_get_map, Hurl. cbn [fmap option_fmap option_map].
    unfold product_node. by rewrite Hgoto. }
  split; [done|].
  apply (tailwindplus_diff_string_above sh old _ [product; "error"] message).
  - simpl. lia.
  - constructor; [apply Hclean|]. constructor; [apply clean_key_error|constructor].
  - unfold jq_path. cbn [foldl jq_index]. rewrite Hnode. reflexivity.
Qed.

Lemma demo_clean_site : clean_site (demo_browser demo_visit).
Proof.
  split_and!.
  - cbn. repeat (first [apply Forall_nil_2|apply Forall_cons_2]);
      intros name [= <-]; split; reflexivity.
  - intros p. cbn. apply Forall_cons_2; [|apply Forall_nil_2]. split.
    + intros name [= <-]. split; reflexivity.
    + repeat (first [apply Forall_nil_2|apply Forall_cons_2]); split; reflexivity.
  - intros p s g. cbn. case_decide;
      repeat (first [apply Forall_nil_2|apply Forall_cons_2]);
      intros name [= <-]; split; reflexivity.
Qed.

Lemma demo_products_load : products_load (demo_browser demo_visit).
Proof.
  intros names p url _ _. split; [done|]. cbn. repeat constructor. by eexists.
Qed.

Lemma completed_tree_is_catalog_witness :
  catalog_wf (VObj (demo_tree demo_visit)).
Proof.
  apply (completed_tree_is_catalog (Shell (λ _, "{}") (λ _, "1700000000") "4242")
           (demo_browser demo_visit) rootUrl true (demo_tree demo_visit)
           (run_scrape (demo_browser demo_visit) rootUrl true).2
           (VObj [])).
  - apply demo_clean_site.
  - apply demo_products_load.
  - vm_compute. reflexivity.
Defined.

Lemma failed_product_stops_diff_witness :
  (tailwindplus_diff (Shell (λ _, "{}") (λ _, "1700000000") "4242")
     (VObj (demo_tree demo_visit))
     (VObj [("Marketing", error_marker "page.goto: Timeout 30000ms exceeded.");
            ("Ecommerce",
             default (VStr "") (obj_get "Ecommerce" (demo_tree demo_visit)))])).2
  = false.
Proof.
  apply (failed_product_stops_diff (Shell (λ _, "{}") (λ _, "1700000000") "4242")
           marketing_unreachable rootUrl true _
           (run_scrape marketing_unreachable rootUrl true).2
           (VObj (demo_tree demo_visit))
           [("Marketing", VStr "https://t/marketing/");
            ("Ecommerce", VStr "https://t/ecommerce/a")]
           "Marketing" "https://t/marketing/"
           "page.goto: Timeout 30000ms exceeded.").
  - vm_compute. reflexivity.
  - vm_compute. reflexivity.
  - reflexivity.
  - reflexivity.
  - split; reflexivity.
Defined.

End Handover.

(** ** The entry point *)

Section EntryPoint.

Lemma parseArgs_exit_stuck (step : outcome options → string → outcome options) args :
  (∀ code a, step (Exit code) a = Exit code) →
  ∀ code, foldl step (Exit code) args = Exit code.
Proof.
  intros Hstep. induction args as [|a args IH]; intros code; [done|].
  cbn [foldl]. by rewrite Hstep.
Qed.

Lemma bool_decide_elem_of_cons (x a : string) l :
  bool_decide (x ∈ a :: l) = bool_decide (x = a) || bool_decide (x ∈ l).
Proof.
  apply eq_true_iff_eq.
  rewrite orb_true_iff, !bool_decide_eq_true. apply elem_of_cons.
Qed.

(** The two ways [parseArgs] ends. *)
Lemma parseArgs_cases ts args :
  ((∃ opts, parseArgs ts args = Ok opts
            ∧ help opts = bool_decide ("--help" ∈ args)
            ∧ auth opts = bool_decide ("--auth" ∈ args)
            ∧ debug opts = bool_decide ("--debug" ∈ args))
   ∧ Forall (λ a, recognised a = true) args)
  ∨ (parseArgs ts args = Exit 1 ∧ Exists (λ a, recognised a = false) args).
Proof.
  unfold parseArgs.
  match goal with
  | |- context [foldl ?f (Ok ?o) args] => set (step := f); set (init := o)
  end.
  assert (Hstep : ∀ opts a,
            (recognised a = true
             ∧ ∃ opts1, step (Ok opts) a = Ok opts1
                        ∧ help opts1 = help opts || bool_decide ("--help" = a)
                        ∧ auth opts1 = auth opts || bool_decide ("--auth" = a)
                        ∧ debug opts1 = debug opts || bool_decide ("--debug" = a))
            ∨ (recognised a = false ∧ step (Ok opts) a = Exit 1)).
  { intros opts a. unfold step, recognised.
    destruct (decide (a = "--help")) as [->|Hhelp].
    { left. split; [reflexivity|]. eexists. split; [reflexivity|]. cbn.
      by rewrite !orb_true_r, !orb_false_r. }
    destruct (decide (a = "--auth")) as [->|Hauth].
    { left. split; [reflexivity|]. eexists. split; [reflexivity|]. cbn.
      by rewrite !orb_true_r, !orb_false_r. }
    destruct (decide (a = "--debug")) as [->|Hdebug].
    { left. split; [reflexivity|]. eexists. split; [reflexivity|]. cbn.
      by rewrite !orb_true_r, !orb_false_r. }
    rewrite (bool_decide_eq_false_2 (a ∈ ["--help"; "--auth"; "--debug"]))
      by (rewrite !elem_of_cons, elem_of_nil; tauto).
    rewrite (bool_decide_eq_false_2 ("--help" = a)) by done.
    rewrite (bool_decide_eq_false_2 ("--auth" = a)) by done.
    rewrite (bool_decide_eq_false_2 ("--debug" = a)) by done.
    rewrite !orb_false_r. cbn [orb].
    destruct (String.prefix "--" a && includes_eq a); [|by right].
    cbn [andb]. destruct (split_eq_2 a) as [key value]. cbn [fst].
    destruct (decide (key = "--output-path")) as [->|Hout].
    { left. split; [reflexivity|]. by eexists. }
    destruct (decide (key = "--cookies-path")) as [->|Hcookies].
    { left. split; [reflexivity|]. by eexists. }
    right. split; [|done]. apply bool_decide_eq_false_2.
    rewrite !elem_of_cons, elem_of_nil. tauto. }
  assert (Hstuck : ∀ code, foldl step (Exit code) args = Exit code).
  { apply parseArgs_exit_stuck. done. }
  enough (Hgen : ∀ opts,
            ((∃ opts', foldl step (Ok opts) args = Ok opts'
                       ∧ help opts' = help opts || bool_decide ("--help" ∈ args)
                       ∧ auth opts' = auth opts || bool_decide ("--auth" ∈ args)
                       ∧ debug opts' = debug opts || bool_decide ("--debug" ∈ args))
             ∧ Forall (λ a, recognised a = true) args)
            ∨ (foldl step (Ok opts) args = Exit 1
               ∧ Exists (λ a, recognised a = false) args)).
  { destruct (Hgen init) as [[(opts' & Hrun & Hh & Ha & Hd) Hall]|Hexit];
      [left|by right].
    split; [|done]. by exists opts'. }
  clear Hstuck init.
  induction args as [|a args IH]; intros opts.
  - left. split; [|constructor]. exists opts. split; [done|].
    rewrite !(bool_decide_eq_false_2 (_ ∈ [])) by apply not_elem_of_nil.
    by rewrite !orb_false_r.
  - cbn [foldl].
    destruct (Hstep opts a) as [[Hrec (opts1 & -> & Hh1 & Ha1 & Hd1)]|[Hrec ->]].
    + destruct (IH opts1) as [[(opts' & Hrun & Hh & Ha & Hd) Hall]|[Hrun Hex]].
      * left. split; [|by constructor]. exists opts'. split; [done|].
        rewrite !bool_decide_elem_of_cons, Hh, Ha, Hd, Hh1, Ha1, Hd1.
        by rewrite !orb_assoc.
      * right. split; [done|by right].
    + right. split; [|by left].
      apply parseArgs_exit_stuck. done.
Qed.

(** X19. [parseArgs] never throws. It ends the process with code 1
    exactly when one of the arguments is neither one of the three flags nor
    one of the two options with a value; otherwise it returns options in
    which each flag tells whether it is among the arguments. *)
Theorem parseArgs_result ts args :
  (∀ message, parseArgs ts args ≠ Throw message)
  ∧ (∀ code, parseArgs ts args = Exit code → code = 1%Z)
  ∧ (parseArgs ts args = Exit 1 ↔ Exists (λ a, recognised a = false) args)
  ∧ ((∃ opts, parseArgs ts args = Ok opts
              ∧ help opts = bool_decide ("--help" ∈ args)
              ∧ auth opts = bool_decide ("--auth" ∈ args)
              ∧ debug opts = bool_decide ("--debug" ∈ args))
     ↔ Forall (λ a, recognised a = true) args).
Proof.
  destruct (parseArgs_cases ts args)
    as [[(opts & Hrun & Hflags) Hall]|[Hrun Hex]]; rewrite Hrun.
  - split_and!; [done|done| |].
    + split; [done|]. intros Hex. exfalso.
      apply Exists_exists in Hex as (a & Ha & Hrec).
      apply (proj1 (Forall_forall _ _) Hall) in Ha. congruence.
    + split; [done|]. intros _. by exists opts.
  - split_and!; [done|by intros code [= <-]|done|].
    split; [by intros (opts & [=] & _)|]. intros Hall. exfalso.
    apply Exists_exists in Hex as (a & Ha & Hrec).
    apply (proj1 (Forall_forall _ _) Hall) in Ha. congruence.
Qed.

Lemma cut_eq_app key rest :
  includes_eq key = false → cut_eq (key +:+ String "=" rest) = (key, Some rest).
Proof.
  induction key as [|c key IH]; cbn [includes_eq].
  - intros _. change ("" +:+ String "=" rest) with (String "=" rest).
    cbn [cut_eq]. by rewrite decide_True.
  - destruct (decide (c = "="%char)) as [|Hc]; [done|]. intros Hkey.
    rewrite string_app_cons. cbn [cut_eq]. rewrite decide_False by done.
    by rewrite IH.
Qed.

Lemma cut_eq_none value : includes_eq value = false → cut_eq value = (value, None).
Proof.
  induction value as [|c value IH]; cbn [includes_eq cut_eq]; [done|].
  destruct (decide (c = "="%char)); [done|]. intros Hvalue. by rewrite IH.
Qed.

(** X20. The value of an option ends at the second equals sign of the
    argument: [split] with the limit 2 drops what follows, so a path that
    holds an equals sign is cut short without notice. *)
Theorem option_value_cut_at_second_equals ts value rest :
  includes_eq value = false →
  parseArgs ts ["--output-path=" +:+ value +:+ String "=" rest]
  = parseArgs ts ["--output-path=" +:+ value]
  ∧ ∃ opts, parseArgs ts ["--output-path=" +:+ value] = Ok opts
            ∧ outputPath opts = value.
Proof.
  intros Hvalue.
  assert (Hlong : split_eq_2 ("--output-path=" +:+ value +:+ String "=" rest)
                  = ("--output-path", value)).
  { unfold split_eq_2.
    change ("--output-path=" +:+ value +:+ String "=" rest)
      with ("--output-path" +:+ String "=" (value +:+ String "=" rest)).
    rewrite (cut_eq_app "--output-path" (value +:+ String "=" rest)) by done.
    change (default EmptyString (Some ?x)) with x. by rewrite cut_eq_app. }
  assert (Hshort : split_eq_2 ("--output-path=" +:+ value) = ("--output-path", value)).
  { unfold split_eq_2.
    change ("--output-path=" +:+ value) with ("--output-path" +:+ String "=" value).
    rewrite (cut_eq_app "--output-path" value) by done.
    change (default EmptyString (Some ?x)) with x. by rewrite cut_eq_none. }
  assert (Hparse : ∀ tail,
            split_eq_2 ("--output-path=" +:+ tail) = ("--output-path", value) →
            parseArgs ts ["--output-path=" +:+ tail]
            = Ok (Options value "./cookies.json" false false false)).
  { intros tail Hsplit. unfold parseArgs. cbn [foldl].
    rewrite !decide_False by done.
    assert (String.prefix "--" ("--output-path=" +:+ tail)
            && includes_eq ("--output-path=" +:+ tail) = true) as -> by reflexivity.
    rewrite Hsplit. by rewrite decide_True. }
  rewrite (Hparse value Hshort), (Hparse _ Hlong). split; [done|]. by eexists.
Qed.

Lemma option_value_cut_at_second_equals_witness :
  parseArgs "2025-01-01-000000" ["--output-path=out/a=b.json"]
  = parseArgs "2025-01-01-000000" ["--output-path=out/a"].
Proof.
  apply (option_value_cut_at_second_equals "2025-01-01-000000" "out/a" "b.json").
  reflexivity.
Defined.

(** *** The default output path *)

Lemma is_digit_cases c :
  is_digit c = true → c ≠ ":"%char ∧ c ≠ "T"%char ∧ iso_char c = true.
Proof.
  unfold iso_char. intros Hc. rewrite Hc. split_and!; [..|done].
  - intros ->. vm_compute in Hc. discriminate Hc.
  - intros ->. vm_compute in Hc. discriminate Hc.
Qed.

Lemma iso_char_not_dangerous c :
  iso_char c = true → c ≠ ":"%char →
  bool_decide (c ∈ ["<"; ">"; ":"; "034"; "|"; "?"; "*"]%char)
  || (nat_of_ascii c <? 32)%nat = false.
Proof.
  unfold iso_char, is_digit. rewrite orb_true_iff, !bool_decide_eq_true.
  intros [Hc|Hc] Hcolon;
    repeat (apply elem_of_cons in Hc as [->|Hc]);
    try (by apply elem_of_nil in Hc); try done; vm_compute; reflexivity.
Qed.

Lemma remove_colons_chars s :
  all_chars iso_char s = true →
  all_chars (λ c, iso_char c && negb (bool_decide (c = ":"%char))) (remove_colons s)
  = true.
Proof.
  induction s as [|c s IH]; [done|]. cbn [all_chars remove_colons].
  intros [Hc Hs]%andb_true_iff. destruct (decide (c = ":"%char)) as [|Hne]; [by apply IH|].
  cbn [all_chars]. rewrite Hc, IH by done.
  by rewrite bool_decide_eq_false_2.
Qed.

Lemma replace_first_T_chars (P : ascii → bool) s :
  P "-"%char = true → all_chars P s = true → all_chars P (replace_first_T s) = true.
Proof.
  intros Hdash. induction s as [|c s IH]; [done|]. cbn [all_chars replace_first_T].
  intros [Hc Hs]%andb_true_iff. destruct (decide (c = "T"%char)).
  - cbn [all_chars]. by rewrite Hdash, Hs.
  - cbn [all_chars]. by rewrite Hc, IH.
Qed.

Lemma dangerousPatterns_app a b :
  dangerousPatterns (a +:+ b) = dangerousPatterns a || dangerousPatterns b.
Proof.
  induction a as [|c a IH]; [done|].
  rewrite string_app_cons. cbn [dangerousPatterns]. by rewrite IH, orb_assoc.
Qed.

Lemma dangerousPatterns_iso s :
  all_chars (λ c, iso_char c && negb (bool_decide (c = ":"%char))) s = true →
  dangerousPatterns s = false.
Proof.
  induction s as [|c s IH]; [done|]. cbn [all_chars dangerousPatterns].
  intros [[Hc Hne%negb_true_iff%bool_decide_eq_false]%andb_true_iff Hs]%andb_true_iff.
  by rewrite iso_char_not_dangerous, IH.
Qed.

(** X21. Whatever the date, the default output path holds none of the
    characters [isValidFilePath] rejects, the colons of the time being
    removed: without arguments, [validateInputs] lets the run go on as soon
    as the directories of the two paths can be used. *)
Theorem default_output_path_accepted iso :
  all_chars iso_char iso = true →
  parseArgs (timestamp iso) []
  = Ok (Options (defaultOutputPath iso) "./cookies.json" false false false)
  ∧ dangerousPatterns (defaultOutputPath iso) = false
  ∧ ∀ env opts,
      parseArgs (timestamp iso) [] = Ok opts →
      validateInputs env opts
      = if env_dir_ok env (outputPath opts) && env_dir_ok env (cookiesPath opts)
        then Ok tt else Exit 1.
Proof.
  intros Hiso.
  assert (Hsafe : dangerousPatterns (defaultOutputPath iso) = false).
  { unfold defaultOutputPath. rewrite !dangerousPatterns_app.
    rewrite (dangerousPatterns_iso (timestamp iso)); [reflexivity|].
    unfold timestamp. apply replace_first_T_chars; [reflexivity|].
    apply remove_colons_chars. by apply substring_all_chars. }
  split_and!; [done|done|].
  intros env opts [= <-]. unfold validateInputs, isValidFilePath.
  cbn [outputPath cookiesPath]. fold (defaultOutputPath iso). rewrite Hsafe.
  assert (dangerousPatterns "./cookies.json" = false) as -> by reflexivity.
  rewrite !decide_False by done.
  by destruct (env_dir_ok env (defaultOutputPath iso)),
              (env_dir_ok env "./cookies.json").
Qed.

Lemma default_output_path_accepted_witness :
  dangerousPatterns (defaultOutputPath "2025-01-01T00:00:00.000Z") = false.
Proof.
  apply (default_output_path_accepted "2025-01-01T00:00:00.000Z"). reflexivity.
Defined.

(** The text of the date as it is, colons included, would be rejected. *)
Example iso_text_rejected :
  dangerousPatterns "./tailwindplus-components-2025-01-01T00:00:00.json" = true.
Proof. reflexivity. Qed.

Lemma remove_colons_digits s t :
  all_chars is_digit s = true → remove_colons (s +:+ t) = s +:+ remove_colons t.
Proof.
  induction s as [|c s IH]; [done|]. cbn [all_chars].
  intros [Hc Hs]%andb_true_iff. destruct (is_digit_cases c Hc) as (Hcolon & _ & _).
  rewrite !string_app_cons. cbn [remove_colons]. rewrite decide_False by done.
  by rewrite IH.
Qed.

Lemma replace_first_T_digits s t :
  all_chars is_digit s = true → replace_first_T (s +:+ t) = s +:+ replace_first_T t.
Proof.
  induction s as [|c s IH]; [done|]. cbn [all_chars].
  intros [Hc Hs]%andb_true_iff. destruct (is_digit_cases c Hc) as (_ & HT & _).
  rewrite !string_app_cons. cbn [replace_first_T]. rewrite decide_False by done.
  by rewrite IH.
Qed.

Lemma substring_app_exact (a rest : string) :
  String.substring 0 (String.length a) (a +:+ rest) = a.
Proof.
  induction a as [|c a IH].
  - change ("" +:+ rest) with rest. by destruct rest.
  - rewrite string_app_cons. cbn [String.length String.substring]. by rewrite IH.
Qed.

(** X22. For a date whose year has four digits the timestamp of the
    default output path reads year, month and day, a dash, then hour, minute
    and second without separator: 17 characters, whatever follows the
    seconds in the text of the date. *)
Theorem timestamp_format year month day hour minute second rest :
  digits 4 year → digits 2 month → digits 2 day →
  digits 2 hour → digits 2 minute → digits 2 second →
  timestamp (year +:+ "-" +:+ month +:+ "-" +:+ day +:+ "T"
             +:+ hour +:+ ":" +:+ minute +:+ ":" +:+ second +:+ rest)
  = year +:+ "-" +:+ month +:+ "-" +:+ day +:+ "-" +:+ hour +:+ minute +:+ second
  ∧ String.length (timestamp (year +:+ "-" +:+ month +:+ "-" +:+ day +:+ "T"
                              +:+ hour +:+ ":" +:+ minute +:+ ":" +:+ second +:+ rest))
    = 17%nat.
Proof.
  intros [Ly Hy] [Lmo Hmo] [Ld Hd] [Lh Hh] [Lmi Hmi] [Ls Hs].
  assert (Hts : timestamp (year +:+ "-" +:+ month +:+ "-" +:+ day +:+ "T"
                           +:+ hour +:+ ":" +:+ minute +:+ ":" +:+ second +:+ rest)
                = year +:+ "-" +:+ month +:+ "-" +:+ day +:+ "-"
                  +:+ hour +:+ minute +:+ second).
  { unfold timestamp.
    replace (year +:+ "-" +:+ month +:+ "-" +:+ day +:+ "T"
             +:+ hour +:+ ":" +:+ minute +:+ ":" +:+ second +:+ rest)
      with ((year +:+ "-" +:+ month +:+ "-" +:+ day +:+ "T"
             +:+ hour +:+ ":" +:+ minute +:+ ":" +:+ second) +:+ rest)
      by (by rewrite !string_app_assoc).
    replace 19%nat
      with (String.length (year +:+ "-" +:+ month +:+ "-" +:+ day +:+ "T"
                           +:+ hour +:+ ":" +:+ minute +:+ ":" +:+ second))
      by (rewrite !string_length_app, Ly, Lmo, Ld, Lh, Lmi, Ls; reflexivity).
    rewrite substring_app_exact.
    rewrite (remove_colons_digits year) by done.
    change ("-" +:+ ?s) with (String "-" s). cbn [remove_colons].
    rewrite decide_False by done.
    rewrite (remove_colons_digits month) by done.
    change ("-" +:+ ?s) with (String "-" s). cbn [remove_colons].
    rewrite decide_False by done.
    rewrite (remove_colons_digits day) by done.
    change ("T" +:+ ?s) with (String "T" s). cbn [remove_colons].
    rewrite decide_False by done.
    rewrite (remove_colons_digits hour) by done.
    change (":" +:+ ?s) with (String ":" s). cbn [remove_colons].
    rewrite decide_True by done.
    rewrite (remove_colons_digits minute) by done.
    change (":" +:+ ?s) with (String ":" s). cbn [remove_colons].
    rewrite decide_True by done.
    replace second with (second +:+ "") at 1 by apply string_app_nil_r.
    rewrite (remove_colons_digits second) by done. cbn [remove_colons].
    rewrite string_app_nil_r.
    rewrite (replace_first_T_digits year) by done.
    cbn [replace_first_T]. rewrite decide_False by done.
    rewrite (replace_first_T_digits month) by done.
    cbn [replace_first_T]. rewrite decide_False by done.
    rewrite (replace_first_T_digits day) by done.
    cbn [replace_first_T]. rewrite decide_True by done.
    reflexivity. }
  split; [done|]. rewrite Hts.
  rewrite !string_length_app, Ly, Lmo, Ld, Lh, Lmi, Ls. reflexivity.
Qed.

Lemma timestamp_format_witness :
  timestamp "2025-01-31T23:59:58.123Z" = "2025-01-31-235958".
Proof.
  apply (timestamp_format "2025" "01" "31" "23" "59" "58" ".123Z");
    split; reflexivity.
Defined.

(** *** The exit code *)

Lemma main_exit_inv env code :
  (∀ p c, env_login env p ≠ Exit c) →
  (∀ p c, env_cookie_file env p ≠ Some (Exit c)) →
  main env = Exit code → code = 1%Z ∧ exits_with_1 env.
Proof.
  intros Hlogin Hfile. unfold main, exits_with_1.
  destruct (parseArgs_cases (env_timestamp env) (env_argv env))
    as [[(opts & Hparse & _) _]|[Hparse Hex]]; rewrite Hparse.
  2:{ intros [= <-]. split; [done|by left]. }
  destruct (help opts) eqn:Hhelp; [done|]. unfold validateInputs.
  destruct (isValidFilePath env (outputPath opts)) eqn:Hout; cbn [negb].
  2:{ intros [= <-]. split; [done|]. right. exists opts. split_and!; [done..|].
      by left. }
  destruct (isValidFilePath env (cookiesPath opts)) eqn:Hck; cbn [negb].
  2:{ intros [= <-]. split; [done|]. right. exists opts. split_and!; [done..|].
      right. by left. }
  destruct (handleAuthentication env opts) as [cookies|message|c] eqn:Hauth; [|done|].
  - destruct (run_scrape (env_browser env) rootUrl cookies)
      as [[tree|message|c] ws] eqn:Hrun; cbn [fst]; [|done|].
    + unfold processAndSaveResults. case_bool_decide as Hlen.
      * intros [= <-]. split; [done|]. right. exists opts. split_and!; [done..|].
        do 3 right. exists cookies. split; [done|].
        destruct (run_scrape_tree _ _ _ _ _ Hrun) as (names & Hcond & _ & ->).
        rewrite obj_keys_map in Hlen. unfold obj_keys in Hlen.
        rewrite length_fmap in Hlen. by destruct names.
      * by destruct (env_write env (outputPath opts)).
    + by apply run_scrape_no_exit in Hrun.
  - unfold handleAuthentication in Hauth. destruct (auth opts) eqn:Hau.
    { destruct (env_login env (cookiesPath opts)) eqn:Hl; try done.
      by apply Hlogin in Hl. }
    destruct (env_cookie_file env (cookiesPath opts)) as [[[|]|message|c']|] eqn:Hf;
      try done.
    + injection Hauth as <-. intros [= <-]. split; [done|]. right. exists opts.
      split_and!; [done..|]. right. right. left. split; [done|by right].
    + by apply Hfile in Hf.
    + injection Hauth as <-. intros [= <-]. split; [done|]. right. exists opts.
      split_and!; [done..|]. right. right. left. split; [done|by left].
Qed.

Lemma main_exit_intro env : exits_with_1 env → main env = Exit 1.
Proof.
  unfold main, exits_with_1.
  intros [Hex|(opts & Hparse & Hhelp & Hcases)].
  - destruct (parseArgs_cases (env_timestamp env) (env_argv env))
      as [[_ Hall]|[-> _]]; [|done].
    exfalso. apply Exists_exists in Hex as (a & Ha & Hrec).
    apply (proj1 (Forall_forall _ _) Hall) in Ha. congruence.
  - rewrite Hparse, Hhelp. unfold validateInputs.
    destruct (isValidFilePath env (outputPath opts)) eqn:Hout; [|done].
    destruct (isValidFilePath env (cookiesPath opts)) eqn:Hck; [|done].
    cbn [negb].
    destruct Hcases as [H|[H|[[Hau Hf]|(cookies & Hauth & Hcond)]]]; [done|done|..].
    + unfold handleAuthentication. rewrite Hau. by destruct Hf as [->| ->].
    + rewrite Hauth.
      destruct (run_scrape_total _ _ _ _ Hcond) as (tree & ws & Hrun).
      rewrite Hrun. cbn [fst].
      destruct (run_scrape_tree _ _ _ _ _ Hrun) as (names & Hcond' & _ & ->).
      destruct Hcond as (_ & _ & _ & Hnames & _),
               Hcond' as (_ & _ & _ & Hnames' & _).
      rewrite Hnames in Hnames'. by injection Hnames' as <-.
Qed.

(** X23. As long as the login and the reading of the cookie file do not
    end the process themselves, the exit code of the program is 0 or 1. It
    is 1 exactly when an argument is not recognised or, without [--help], a
    path is not valid, there are no cookies to load, or the root page shows
    no product. No failure of the browser gives it: a run that is rejected
    ends with code 0, like one that saves a tree made of error markers. *)
Theorem exit_code_is_1_iff env :
  (∀ p code, env_login env p ≠ Exit code) →
  (∀ p code, env_cookie_file env p ≠ Some (Exit code)) →
  (exit_code env = 0%Z ∨ exit_code env = 1%Z)
  ∧ (exit_code env = 1%Z ↔ exits_with_1 env).
Proof.
  intros Hlogin Hfile.
  pose proof (main_exit_inv env) as Hinv. pose proof (main_exit_intro env) as Hintro.
  unfold exit_code. destruct (main env) as [[]|message|code] eqn:Hmain.
  - split; [by left|]. split; [done|]. intros Hex. by specialize (Hintro Hex).
  - split; [by left|]. split; [done|]. intros Hex. by specialize (Hintro Hex).
  - destruct (Hinv code Hlogin Hfile eq_refl) as [-> Hex]. split; [by right|done].
Qed.

Lemma exit_code_is_1_iff_witness :
  exit_code (demo_environment (demo_browser demo_visit)) = 0%Z
  ∨ exit_code (demo_environment (demo_browser demo_visit)) = 1%Z.
Proof.
  apply (exit_code_is_1_iff (demo_environment (demo_browser demo_visit))).
  - intros p code Heq. discriminate Heq.
  - intros p code Heq. discriminate Heq.
Defined.

(** X24. With [--help] among arguments that are all recognised, [main]
    returns at once, whatever the paths, the cookies and the browser are;
    the arguments are all read first, so that one that is not recognised
    ends the process even after [--help]. *)
Theorem help_returns_at_once env :
  "--help" ∈ env_argv env →
  (Forall (λ a, recognised a = true) (env_argv env) → main env = Ok tt)
  ∧ (Exists (λ a, recognised a = false) (env_argv env) → main env = Exit 1).
Proof.
  intros Hhelp. unfold main.
  destruct (parseArgs_cases (env_timestamp env) (env_argv env))
    as [[(opts & -> & Hh & _) Hall]|[-> Hex]].
  - rewrite bool_decide_eq_true_2 in Hh by done. rewrite Hh.
    split; [done|]. intros Hex. exfalso.
    apply Exists_exists in Hex as (a & Ha & Hrec).
    apply (proj1 (Forall_forall _ _) Hall) in Ha. congruence.
  - split; [|done]. intros Hall. exfalso.
    apply Exists_exists in Hex as (a & Ha & Hrec).
    apply (proj1 (Forall_forall _ _) Hall) in Ha. congruence.
Qed.

Lemma help_returns_at_once_witness :
  main {| env_argv := ["--output-path=<"; "--help"];
          env_timestamp := "2025-01-01-000000";
          env_dir_ok := λ _, false;
          env_cookie_file := λ _, None;
          env_login := λ _, Throw "login";
          env_browser := root_unreachable;
          env_write := λ _, Some "EACCES" |}
  = Ok tt.
Proof.
  apply (help_returns_at_once
           {| env_argv := ["--output-path=<"; "--help"];
              env_timestamp := "2025-01-01-000000";
              env_dir_ok := λ _, false;
              env_cookie_file := λ _, None;
              env_login := λ _, Throw "login";
              env_browser := root_unreachable;
              env_write := λ _, Some "EACCES" |}).
  - cbn. apply list_elem_of_In. right. left. reflexivity.
  - cbn. repeat (first [apply Forall_nil_2|apply Forall_cons_2]); reflexivity.
Defined.

End EntryPoint.

(** ** The assignments of a run *)

Section Assignments.

Lemma assign3_run product productSection subSection v st sections groups :
  obj_get product (productHierarchy st) = Some (VObj sections) →
  obj_get productSection sections = Some (VObj groups) →
  assign3 product productSection subSection v st
  = (Ok tt,
     State (obj_set product
              (VObj (obj_set productSection (VObj (obj_set subSection v groups))
                             sections))
              (productHierarchy st))
           (writes st ++ [([product; productSection; subSection], v)])).
Proof. intros Hp Hs. unfold assign3. by rewrite Hp, Hs. Qed.

Lemma group_step_writes b product productSection subSection componentsUrl
    st st' sections groups :
  obj_get product (productHierarchy st) = Some (VObj sections) →
  obj_get productSection sections = Some (VObj groups) →
  group_step b product productSection (subSection, componentsUrl) st = (Ok tt, st') →
  writes st'
  = writes st ++ group_writes (br_group b product productSection subSection)
                              [product; productSection; subSection] componentsUrl.
Proof.
  intros Hp Hs. unfold group_step, group_writes, try_catch.
  rewrite run_bind. unfold lift at 1.
  destruct componentsUrl as [url|o]; cbn [goto_url].
  2:{ rewrite (assign3_run _ _ _ _ _ _ _ Hp Hs). by intros [= <-]. }
  rewrite run_bind. unfold await at 1.
  destruct (gv_goto (br_group b product productSection subSection) url) as [message|].
  { unfold throw, lift. rewrite (assign3_run _ _ _ _ _ _ _ Hp Hs). by intros [= <-]. }
  unfold mret, M_ret, ret. rewrite run_bind.
  rewrite (assign3_run _ _ _ _ _ _ _ Hp Hs). unfold await.
  destruct (gv_goBack (br_group b product productSection subSection)) as [message|].
  - unfold throw, lift.
    erewrite assign3_run;
      [|cbn [productHierarchy]; apply obj_get_set_eq|apply obj_get_set_eq].
    intros [= <-]. cbn [writes]. by rewrite <- app_assoc.
  - unfold mret, M_ret, ret. by intros [= <-].
Qed.

Lemma group_loop_writes b product productSection todo :
  ∀ pre st st' sections,
    NoDup (obj_keys (pre ++ todo)) →
    obj_get product (productHierarchy st) = Some (VObj sections) →
    obj_get productSection sections = Some (VObj (pre ++ todo)) →
    for_each todo (group_step b product productSection) st = (Ok tt, st') →
    writes st'
    = writes st
      ++ (todo ≫= λ '(subSection, componentsUrl),
            group_writes (br_group b product productSection subSection)
                         [product; productSection; subSection] componentsUrl).
Proof.
  induction todo as [|[g u] todo IH]; intros pre st st' sections Hnd Hp Hs.
  - intros [= <-]. by rewrite app_nil_r.
  - cbn [for_each].
    destruct (group_step_spec b product productSection g u st sections _ Hp Hs)
      as (st1 & Hstep & Hst1).
    unfold bind. rewrite Hstep. intros Hrest.
    pose proof (group_step_writes _ _ _ _ _ _ _ _ _ Hp Hs Hstep) as Hw1.
    rewrite obj_set_middle in Hst1 by (by eapply NoDup_keys_middle).
    set (node := group_node (br_group b product productSection g) u) in *.
    rewrite (IH (pre ++ [(g, node)]) st1 st'
               (obj_set productSection (VObj ((pre ++ [(g, node)]) ++ todo)) sections)).
    + rewrite Hw1, <- app_assoc. done.
    + rewrite obj_keys_snoc. rewrite !obj_keys_app in *. done.
    + rewrite Hst1, <- app_assoc. apply obj_get_set_eq.
    + apply obj_get_set_eq.
    + done.
Qed.

Lemma section_loop_writes b product todo :
  ∀ pre st st',
    NoDup (obj_keys (pre ++ todo)) →
    Forall (λ kv, ∃ groups, kv.2 = VObj groups ∧ groups_wf groups) todo →
    obj_get product (productHierarchy st) = Some (VObj (pre ++ todo)) →
    for_each (obj_keys todo)
      (λ productSection,
         entries ← entries_of_section product productSection;
         for_each entries (group_step b product productSection)) st
    = (Ok tt, st') →
    writes st' = writes st ++ section_writes b product todo.
Proof.
  induction todo as [|[s v] todo IH]; intros pre st st' Hnd Hwf Hp.
  - intros [= <-]. by rewrite app_nil_r.
  - apply Forall_cons in Hwf as [(groups & Hv & Hgroups & _) Hwf]. simpl in Hv. subst v.
    cbn [obj_keys fmap list_fmap fst for_each]. unfold bind at 1.
    rewrite run_bind. unfold entries_of_section at 1. rewrite Hp.
    pose proof (NoDup_keys_middle _ _ _ _ Hnd) as Hs.
    rewrite obj_get_middle by done.
    destruct (group_loop_spec b product s groups [] st (pre ++ (s, VObj groups) :: todo))
      as (st1 & Hloop & Hst1); [done|done|by apply obj_get_middle|].
    unfold obj_entries. rewrite Hloop. intros Hrest.
    apply (group_loop_writes b product s groups [] st st1
             (pre ++ (s, VObj groups) :: todo)) in Hloop as Hw1;
      [|done|done|by apply obj_get_middle].
    rewrite obj_set_middle in Hst1 by done. cbn [app] in Hst1.
    set (node := VObj (expand_groups b product s groups)) in *.
    rewrite (IH (pre ++ [(s, node)]) st1 st').
    + rewrite Hw1, <- app_assoc. done.
    + rewrite obj_keys_snoc. rewrite !obj_keys_app in *. done.
    + done.
    + rewrite Hst1, <- app_assoc. apply obj_get_set_eq.
    + done.
Qed.

Lemma product_step_writes b product productPageUrl st st' :
  product_step b (product, productPageUrl) st = (Ok tt, st') →
  writes st' = writes st ++ product_writes b (product, productPageUrl).
Proof.
  unfold product_step, product_writes. rewrite run_bind. unfold await at 1.
  destruct (pv_newPage (br_product b product)) as [message|]; [done|].
  unfold mret, M_ret, ret, try_finally, try_catch.
  rewrite run_bind. unfold lift at 1.
  destruct productPageUrl as [url|o]; cbn [goto_url].
  2:{ unfold assign1, await. cbn.
      destruct (pv_close (br_product b product)); [done|]. by intros [= <-]. }
  rewrite run_bind. unfold await at 1.
  destruct (pv_goto (br_product b product) url) as [message|].
  { unfold throw, lift, assign1, await. cbn.
    destruct (pv_close (br_product b product)); [done|]. by intros [= <-]. }
  unfold mret, M_ret, ret. rewrite run_bind. unfold lift at 1.
  destruct (getProductSectionsAndPageUrls (pv_sections (br_product b product)))
    as [sections|message|code] eqn:Hsections; cbn [evaluate].
  2:{ unfold assign1, await. cbn.
      destruct (pv_close (br_product b product)); [done|]. by intros [= <-]. }
  2:{ by apply getProductSectionsAndPageUrls_no_exit in Hsections. }
  apply getProductSectionsAndPageUrls_wf in Hsections as [Hnd Hwf].
  rewrite run_bind. unfold assign1 at 1. rewrite run_bind.
  unfold keys_of_product at 1. cbn [productHierarchy]. rewrite obj_get_set_eq.
  match goal with
  | |- context [for_each (obj_keys sections) _ ?s] => remember s as st0 eqn:Hst0
  end.
  assert (Hp : obj_get product (productHierarchy st0) = Some (VObj ([] ++ sections))).
  { subst st0. cbn [productHierarchy]. apply obj_get_set_eq. }
  destruct (section_loop_spec b product sections [] st0 Hnd Hwf Hp)
    as (st1 & Hloop & _).
  rewrite Hloop.
  pose proof (section_loop_writes b product sections [] st0 st1 Hnd Hwf Hp Hloop)
    as Hw1.
  subst st0. cbn [writes] in Hw1.
  unfold await. destruct (pv_close (br_product b product)); [done|].
  intros [= <-]. rewrite Hw1, <- app_assoc. done.
Qed.

Lemma product_loop_writes b todo :
  ∀ st st',
    for_each todo (product_step b) st = (Ok tt, st') →
    writes st' = writes st ++ (todo ≫= product_writes b).
Proof.
  induction todo as [|[p u] todo IH]; intros st st'.
  - intros [= <-]. by rewrite app_nil_r.
  - cbn [for_each]. unfold bind.
    destruct (product_step b (p, u) st) as [[[]|message|code] st1] eqn:Hstep; try done.
    apply product_step_writes in Hstep. intros Hrest.
    rewrite (IH st1 st' Hrest), Hstep, <- app_assoc. done.
Qed.

Lemma run_scrape_writes b rootUrl cookies tree ws :
  run_scrape b rootUrl cookies = (Ok tree, ws) →
  ∃ names, getProductNamesAndPageUrls (br_root_sections b) = Ok names
           ∧ tree = obj_map (product_node b) names
           ∧ ws = names ≫= product_writes b.
Proof.
  intros Hrun.
  destruct (run_scrape_tree _ _ _ _ _ Hrun) as (names & Hcond & _ & Htree).
  destruct Hcond as (Hlaunch & Hcookies & Hroot & Hnames & Hclose & Htabs & Hend).
  exists names. split; [done|]. split; [done|].
  revert Hrun. unfold run_scrape, scrapeTailwindPlus.
  rewrite run_bind, Hlaunch. cbn [await].
  unfold mret, M_ret, ret, try_finally, try_catch. rewrite run_bind.
  assert (Hc : (if cookies then await (br_addCookies b) else λ st, (Ok tt, st))
                 (State [] []) = (Ok tt, State [] [])).
  { destruct cookies; [|done]. by rewrite Hcookies. }
  rewrite Hc, run_bind, Hroot. cbn [await]. unfold mret, M_ret, ret.
  rewrite run_bind, Hnames. cbn [evaluate]. unfold lift at 1.
  rewrite run_bind. unfold set_hierarchy at 1. rewrite run_bind, Hclose.
  cbn [await]. unfold mret, M_ret, ret. rewrite run_bind.
  unfold entries_of_hierarchy at 1. cbn [productHierarchy writes].
  rewrite run_bind. unfold obj_entries.
  destruct (proj2 (product_loop_completes b names (State names [])) Htabs)
    as [st1 Hloop].
  rewrite Hloop. apply product_loop_writes in Hloop. cbn [writes app] in Hloop.
  unfold get_hierarchy. rewrite Hend. cbn [await]. unfold mret, M_ret, ret.
  intros [= _ <-]. done.
Qed.

(** X25. The assignments of a completed run are, up to the order in which
    the nodes are visited, those of its products: for each product of the
    root page its Sections as the product page lists them, then for each
    Group the mapping of its components, and an error marker besides when
    [goBack] fails; or the error marker alone where the navigation or the
    extraction fails. *)
Theorem run_scrape_assignments b rootUrl cookies tree ws :
  run_scrape b rootUrl cookies = (Ok tree, ws) →
  ∃ names, getProductNamesAndPageUrls (br_root_sections b) = Ok names
           ∧ ws ≡ₚ names ≫= product_writes b.
Proof.
  intros Hrun.
  destruct (run_scrape_writes _ _ _ _ _ Hrun) as (names & Hnames & _ & ->).
  by exists names.
Qed.

Lemma run_scrape_assignments_witness :
  ∃ names,
    getProductNamesAndPageUrls (br_root_sections (demo_browser goBack_fails)) = Ok names
    ∧ (run_scrape (demo_browser goBack_fails) rootUrl true).2
      ≡ₚ names ≫= product_writes (demo_browser goBack_fails).
Proof.
  apply (run_scrape_assignments (demo_browser goBack_fails) rootUrl true
           (demo_tree goBack_fails)).
  vm_compute. reflexivity.
Defined.

Lemma filter_none {B} (P : B → Prop) `{!∀ x, Decision (P x)} (l : list B) :
  Forall (λ x, ¬ P x) l → filter P l = [].
Proof.
  induction l as [|x l IH]; [done|]. intros [Hx Hl]%Forall_cons.
  rewrite filter_cons_False by done. by apply IH.
Qed.

Lemma filter_bind_nil {A B} (P : B → Prop) `{!∀ x, Decision (P x)}
    (f : A → list B) (l : list A) :
  (∀ x, x ∈ l → filter P (f x) = []) → filter P (l ≫= f) = [].
Proof.
  induction l as [|a l IH]; intros Hall; [done|].
  change ((a :: l) ≫= f) with (f a ++ (l ≫= f)).
  rewrite filter_app, Hall by (by left). rewrite IH; [done|].
  intros x Hx. apply Hall. by right.
Qed.

Lemma filter_bind_length_le {A B} (P : B → Prop) `{!∀ x, Decision (P x)}
    (f : A → list B) (key : A → string) (k : string) (n : nat) (l : list A) :
  NoDup (key <$> l) →
  (∀ x, x ∈ l → key x = k → (length (filter P (f x)) ≤ n)%nat) →
  (∀ x, x ∈ l → key x ≠ k → filter P (f x) = []) →
  (length (filter P (l ≫= f)) ≤ n)%nat.
Proof.
  induction l as [|a l IH]; intros Hnd Hk Hother; [cbn; lia|].
  cbn [fmap list_fmap] in Hnd. apply NoDup_cons in Hnd as [Ha Hnd].
  change ((a :: l) ≫= f) with (f a ++ (l ≫= f)). rewrite filter_app, length_app.
  destruct (decide (key a = k)) as [Heq|Hne].
  - rewrite (filter_bind_nil P f l).
    + assert (a ∈ a :: l) as Hin by (by left). specialize (Hk a Hin Heq). cbn. lia.
    + intros x Hx. apply Hother; [by right|]. intros Hkx. apply Ha.
      rewrite Heq, <- Hkx. apply list_elem_of_fmap. by exists x.
  - rewrite (Hother a) by (done || by left). cbn.
    apply IH; [done|..]; intros x Hx; [apply Hk|apply Hother]; by right.
Qed.

Lemma filter_bind_length_one {A B} (P : B → Prop) `{!∀ x, Decision (P x)}
    (f : A → list B) (key : A → string) (k : string) (l : list A) :
  NoDup (key <$> l) →
  k ∈ key <$> l →
  (∀ x, x ∈ l → key x = k → length (filter P (f x)) = 1%nat) →
  (∀ x, x ∈ l → key x ≠ k → filter P (f x) = []) →
  length (filter P (l ≫= f)) = 1%nat.
Proof.
  induction l as [|a l IH]; intros Hnd Hin Hk Hother.
  { by apply elem_of_nil in Hin. }
  cbn [fmap list_fmap] in Hnd, Hin. apply NoDup_cons in Hnd as [Ha Hnd].
  change ((a :: l) ≫= f) with (f a ++ (l ≫= f)). rewrite filter_app, length_app.
  destruct (decide (key a = k)) as [Heq|Hne].
  - rewrite (filter_bind_nil P f l).
    + assert (a ∈ a :: l) as Ha' by (by left). rewrite (Hk a Ha' Heq). done.
    + intros x Hx. apply Hother; [by right|]. intros Hkx. apply Ha.
      rewrite Heq, <- Hkx. apply list_elem_of_fmap. by exists x.
  - rewrite (Hother a) by (done || by left). cbn.
    apply elem_of_cons in Hin as [Hin|Hin]; [congruence|].
    apply IH; [done|done|..]; intros x Hx; [apply Hk|apply Hother]; by right.
Qed.

Lemma group_writes_paths visit path componentsUrl :
  Forall (λ w, w.1 = path) (group_writes visit path componentsUrl)
  ∧ (length (group_writes visit path componentsUrl) ≤ 2)%nat.
Proof.
  unfold group_writes. destruct componentsUrl as [url|o].
  - destruct (gv_goto visit url); [|destruct (gv_goBack visit)];
      (split; [repeat constructor|simpl; lia]).
  - split; [repeat constructor|simpl; lia].
Qed.

Lemma section_writes_paths b product sections :
  Forall (λ w, ∃ s g, w.1 = [product; s; g]) (section_writes b product sections).
Proof.
  unfold section_writes. apply Forall_bind, Forall_forall.
  intros [s [text|groups]] _; [constructor|]. cbn.
  apply Forall_bind, Forall_forall. intros [g u] _. cbn.
  eapply Forall_impl; [apply group_writes_paths|]. intros w Hw. by exists s, g.
Qed.

Lemma product_writes_paths b product productPageUrl :
  Forall (λ w, w.1 = [product] ∨ ∃ s g, w.1 = [product; s; g])
         (product_writes b (product, productPageUrl)).
Proof.
  unfold product_writes. destruct productPageUrl as [url|o].
  - destruct (pv_goto (br_product b product) url).
    { repeat constructor. }
    destruct (getProductSectionsAndPageUrls (pv_sections (br_product b product))).
    + constructor; [by left|].
      eapply Forall_impl; [apply section_writes_paths|]. intros w Hw. by right.
    + repeat constructor.
    + constructor.
  - repeat constructor.
Qed.

Lemma product_writes_other b product productPageUrl path :
  head path ≠ Some product →
  filter (λ w, w.1 = path) (product_writes b (product, productPageUrl)) = [].
Proof.
  intros Hhead. apply filter_none.
  eapply Forall_impl; [apply product_writes_paths|].
  intros w [Hw|(s & g & Hw)] Heq; rewrite Hw in Heq; subst path; by apply Hhead.
Qed.

Lemma product_writes_product b product productPageUrl :
  length (filter (λ w, w.1 = [product]) (product_writes b (product, productPageUrl)))
  = 1%nat.
Proof.
  unfold product_writes.
  destruct productPageUrl as [url|o]; [|by rewrite filter_cons_True].
  destruct (pv_goto (br_product b product) url); [by rewrite filter_cons_True|].
  destruct (getProductSectionsAndPageUrls (pv_sections (br_product b product)))
    as [sections|message|code] eqn:Hsections; [|by rewrite filter_cons_True|].
  - rewrite filter_cons_True by done. rewrite filter_none; [done|].
    eapply Forall_impl; [apply section_writes_paths|].
    intros w (s & g & Hw) Heq. by rewrite Hw in Heq.
  - by apply getProductSectionsAndPageUrls_no_exit in Hsections.
Qed.

Lemma section_writes_group b product sections s g :
  sections_wf sections →
  (length (filter (λ w, w.1 = [product; s; g]) (section_writes b product sections))
   ≤ 2)%nat.
Proof.
  intros [Hnd Hwf]. unfold section_writes.
  apply (filter_bind_length_le _ _ fst s); [done|..].
  - intros [s' v] Hin Heq. cbn [fst] in Heq. subst s'.
    apply (proj1 (Forall_forall _ _) Hwf) in Hin as (groups & Hv & Hgnd & _).
    cbn [snd] in Hv. subst v.
    apply (filter_bind_length_le _ _ fst g); [done|..].
    + intros [g' u] _ _. etrans; [apply length_filter|]. apply group_writes_paths.
    + intros [g' u] _ Hne. cbn [fst] in Hne. apply filter_none.
      eapply Forall_impl; [apply group_writes_paths|].
      intros w Hw Heq. rewrite Hw in Heq. congruence.
  - intros [s' v] _ Hne. cbn [fst] in Hne. destruct v as [text|groups]; [done|].
    apply filter_bind_nil. intros [g' u] _. apply filter_none.
    eapply Forall_impl; [apply group_writes_paths|].
    intros w Hw Heq. rewrite Hw in Heq. congruence.
Qed.

(** X26. In a completed run every assignment is made at the node of a
    product or of a Group; the node of each product is assigned exactly
    once, and the node of a Group at most twice. *)
Theorem nodes_assigned_once_or_twice b rootUrl cookies tree ws :
  run_scrape b rootUrl cookies = (Ok tree, ws) →
  Forall (λ w, ∃ p, p ∈ obj_keys tree ∧ (w.1 = [p] ∨ ∃ s g, w.1 = [p; s; g])) ws
  ∧ (∀ p, p ∈ obj_keys tree → length (writes_at [p] ws) = 1%nat)
  ∧ (∀ p s g, (length (writes_at [p; s; g] ws) ≤ 2)%nat).
Proof.
  intros Hrun.
  destruct (run_scrape_writes _ _ _ _ _ Hrun) as (names & Hnames & -> & ->).
  pose proof (getProductNamesAndPageUrls_NoDup _ _ Hnames) as Hnd.
  rewrite obj_keys_map. unfold writes_at. split_and!.
  - apply Forall_bind, Forall_forall. intros [p u] Hin. cbn.
    eapply Forall_impl; [apply product_writes_paths|]. intros w Hw.
    exists p. split; [|done]. apply list_elem_of_fmap. by exists (p, u).
  - intros p Hp. apply (filter_bind_length_one _ _ fst p); [done|done|..].
    + intros [q u] _ Heq. cbn [fst] in Heq. subst q. apply product_writes_product.
    + intros [q u] _ Hne. cbn [fst] in Hne. apply product_writes_other.
      cbn. congruence.
  - intros p s g. apply (filter_bind_length_le _ _ fst p); [done|..].
    + intros [q u] _ Heq. cbn [fst] in Heq. subst q.
      unfold product_writes.
      destruct u as [url|o]; [|rewrite filter_cons_False by done; cbn; lia].
      destruct (pv_goto (br_product b p) url);
        [rewrite filter_cons_False by done; cbn; lia|].
      destruct (getProductSectionsAndPageUrls (pv_sections (br_product b p)))
        as [sections|message|code] eqn:Hsections;
        [|rewrite filter_cons_False by done; cbn; lia|cbn; lia].
      rewrite filter_cons_False by done.
      apply section_writes_group. by eapply getProductSectionsAndPageUrls_wf.
    + intros [q u] _ Hne. cbn [fst] in Hne. apply product_writes_other.
      cbn. congruence.
Qed.

Lemma nodes_assigned_once_or_twice_witness :
  length (writes_at ["Marketing"; "Heroes"; "Hero B"]
            (run_scrape (demo_browser goBack_fails) rootUrl true).2) = 2%nat
  ∧ (length (writes_at ["Marketing"]
               (run_scrape (demo_browser goBack_fails) rootUrl true).2) ≤ 1)%nat.
Proof.
  destruct (nodes_assigned_once_or_twice (demo_browser goBack_fails) rootUrl true
              (demo_tree goBack_fails)
              (run_scrape (demo_browser goBack_fails) rootUrl true).2)
    as (_ & Hproducts & _).
  - vm_compute. reflexivity.
  - split; [vm_compute; reflexivity|].
    rewrite (Hproducts "Marketing"); [lia|].
    vm_compute. apply list_elem_of_In. left. reflexivity.
Defined.

End Assignments.
